(** * osjs-cli: the webpack configuration composer and the scaffolding filter

    A shallow embedding of [src/webpack.js] ([createWebpack]) and of
    [filterInput] from [src/tasks/scaffold.js], with the properties the
    specification states about them.

    JavaScript values are trees ([val]); objects are association lists in
    own-property order.  Code that can throw returns a [result].
    [createWebpack] is embedded twice: as a function on trees, for what it
    returns, and ([Module Store]) as a computation over a heap of object and
    array cells, for what it writes; [createWebpack_refines] shows that the
    second returns what the first returns.

    The tasks of [src/tasks/scaffold.js] ([scaffoldBasic], [scaffoldPackage]
    and its promises) are trees of events, run against a handler that
    stands for the file system, the logger and the user.

    The file has four parts: the definitions, facts about them, the
    properties of the specification (C1 to C10), and further properties of
    the code (X1 to X25). *)

From Stdlib Require Import String Ascii List Bool Arith ZArith Lia.
From stdpp Require Import base list strings.
Import ListNotations.
Local Open Scope string_scope.
Local Open Scope list_scope.

(** ** Strings *)

Fixpoint strip_prefix (p s : string) : option string :=
  match p with
  | EmptyString => Some s
  | String a p' =>
      match s with
      | EmptyString => None
      | String b s' => if Ascii.eqb a b then strip_prefix p' s' else None
      end
  end.

Definition is_prefix (w s : string) : bool :=
  match strip_prefix w s with Some _ => true | None => false end.

(** [w] occurs in [s]. *)
Fixpoint is_infix (w s : string) : bool :=
  is_prefix w s ||
  match s with
  | EmptyString => false
  | String _ s' => is_infix w s'
  end.

(** [s] ends with [w]. *)
Fixpoint is_suffix (w s : string) : bool :=
  String.eqb s w ||
  match s with
  | EmptyString => false
  | String _ s' => is_suffix w s'
  end.

Definition chars (s : string) : list ascii := list_ascii_of_string s.
Definition of_chars (l : list ascii) : string := string_of_list_ascii l.

(** ** Regular expressions

    The regular expressions of the two source files are star-free; they are
    kept as syntax and run by a backtracking matcher.  A position is the rest
    of the input together with a flag that tells whether it is the start of
    the input (for [^]). *)

Module RegExp.

Inductive t : Type :=
| Lit (s : string)                          (* the characters of s, in order *)
| Class (neg : bool) (rs : list (ascii * ascii))  (* [a-b...] and [^a-b...] *)
| Seq (r1 r2 : t)
| Alt (r1 r2 : t)
| Opt (r : t)                               (* r? *)
| Bol                                       (* ^ *)
| Eol.                                      (* $ *)

Definition in_range (c : ascii) (r : ascii * ascii) : bool :=
  Nat.leb (nat_of_ascii (fst r)) (nat_of_ascii c)
  && Nat.leb (nat_of_ascii c) (nat_of_ascii (snd r)).

Definition in_class (neg : bool) (rs : list (ascii * ascii)) (c : ascii) : bool :=
  xorb neg (existsb (in_range c) rs).

Fixpoint run (r : t) (start : bool) (s : string) : list (bool * string) :=
  match r with
  | Lit l =>
      match strip_prefix l s with
      | Some rest => [(start && Nat.eqb (String.length l) 0, rest)]
      | None => []
      end
  | Class neg rs =>
      match s with
      | String c rest => if in_class neg rs c then [(false, rest)] else []
      | EmptyString => []
      end
  | Seq r1 r2 => flat_map (fun p => run r2 (fst p) (snd p)) (run r1 start s)
  | Alt r1 r2 => run r1 start s ++ run r2 start s
  | Opt r1 => run r1 start s ++ [(start, s)]
  | Bol => if start then [(start, s)] else []
  | Eol => match s with EmptyString => [(start, s)] | _ => [] end
  end.

Definition matches_at (r : t) (start : bool) (s : string) : bool :=
  match run r start s with [] => false | _ :: _ => true end.

Fixpoint search (r : t) (start : bool) (s : string) : bool :=
  matches_at r start s ||
  match s with
  | EmptyString => false
  | String _ s' => search r false s'
  end.

(** [re.test(s)] for a regular expression without flags. *)
Definition test (r : t) (s : string) : bool := search r true s.

(** The words of an expression made of literals only, in the order in
    which the matcher tries them. *)
Fixpoint plain (r : t) : bool :=
  match r with
  | Lit _ => true
  | Seq r1 r2 | Alt r1 r2 => plain r1 && plain r2
  | Opt r1 => plain r1
  | Class _ _ | Bol | Eol => false
  end.

Fixpoint words (r : t) : list string :=
  match r with
  | Lit l => [l]
  | Seq r1 r2 => flat_map (fun w1 => map (String.append w1) (words r2)) (words r1)
  | Alt r1 r2 => words r1 ++ words r2
  | Opt r1 => words r1 ++ [EmptyString]
  | Class _ _ | Bol | Eol => []
  end.

(** What is left of [s] after each of the words that starts it. *)
Fixpoint remainders (ws : list string) (s : string) : list string :=
  match ws with
  | [] => []
  | w :: rest =>
      match strip_prefix w s with
      | Some r => r :: remainders rest s
      | None => remainders rest s
      end
  end.

(** [s.replace(re, '')] for a global regular expression that is a single
    character class: every character of the class is dropped. *)
Definition remove_class (neg : bool) (rs : list (ascii * ascii)) (s : string) : string :=
  of_chars (List.filter (fun c => negb (in_class neg rs c)) (chars s)).

End RegExp.

(** ** Paths: POSIX [path.resolve] *)

Module Path.

Definition slash : ascii := "/"%char.

(** The segments of a path between slashes. *)
Fixpoint segments (s : string) : list string :=
  match s with
  | EmptyString => [EmptyString]
  | String c s' =>
      if Ascii.eqb c slash then EmptyString :: segments s'
      else match segments s' with
           | seg :: rest => String c seg :: rest
           | [] => [String c EmptyString]
           end
  end.

(** [normalizeString]: the stack holds the kept segments, last one first. *)
Fixpoint normalize (allowAboveRoot : bool) (stack : list string) (segs : list string)
  : list string :=
  match segs with
  | [] => rev stack
  | seg :: rest =>
      if String.eqb seg "" || String.eqb seg "." then normalize allowAboveRoot stack rest
      else if String.eqb seg ".." then
        match stack with
        | top :: stack' =>
            if String.eqb top ".." then normalize allowAboveRoot (seg :: stack) rest
            else normalize allowAboveRoot stack' rest
        | [] =>
            if allowAboveRoot then normalize allowAboveRoot [seg] rest
            else normalize allowAboveRoot [] rest
        end
      else normalize allowAboveRoot (seg :: stack) rest
  end.

Definition is_absolute (p : string) : bool :=
  match p with
  | String c _ => Ascii.eqb c slash
  | EmptyString => false
  end.

(** The right-to-left loop of [path.resolve]: arguments are prepended until
    an absolute one is met; the working directory comes last. *)
Fixpoint prepend (rev_args : list string) (cwd : string) (acc : string) : string * bool :=
  match rev_args with
  | [] =>
      if String.eqb cwd "" then (acc, false)
      else (cwd +:+ "/" +:+ acc, is_absolute cwd)
  | p :: rest =>
      if String.eqb p "" then prepend rest cwd acc
      else if is_absolute p then (p +:+ "/" +:+ acc, true)
      else prepend rest cwd (p +:+ "/" +:+ acc)
  end.

Definition join (segs : list string) : string := String.concat "/" segs.

Definition resolve (cwd : string) (args : list string) : string :=
  let '(p, absolute) := prepend (rev args) cwd "" in
  let n := join (normalize (negb absolute) [] (segments p)) in
  if absolute then "/" +:+ n
  else if String.eqb n "" then "." else n.

End Path.

(** ** JavaScript values *)

Unset Elimination Schemes.
(** [VObj props] is a plain object, and [VInst cls props] an object made by
    a class, such as a plugin that a caller hands over: [cls] names the
    class and [props] are the own enumerable properties, in their order.
    What the object inherits from its class, its methods, is not data: a
    copy made key by key is a plain object.  An instance is not an array.

    [VExt callee args] is the result of a call into another package
    ([new HtmlWebpackPlugin(t)], [ExtractTextPlugin.extract(o)]): the model
    keeps the call as the descriptor of what it returns and does not look
    inside it.  It is an object; where one is merged, it is taken not to be
    an array, and what the merge makes of it is a descriptor again. *)
Inductive val : Type :=
| VUndef
| VNull
| VBool (b : bool)
| VNum (n : Z)
| VStr (s : string)
| VRegExp (r : RegExp.t)
| VExt (callee : string) (args : list val)
| VInst (cls : string) (props : list (string * val))
| VArr (elems : list val)
| VObj (props : list (string * val)).
Set Elimination Schemes.

Definition props := list (string * val).

Inductive errno := ENOENT | ELOOP | ENOTDIR | EACCES.

Inductive exn :=
| FsError (code : errno)      (* thrown by fs.realpathSync *)
| TypeError                   (* property of null/undefined, not a function, not iterable *)
| RangeError.                 (* call stack exhausted, on a cyclic structure *)

Inductive result (A : Type) : Type :=
| Ok (a : A)
| Throw (e : exn).
Arguments Ok {A} a.
Arguments Throw {A} e.

#[global] Instance result_ret : MRet result := fun A a => Ok a.
#[global] Instance result_bind : MBind result := fun A B f m =>
  match m with
  | Ok a => f a
  | Throw e => Throw e
  end.

(** ToBoolean *)
Definition truthy (v : val) : bool :=
  match v with
  | VUndef | VNull => false
  | VBool b => b
  | VNum n => negb (Z.eqb n 0)
  | VStr s => negb (String.eqb s "")
  | _ => true
  end.

Fixpoint lookup_prop {A} (k : string) (ps : list (string * A)) : option A :=
  match ps with
  | [] => None
  | (k', v) :: rest => if String.eqb k k' then Some v else lookup_prop k rest
  end.

(** [o[k]] where the base is not null or undefined: own properties of a plain
    object or of an instance, [undefined] for any other base (the keys that
    the program reads are not members of a prototype). *)
Definition get (o : val) (k : string) : val :=
  match o with
  | VObj ps | VInst _ ps => default VUndef (lookup_prop k ps)
  | _ => VUndef
  end.

(** [o.k], which throws on [null] and [undefined]. *)
Definition getprop (o : val) (k : string) : result val :=
  match o with
  | VUndef | VNull => Throw TypeError
  | _ => Ok (get o k)
  end.

(** [o[k] = v] on own properties: an existing key keeps its place, a new key
    goes last. *)
Fixpoint set_prop {A} (k : string) (v : A) (ps : list (string * A)) : list (string * A) :=
  match ps with
  | [] => [(k, v)]
  | (k', v') :: rest =>
      if String.eqb k k' then (k, v) :: rest else (k', v') :: set_prop k v rest
  end.

Definition set (o : val) (k : string) (v : val) : val :=
  match o with
  | VObj ps => VObj (set_prop k v ps)
  | VInst c ps => VInst c (set_prop k v ps)
  | _ => o
  end.

(** [a.push(x)]: only arrays have the method.  (An instance could have one
    of its own, and could be iterable; none reaches [push] or [spread]
    here, since [deepmerge] turns the instances it meets into plain
    objects: see [merged_no_instance].) *)
Definition push (a : val) (x : val) : result val :=
  match a with
  | VArr es => Ok (VArr (es ++ [x]))
  | _ => Throw TypeError
  end.

(** [...a] inside an array literal: arrays and strings are iterable (a
    string by its characters, which are bytes here). *)
Definition spread (a : val) : result (list val) :=
  match a with
  | VArr es => Ok es
  | VStr s => Ok (map (fun c => VStr (String c EmptyString)) (chars s))
  | _ => Throw TypeError
  end.

(** ** The [deepmerge] package (2.x), with its default options

    [deepmerge(target, source)] returns a new value and copies what it takes
    from either argument ([clone] is on by default).  Arrays are merged by
    concatenation, objects key by key. *)

(** [isMergeableObject]: a non-null object that is neither a RegExp nor a
    Date.  An object of a class is one, like a plain object. *)
Definition isMergeableObject (v : val) : bool :=
  match v with
  | VArr _ | VObj _ | VInst _ _ | VExt _ _ => true
  | _ => false
  end.

Definition emptyTarget (v : val) : val :=
  match v with
  | VArr _ => VArr []
  | _ => VObj []
  end.

(** [cloneUnlessOtherwiseSpecified]: the deep copy
    [deepmerge(emptyTarget(v), v)] of a mergeable value, the value itself
    otherwise; see [clone_deepmerge].  The copy of an instance is a plain
    object with the copies of its own enumerable properties; the copy of
    the result of an external call is known by that call only. *)
Fixpoint clone (v : val) : val :=
  match v with
  | VArr es => VArr (map clone es)
  | VObj ps | VInst _ ps => VObj (map (fun p => (fst p, clone (snd p))) ps)
  | VExt _ _ => VExt "deepmerge" [VObj []; v]
  | _ => v
  end.

Definition is_array (v : val) : bool :=
  match v with VArr _ => true | _ => false end.

Definition is_ext (v : val) : bool :=
  match v with VExt _ _ => true | _ => false end.

Definition elems_of (v : val) : list val :=
  match v with VArr es => es | _ => [] end.

(** [Object.keys(v)] with the values: the own enumerable properties. *)
Definition props_of (v : val) : props :=
  match v with VObj ps | VInst _ ps => ps | _ => [] end.

(** [deepmerge] and the loop of [mergeObject] over the keys of the source.
    The source is an array or an object: inner calls are guarded by
    [isMergeableObject], and [createWebpack] passes an object.  Where
    [mergeObject] would read the keys of the result of an external call,
    the merge is known by its call only. *)
Fixpoint deepmerge (target source : val) {struct source} : val :=
  match source with
  | VArr ss =>
      if is_array target
      then VArr (map clone (elems_of target ++ ss))      (* defaultArrayMerge *)
      else clone source
  | VObj sps | VInst _ sps =>
      if is_array target then clone source
      else if is_ext target then VExt "deepmerge" [target; source]
      else
        (* mergeObject *)
        let copied :=
          if isMergeableObject target
          then map (fun p => (fst p, clone (snd p))) (props_of target)
          else [] in
        VObj ((fix loop (destination : props) (sps : props) {struct sps} : props :=
                 match sps with
                 | [] => destination
                 | (key, sv) :: rest =>
                     let tv := get target key in
                     let v :=
                       if negb (isMergeableObject sv) || negb (truthy tv)
                       then clone sv
                       else deepmerge tv sv in
                     loop (set_prop key v destination) rest
                 end) copied sps)
  | VExt _ _ =>
      if is_array target then clone source
      else VExt "deepmerge" [target; source]
  | _ => clone source
  end.

(** ** The environment of the module *)

Record Env := {
  realpathSync : string -> errno + string;   (* fs.realpathSync: the canonical path, or the error *)
  cwd : string;                              (* process.cwd() *)
  NODE_ENV : option string;                  (* process.env.NODE_ENV *)
  cliRoot : string;                          (* path.dirname(__dirname) *)
  require_resolve : string -> string         (* require.resolve *)
}.

(** [/^prod/] *)
Definition re_prod : RegExp.t := RegExp.Seq RegExp.Bol (RegExp.Lit "prod").

(** [!!(process.env.NODE_ENV || 'development').match(/^prod/)] *)
Definition production (env : Env) : bool :=
  let node_env :=
    match NODE_ENV env with
    | Some s => if String.eqb s "" then "development" else s
    | None => "development"
    end in
  RegExp.test re_prod node_env.

(** ** The regular expressions of [webpack.js] *)

Import RegExp.

Fixpoint alts (ws : list string) : RegExp.t :=
  match ws with
  | [] => Class false []
  | [w] => Lit w
  | w :: rest => Alt (Lit w) (alts rest)
  end.

(** [/(node_modules|bower_components)/] *)
Definition re_exclude : RegExp.t := alts ["node_modules"; "bower_components"].
(** [/\.(png|jpe?g|gif|webp)$/] *)
Definition re_image : RegExp.t :=
  Seq (Seq (Lit ".")
         (Alt (Lit "png")
            (Alt (Seq (Seq (Lit "jp") (Opt (Lit "e"))) (Lit "g"))
               (Alt (Lit "gif") (Lit "webp")))))
    Eol.
(** [/\.s?css$/] *)
Definition re_style : RegExp.t := Seq (Seq (Seq (Lit ".") (Opt (Lit "s"))) (Lit "css")) Eol.
(** [/\.js$/] *)
Definition re_script : RegExp.t := Seq (Lit ".js") Eol.
(** [/\.(eot|svg|ttf|woff|woff2)$/] *)
Definition re_font : RegExp.t :=
  Seq (Seq (Lit ".") (alts ["eot"; "svg"; "ttf"; "woff"; "woff2"])) Eol.
(** [/typeface/] *)
Definition re_typeface : RegExp.t := Lit "typeface".
(** [/\.svg$/] *)
Definition re_svg : RegExp.t := Seq (Lit ".svg") Eol.

(** ** [src/webpack.js] *)

Section Webpack.

Variable env : Env.

Definition resolve_module (name : string) : val := VStr (require_resolve env name).

(** The first argument of [merge] in [createWebpack]. *)
Definition defaults (dir realDir : string) : val :=
  VObj [
    ("mode", VStr "development");
    ("context", VStr realDir);
    ("splitChunks", VBool false);
    ("runtimeChunk", VBool false);
    ("minimize", VBool (production env));
    ("sourceMap", VBool (production env));
    ("devtool", VStr "source-map");
    ("exclude", VRegExp re_exclude);
    ("outputPath", VStr (Path.resolve (cwd env) [dir; "dist"]));
    ("html", VObj [("template", VNull); ("title", VStr "OS.js")]);
    ("entry", VObj []);
    ("plugins", VArr []);
    ("copy", VArr []);
    ("rules", VArr []);
    ("babel", VObj [
       ("cacheDirectory", VBool true);
       ("presets", VArr [resolve_module "@babel/preset-env"]);
       ("plugins", VArr [resolve_module "@babel/plugin-transform-runtime"])]);
    ("includePaths", VArr [])
  ].

(** The five rules that follow [...options.rules]. *)
Definition image_rule : val :=
  VObj [
    ("test", VRegExp re_image);
    ("use", VArr [VObj [("loader", resolve_module "file-loader"); ("options", VObj [])]])
  ].

Definition style_rule (options : val) (includePaths : list val) : val :=
  VObj [
    ("test", VRegExp re_style);
    ("use", VExt "ExtractTextPlugin.extract" [
       VObj [
         ("fallback", VObj [("loader", resolve_module "style-loader")]);
         ("use", VArr [
            VObj [
              ("loader", resolve_module "css-loader");
              ("options", VObj [
                 ("minimize", get options "minimize");
                 ("sourceMap", get options "sourceMap")])];
            VObj [
              ("loader", resolve_module "sass-loader");
              ("options", VObj [
                 ("minimize", get options "minimize");
                 ("sourceMap", get options "sourceMap");
                 ("includePaths", VArr includePaths)])]])]])
  ].

Definition script_rule (options : val) : val :=
  VObj [
    ("test", VRegExp re_script);
    ("exclude", get options "exclude");
    ("use", VObj [("loader", resolve_module "babel-loader"); ("options", get options "babel")])
  ].

Definition font_rule : val :=
  VObj [
    ("test", VRegExp re_font);
    ("include", VRegExp re_typeface);
    ("use", VObj [
       ("loader", resolve_module "file-loader");
       ("options", VObj [("name", VStr "fonts/[name].[ext]")])])
  ].

Definition svg_rule : val :=
  VObj [
    ("test", VRegExp re_svg);
    ("exclude", VRegExp re_typeface);
    ("use", VObj [("loader", resolve_module "file-loader")])
  ].

Definition builtin_rules (options : val) (includePaths : list val) : list val :=
  [image_rule; style_rule options includePaths; script_rule options; font_rule; svg_rule].

Definition builtin_plugins (options : val) : list val :=
  [VExt "new ExtractTextPlugin" [VStr "[name].css"];
   VExt "new CopyWebpackPlugin" [get options "copy"]].

(** [fs.realpathSync(dir)] *)
Definition fs_realpathSync (dir : string) : result string :=
  match realpathSync env dir with
  | inr realDir => Ok realDir
  | inl code => Throw (FsError code)
  end.

(** [merge({...}, options)] *)
Definition merged (dir realDir : string) (options : val) : val :=
  deepmerge (defaults dir realDir) options.

(** [if (!options.sourceMap) { options.devtool = false; }] *)
Definition force_devtool (options : val) : val :=
  if negb (truthy (get options "sourceMap"))
  then set options "devtool" (VBool false)
  else options.

Definition html_plugin (template : val) : val := VExt "new HtmlWebpackPlugin" [template].

(** [if (options.html.template) { options.plugins.push(new HtmlWebpackPlugin(...)); }] *)
Definition push_html (options : val) : result val :=
  template ← getprop (get options "html") "template";
  if truthy template then
    plugins ← push (get options "plugins") (html_plugin template);
    Ok (set options "plugins" plugins)
  else Ok options.

(** The object literal that [createWebpack] returns. *)
Definition assemble (dir : string) (options : val) : result val :=
  plugins ← spread (get options "plugins");
  rules ← spread (get options "rules");
  includePaths ← spread (get options "includePaths");
  Ok (VObj [
    ("mode", get options "mode");
    ("devtool", get options "devtool");
    ("context", get options "context");
    ("plugins", VArr (builtin_plugins options ++ plugins));
    ("entry", get options "entry");
    ("optimization", VObj [
       ("minimize", get options "minimize");
       ("splitChunks", get options "splitChunks");
       ("runtimeChunk", get options "runtimeChunk")]);
    ("output", VObj [
       ("path", get options "outputPath");
       ("sourceMapFilename", VStr "[file].map");
       ("filename", VStr "[name].js")]);
    ("resolve", VObj [
       ("modules", VArr [
          VStr "node_modules";
          VStr (Path.resolve (cwd env) [dir; "node_modules"]);
          VStr (Path.resolve (cwd env) [cliRoot env; "node_modules"])])]);
    ("module", VObj [
       ("rules", VArr (rules ++ builtin_rules options includePaths))])
  ]).

(** [createWebpack(dir, options = {})]; [None] is an omitted argument. *)
Definition createWebpack (dir : string) (options : option props) : result val :=
  realDir ← fs_realpathSync dir;
  let options := merged dir realDir (VObj (default [] options)) in
  let options := force_devtool options in
  options ← push_html options;
  assemble dir options.

End Webpack.

(** ** How the bundler reads the rule list

    A rule applies to a resource when its [test] and [include] conditions
    hold and its [exclude] condition does not; a missing condition does not
    restrict.  The conditions of [webpack.js] are regular expressions, run
    against the path of the resource. *)

Definition condition (c : val) (path : string) : bool :=
  match c with
  | VRegExp r => RegExp.test r path
  | _ => false
  end.

Definition holds_or_absent (c : val) (path : string) : bool :=
  match c with
  | VUndef => true
  | _ => condition c path
  end.

Definition rule_matches (rule : val) (path : string) : bool :=
  holds_or_absent (get rule "test") path
  && holds_or_absent (get rule "include") path
  && negb (condition (get rule "exclude") path).

(** First match wins: the rule selected for a path is the first one of the
    list that applies to it. *)
Definition first_match (applies : val -> string -> bool) (rules : list val) (path : string)
  : option val :=
  find (fun r => applies r path) rules.

(** Reading a path of keys in a configuration. *)
Fixpoint get_path (v : val) (ks : list string) : val :=
  match ks with
  | [] => v
  | k :: rest => get_path (get v k) rest
  end.

(** ** [src/tasks/scaffold.js] *)

(** The white space that [String.prototype.trim] removes, among the
    characters below 128. *)
Definition is_space (c : ascii) : bool :=
  let n := nat_of_ascii c in
  Nat.eqb n 32 || (Nat.leb 9 n && Nat.leb n 13).

Fixpoint drop_spaces (l : list ascii) : list ascii :=
  match l with
  | c :: rest => if is_space c then drop_spaces rest else l
  | [] => []
  end.

Definition trim (s : string) : string :=
  of_chars (rev (drop_spaces (rev (drop_spaces (chars s))))).

(** [String(input).replace(/[^A-z0-9_]/g, '').trim()], on a string. *)
Definition filterInput (input : string) : string :=
  trim (RegExp.remove_class true
          [("A"%char, "z"%char); ("0"%char, "9"%char); ("_"%char, "_"%char)] input).

(** ** [path.dirname] and [path.basename] (POSIX) *)

Module Posix.

Definition is_slash (c : ascii) : bool := Ascii.eqb c Path.slash.

(** The loop of [dirname], from the last character down to the second one:
    [r] holds the characters still to visit, last one first, so that the
    index of its head is [length r] when the first character is left out. *)
Fixpoint dirname_end (r : list ascii) (matchedSlash : bool) : option nat :=
  match r with
  | [] => None
  | c :: r' =>
      if is_slash c then
        if matchedSlash then dirname_end r' true else Some (S (length r'))
      else dirname_end r' false
  end.

Definition dirname (path : string) : string :=
  match chars path with
  | [] => "."
  | c0 :: rest =>
      let hasRoot := is_slash c0 in
      match dirname_end (rev rest) true with
      | None => if hasRoot then "/" else "."
      | Some e =>
          if hasRoot && Nat.eqb e 1 then "//"
          else of_chars (firstn e (c0 :: rest))
      end
  end.

(** The loop of [basename] without a suffix, from the last character down
    to the first one; it returns [start] and [end]. *)
Fixpoint basename_scan (r : list ascii) (matchedSlash : bool) (end_ : option nat)
  : nat * option nat :=
  match r with
  | [] => (0, end_)
  | c :: r' =>
      if is_slash c then
        if matchedSlash then basename_scan r' matchedSlash end_
        else (S (length r'), end_)
      else
        match end_ with
        | None => basename_scan r' false (Some (S (length r')))
        | Some _ => basename_scan r' matchedSlash end_
        end
  end.

Definition basename (path : string) : string :=
  match basename_scan (rev (chars path)) true None with
  | (_, None) => ""
  | (start, Some e) => of_chars (skipn start (firstn e (chars path)))
  end.

End Posix.

(** ** [String.prototype.replace] with a global pattern that is a literal

    The replacement is a string, so its [$] patterns are expanded
    ([GetSubstitution]); the pattern has no groups, so that [$1], [$<n>]
    and the like stand for themselves. *)

Fixpoint expand (repl : list ascii) (matched before after : string) : string :=
  match repl with
  | "$"%char :: "$"%char :: r => String "$" (expand r matched before after)
  | "$"%char :: "&"%char :: r => matched +:+ expand r matched before after
  | "$"%char :: "`"%char :: r => before +:+ expand r matched before after
  | "$"%char :: "'"%char :: r => after +:+ expand r matched before after
  | c :: r => String c (expand r matched before after)
  | [] => ""
  end.

(** [skip] characters of the last match are still to be passed over;
    [before] is what was read so far, last character first.  The pattern
    is not empty. *)
Fixpoint replace_from (pat : string) (repl : list ascii) (s : string) (skip : nat)
    (before : list ascii) : string :=
  match s with
  | EmptyString => ""
  | String c s' =>
      match skip with
      | S n => replace_from pat repl s' n (c :: before)
      | O =>
          match strip_prefix pat s with
          | Some after =>
              expand repl pat (of_chars (rev before)) after
              +:+ replace_from pat repl s' (String.length pat - 1) (c :: before)
          | None => String c (replace_from pat repl s' 0 (c :: before))
          end
      end
  end.

Definition replace_all (pat repl s : string) : string :=
  replace_from pat (chars repl) s 0 [].

(** ** [src/tasks/scaffold.js]: the tasks

    The tasks talk to the file system, to the terminal and to the logger.
    A task is a tree of such events: each event carries what the program
    passes, and the continuation takes what the event resolves to.  An
    [async] function that throws, or that awaits a rejected promise, ends
    in [Raise]. *)

Module Scaffold.

Record scaffold := { dirname : string; title : string; info : string }.

Definition scaffolds : list (string * scaffold) :=
  [ ("auth",
     {| dirname := "auth";
        title := "Authentication Adapter";
        info := "
For more information about authentication adapters, visit:
- https://manual.os-js.org/v3/tutorial/auth/
- https://manual.os-js.org/v3/guide/auth/
" |});
    ("settings",
     {| dirname := "settings";
        title := "Settings Adapter";
        info := "
For more information about settings adapters, visit:
- https://manual.os-js.org/v3/tutorial/settings/
- https://manual.os-js.org/v3/guide/settings/
" |});
    ("vfs",
     {| dirname := "vfs";
        title := "VFS Adapter";
        info := "
For more information about vfs adapters, visit:
- https://manual.os-js.org/v3/tutorial/vfs/
- https://manual.os-js.org/v3/guide/filesystem/
" |});
    ("providers",
     {| dirname := "provider";
        title := "Service Provider";
        info := "
For more information about service providers, visit:
- https://manual.os-js.org/v3/tutorial/provider/
- https://manual.os-js.org/v3/guide/provider/
" |}) ].

(** [scaffolds[type]], for a [type] that is not a property of
    [Object.prototype]. *)
Fixpoint lookup_scaffold (table : list (string * scaffold)) (type : string)
  : option scaffold :=
  match table with
  | [] => None
  | (k, s) :: rest => if String.eqb k type then Some s else lookup_scaffold rest type
  end.

(** *** The questions and the answers of [inquirer] *)

Inductive question_type :=
| input
| list_ (choices : list (string * string))   (* name, value *)
| confirm_.

(** A question over the answers [A]: [message] and [default] may read the
    answers given so far. *)
Record question (A : Type) := {
  q_name : string;
  q_message : A -> string;
  q_type : question_type;
  q_default : option (A -> string);
  q_filter : option (string -> string);
  q_validate : option (string -> string + unit)   (* rejected with a reason, or accepted *)
}.
Arguments q_name {A}.
Arguments q_message {A}.
Arguments q_type {A}.
Arguments q_default {A}.
Arguments q_filter {A}.
Arguments q_validate {A}.

(** The answers of [ask]. *)
Record basic_answers := {
  type : string;
  filename : string;
  target : string;
  confirm : bool }.

(** The answers of the prompt of [scaffoldPackage]. *)
Record package_answers := {
  name : string;
  package_target : string;
  package_confirm : bool }.

(** An entry of the list that [utils.npmPackages] resolves to: only
    [meta.name] is read. *)
Record package := { meta_name : string }.

(** *** Events and programs

    The calls of [fs-extra], [inquirer], the logger and the console are
    events, and so is [utils.npmPackages], whose code is not among the
    sources: nothing is assumed of what an event answers. *)

Inductive failure :=
| Error (message : string)
| Uncaught (e : exn).

Inductive event : Type -> Type :=
| LoggerAwait (args : list string) : event unit
| LoggerWarn (args : list string) : event unit
| LoggerSuccess (args : list string) : event unit
| ConsoleLog (args : list string) : event unit
| NpmPackages (dir : string) : event (list package)
| PromptBasic (questions : list (question basic_answers)) : event basic_answers
| PromptPackage (questions : list (question package_answers)) : event package_answers
| Exists (path : string) : event bool
| EnsureDir (path : string) : event unit
| ReadFile (path encoding : string) : event string
| WriteFile (path contents : string) : event unit.

Inductive prog (A : Type) : Type :=
| Ret (a : A)
| Raise (e : failure)
| Vis {X : Type} (ev : event X) (k : X -> prog A).
Arguments Ret {A}.
Arguments Raise {A}.
Arguments Vis {A X}.

Fixpoint bind {A B} (p : prog A) (f : A -> prog B) : prog B :=
  match p with
  | Ret a => f a
  | Raise e => Raise e
  | Vis ev k => Vis ev (fun x => bind (k x) f)
  end.

#[export] Instance prog_ret : MRet prog := @Ret.
#[export] Instance prog_bind : MBind prog := fun A B f p => bind p f.

Definition perform {X} (ev : event X) : prog X := Vis ev Ret.

(** *** Running a program

    What an event does is left to a handler over some world; it answers
    with a value or with a failure, the rejection of the promise.  A run
    gives the outcome, the world and the list of the events that took
    place, each with its answer. *)

Definition handler (W : Type) : Type := forall X, event X -> W -> (failure + X) * W.

Inductive entry : Type :=
| Did {X : Type} (ev : event X) (r : failure + X).

Fixpoint run {W A} (h : handler W) (p : prog A) (w : W)
  : (failure + A) * W * list entry :=
  match p with
  | Ret a => (inr a, w, [])
  | Raise e => (inl e, w, [])
  | Vis ev k =>
      let '(r, w1) := h _ ev w in
      match r with
      | inl e => (inl e, w1, [Did ev r])
      | inr x => let '(o, w2, tr) := run h (k x) w1 in (o, w2, Did ev r :: tr)
      end
  end.

(** *** The module *)

Section Tasks.

Variable cwd : string.         (* [process.cwd()] *)
Variable __dirname : string.   (* the directory of [scaffold.js] *)

Definition templates : string := Path.resolve cwd [__dirname; "../templates"].

Definition confirm_message (target : string) : string :=
  "Are you sure you want to write to '" +:+ target +:+ "'".

(** The questions of [ask]. *)
Definition questions (type_ : string) (s : scaffold) : list (question basic_answers) :=
  [ {| q_name := "type";
       q_message := fun _ => "Select " +:+ title s +:+ " type";
       q_type := list_ [("Client-side (ES6+)", "client"); ("Server-side (nodejs)", "server")];
       q_default := None; q_filter := None; q_validate := None |};
    {| q_name := "filename";
       q_message := fun _ => "Name of file";
       q_type := input;
       q_default := Some (fun _ => "my-" +:+ dirname s +:+ ".js");
       q_filter := None; q_validate := None |};
    {| q_name := "target";
       q_message := fun _ => "Destination";
       q_type := input;
       q_default := Some (fun answers =>
         "src/" +:+ type answers +:+ "/" +:+ type_ +:+ "/" +:+ filename answers);
       q_filter := None; q_validate := None |};
    {| q_name := "confirm";
       q_message := fun answers => confirm_message (target answers);
       q_type := confirm_;
       q_default := None; q_filter := None; q_validate := None |} ].

(** [ask]: the message of the first question reads [s.title], which throws
    when [s] is undefined. *)
Definition ask (type_ : string) (s : option scaffold) : prog basic_answers :=
  match s with
  | None => Raise (Uncaught TypeError)
  | Some s => perform (PromptBasic (questions type_ s))
  end.

Definition scaffoldBasic (type_ : string) (root : string) : prog unit :=
  _ ← perform (LoggerAwait ["Scaffolding"; type_]);
  let s := lookup_scaffold scaffolds type_ in
  choices ← ask type_ s;
  if negb (confirm choices) then
    perform (LoggerWarn ["Scaffolding aborted..."])
  else
    match s with
    | None => Raise (Uncaught TypeError)
    | Some s =>
        let source := Path.resolve cwd [templates; dirname s; type choices +:+ ".js"] in
        let destination := Path.resolve cwd [root; target choices] in
        exists_ ← perform (Exists destination);
        if exists_ : bool then Raise (Error "Destination already exists!")
        else
          _ ← perform (EnsureDir (Posix.dirname destination));
          raw ← perform (ReadFile source "utf8");
          let contents := "/*" +:+ info s +:+ "*/" +:+ raw in
          _ ← perform (WriteFile destination contents);
          _ ← perform (LoggerSuccess ["Wrote"; Posix.basename destination]);
          perform (ConsoleLog [info s])
    end.

Definition files : list string :=
  ["index.js"; "server.js"; "index.scss"; "webpack.config.js"; "package.json";
   "metadata.json"].

(** One element of [promises(name, dirname)]. *)
Definition promise (name_ dirname_ filename_ : string) : prog unit :=
  let source := Path.resolve cwd [templates; "application"; filename_] in
  let destination := Path.resolve cwd [dirname_; filename_] in
  raw ← perform (ReadFile source "utf8");
  let contents := replace_all "___NAME___" name_ raw in
  _ ← perform (WriteFile destination contents);
  perform (LoggerSuccess ["Wrote"; filename_]).

Definition promises (name_ dirname_ : string) : list (prog unit) :=
  map (promise name_ dirname_) files.

Definition validate (packages : list package) (input_ : string) : string + unit :=
  if Nat.ltb (String.length input_) 1 then inl "Invalid package name"
  else
    match find (fun p => String.eqb (meta_name p) input_) packages with
    | Some _ => inl "A package with this name already exists..."
    | None => inr tt
    end.

Definition package_questions (packages : list package) : list (question package_answers) :=
  [ {| q_name := "name";
       q_message := fun _ => "Enter name of package ([A-z0-9_])";
       q_type := input;
       q_default := Some (fun _ => "MyApplication");
       q_filter := Some filterInput;
       q_validate := Some (validate packages) |};
    {| q_name := "target";
       q_message := fun _ => "Destination";
       q_type := input;
       q_default := Some (fun answers => "src/packages/" +:+ name answers);
       q_filter := None; q_validate := None |};
    {| q_name := "confirm";
       q_message := fun answers => confirm_message (package_target answers);
       q_type := confirm_;
       q_default := None; q_filter := None; q_validate := None |} ].

(** [scaffoldPackage], up to [Promise.all]: it returns the promises it has
    started, or nothing when the user did not confirm.  The parameter
    [type] is not read. *)
Definition scaffoldPackage (type_ : string) (root : string) : prog (option (list (prog unit))) :=
  packages ← perform (NpmPackages (Path.resolve cwd [root; "node_modules"]));
  choices ← perform (PromptPackage (package_questions packages));
  if negb (package_confirm choices) then
    _ ← perform (LoggerWarn ["Scaffolding aborted..."]);
    mret None
  else
    let destination := Path.resolve cwd [root; package_target choices] in
    exists_ ← perform (Exists destination);
    if exists_ : bool then Raise (Error "Destination already exists!")
    else
      _ ← perform (EnsureDir destination);
      mret (Some (promises (name choices) destination)).

(** Where a promise of [promises] stands: started, with the template read,
    with the file written, or settled. *)
Inductive stage :=
| Started
| Read (raw : string)
| Written
| Settled (r : failure + unit).

Definition at_stage (name_ dirname_ filename_ : string) (st : stage) : prog unit :=
  match st with
  | Started => promise name_ dirname_ filename_
  | Read raw =>
      _ ← perform (WriteFile (Path.resolve cwd [dirname_; filename_])
                             (replace_all "___NAME___" name_ raw));
      perform (LoggerSuccess ["Wrote"; filename_])
  | Written => perform (LoggerSuccess ["Wrote"; filename_])
  | Settled (inr _) => Ret tt
  | Settled (inl e) => Raise e
  end.

(** What the events seen tell about a promise at a stage. *)
Definition known (name_ dirname_ filename_ : string) (seen : list entry) (st : stage) : Prop :=
  let read raw :=
    In (Did (ReadFile (Path.resolve cwd [templates; "application"; filename_]) "utf8")
            (inr raw)) seen in
  let written raw :=
    In (Did (WriteFile (Path.resolve cwd [dirname_; filename_])
                       (replace_all "___NAME___" name_ raw)) (inr tt)) seen in
  match st with
  | Started | Settled (inl _) => True
  | Read raw => read raw
  | Written => exists raw, read raw /\ written raw
  | Settled (inr _) =>
      exists raw, read raw /\ written raw /\
                  In (Did (LoggerSuccess ["Wrote"; filename_]) (inr tt)) seen
  end.

(** The calls of [writeFile] that a promise at a stage may still make. *)
Definition pending (st : stage) : nat :=
  match st with
  | Started | Read _ => 1
  | Written | Settled _ => 0
  end.

End Tasks.

(** *** Promises started together

    The promises of [promises] are all started before any of them is
    awaited, and each advances when its pending event completes.  A
    schedule names, step after step, the promise whose event completes; an
    event takes place as a whole at that step.  In the pool that is left a
    promise that is fulfilled reads [Ret tt] and one that is rejected
    [Raise e]: [Promise.all] is fulfilled when all of them are, and rejected
    with the first failure. *)

Definition advance {W} (h : handler W) (p : prog unit) (w : W)
  : prog unit * W * list entry :=
  match p with
  | Vis ev k =>
      let '(r, w1) := h _ ev w in
      (match r with inl e => Raise e | inr x => k x end, w1, [Did ev r])
  | _ => (p, w, [])
  end.

Fixpoint run_pool {W} (h : handler W) (schedule : list nat) (pool : list (prog unit))
    (w : W) : list (prog unit) * W * list entry :=
  match schedule with
  | [] => (pool, w, [])
  | i :: rest =>
      match pool !! i with
      | None => run_pool h rest pool w
      | Some p =>
          let '(p', w1, tr1) := advance h p w in
          let '(pool', w2, tr2) := run_pool h rest (<[i := p']> pool) w1 in
          (pool', w2, tr1 ++ tr2)
      end
  end.

(** [make:application] to the end: [scaffoldPackage], then the promises it
    has started, under a schedule.  It gives the pool as it stands at the
    end of the schedule, where the code gives [Promise.all] of it. *)
Definition make_application {W} (h : handler W) (cwd __dirname : string)
    (schedule : list nat) (root : string) (w : W)
  : (failure + option (list (prog unit))) * W * list entry :=
  let '(o, w1, tr1) := run h (scaffoldPackage cwd __dirname "application" root) w in
  match o with
  | inr (Some pool) =>
      let '(pool', w2, tr2) := run_pool h schedule pool w1 in
      (inr (Some pool'), w2, tr1 ++ tr2)
  | _ => (o, w1, tr1)
  end.

(** *** Reading a trace *)

(** The event reads or changes the file system. *)
Definition fs_access (e : entry) : bool :=
  match e with
  | Did ev _ =>
      match ev with
      | Exists _ | EnsureDir _ | ReadFile _ _ | WriteFile _ _ => true
      | _ => false
      end
  end.

(** The event changes the file system. *)
Definition mutates (e : entry) : bool :=
  match e with
  | Did ev _ =>
      match ev with
      | EnsureDir _ | WriteFile _ _ => true
      | _ => false
      end
  end.

(** The path and the contents of a call of [writeFile]. *)
Definition write_of (e : entry) : option (string * string) :=
  match e with
  | Did ev _ =>
      match ev with
      | WriteFile path contents => Some (path, contents)
      | _ => None
      end
  end.

(** The path of a call of [exists], when it answered [true]. *)
Definition found_of (e : entry) : option string :=
  match e with
  | Did ev r =>
      match ev in event X return failure + X -> option string with
      | Exists path => fun r => match r with inr true => Some path | _ => None end
      | _ => fun _ => None
      end r
  end.

(** The answers of a prompt of [ask]. *)
Definition answers_of (e : entry) : option basic_answers :=
  match e with
  | Did ev r =>
      match ev in event X return failure + X -> option basic_answers with
      | PromptBasic _ => fun r => match r with inr a => Some a | inl _ => None end
      | _ => fun _ => None
      end r
  end.

(** The answers of the prompt of [scaffoldPackage]. *)
Definition package_answers_of (e : entry) : option package_answers :=
  match e with
  | Did ev r =>
      match ev in event X return failure + X -> option package_answers with
      | PromptPackage _ => fun r => match r with inr a => Some a | inl _ => None end
      | _ => fun _ => None
      end r
  end.

(** The failure of an event. *)
Definition failure_of (e : entry) : option failure :=
  match e with
  | Did _ (inl f) => Some f
  | Did _ (inr _) => None
  end.

(** *** A file system in memory, with the answers of the user *)

Record world := {
  fs_files : list (string * string);
  fs_dirs : list string;
  basic_input : basic_answers;
  package_input : package_answers;
  installed : list package;
  printed : list (list string) }.

Definition lookup_file (files : list (string * string)) (path : string) : option string :=
  snd <$> find (fun f => String.eqb (fst f) path) files.

Definition sample_handler : handler world :=
  fun X ev =>
    match ev in event X return world -> (failure + X) * world with
    | LoggerAwait args | LoggerWarn args | LoggerSuccess args | ConsoleLog args =>
        fun w => (inr tt,
                  {| fs_files := fs_files w; fs_dirs := fs_dirs w;
                     basic_input := basic_input w; package_input := package_input w;
                     installed := installed w; printed := args :: printed w |})
    | NpmPackages _ => fun w => (inr (installed w), w)
    | PromptBasic _ => fun w => (inr (basic_input w), w)
    | PromptPackage _ => fun w => (inr (package_input w), w)
    | Exists path =>
        fun w => (inr (match lookup_file (fs_files w) path with
                       | Some _ => true
                       | None => existsb (String.eqb path) (fs_dirs w)
                       end), w)
    | EnsureDir path =>
        fun w => (inr tt,
                  {| fs_files := fs_files w; fs_dirs := path :: fs_dirs w;
                     basic_input := basic_input w; package_input := package_input w;
                     installed := installed w; printed := printed w |})
    | ReadFile path _ =>
        fun w => (match lookup_file (fs_files w) path with
                  | Some contents => inr contents
                  | None => inl (Error "ENOENT")
                  end, w)
    | WriteFile path contents =>
        fun w => (inr tt,
                  {| fs_files := (path, contents) :: fs_files w; fs_dirs := fs_dirs w;
                     basic_input := basic_input w; package_input := package_input w;
                     installed := installed w; printed := printed w |})
    end.

(** A project at [/proj], the tool at [/cli], and a user who asks for a
    client-side authentication adapter and for a package [MyApp]. *)
Definition sample_world : world :=
  {| fs_files :=
       [ ("/cli/src/templates/auth/client.js", "export default class {}");
         ("/cli/src/templates/application/index.js", "register('___NAME___');");
         ("/cli/src/templates/application/package.json", "{name: '___NAME___'}") ];
     fs_dirs := ["/proj"];
     basic_input :=
       {| type := "client"; filename := "my-auth.js";
          target := "src/client/auth/my-auth.js"; confirm := true |};
     package_input :=
       {| name := "MyApp"; package_target := "src/packages/MyApp";
          package_confirm := true |};
     installed := [ {| meta_name := "Calculator" |} ];
     printed := [] |}.

(** The tasks run on it, from the working directory [/home/u].  The
    schedule takes the promises of [index.js] and [package.json] to their
    end, and lets that of [server.js] fail, its template being absent. *)
Definition sample_basic_run : (failure + unit) * world * list entry :=
  run sample_handler (scaffoldBasic "/home/u" "/cli/src/tasks" "auth" "/proj") sample_world.

Definition sample_package_run
  : (failure + option (list (prog unit))) * world * list entry :=
  make_application sample_handler "/home/u" "/cli/src/tasks"
    [0; 4; 0; 1; 4; 0; 4] "/proj" sample_world.

Definition sample_promises_run : list (prog unit) * world * list entry :=
  run_pool sample_handler [0; 4; 0; 1; 4; 0; 4]
    (promises "/home/u" "/cli/src/tasks" "MyApp" "/proj/src/packages/MyApp") sample_world.

Definition sample_scaffold_run
  : (failure + option (list (prog unit))) * world * list entry :=
  run sample_handler (scaffoldPackage "/home/u" "/cli/src/tasks" "application" "/proj")
    sample_world.

End Scaffold.

(** ** Notions used in the statements *)

(** [s] ends with one of the words. *)
Definition ends_with_any (ws : list string) (s : string) : bool :=
  existsb (fun w => is_suffix w s) ws.

(** The keys of an object are distinct. *)
Fixpoint unique_keys {A} (ps : list (string * A)) : bool :=
  match ps with
  | [] => true
  | (k, _) :: rest =>
      match lookup_prop k rest with
      | Some _ => false
      | None => unique_keys rest
      end
  end.

(** The value that [mergeObject] stores for a key of the source, and its loop
    over the keys as a function of its own; see [deepmerge_object]. *)
Definition merge_value (target : val) (key : string) (sv : val) : val :=
  if negb (isMergeableObject sv) || negb (truthy (get target key))
  then clone sv
  else deepmerge (get target key) sv.

(** The copies of the properties of an object. *)
Definition clone_props (ps : props) : props :=
  map (fun p => (fst p, clone (snd p))) ps.

(** A value of data only: it holds no object of a class and no result of an
    external call, at any depth. *)
Fixpoint plain (v : val) : bool :=
  match v with
  | VArr es => forallb plain es
  | VObj ps => forallb (fun p => plain (snd p)) ps
  | VInst _ _ | VExt _ _ => false
  | _ => true
  end.

Fixpoint merge_loop (target : val) (destination sps : props) : props :=
  match sps with
  | [] => destination
  | (key, sv) :: rest =>
      merge_loop target (set_prop key (merge_value target key sv) destination) rest
  end.

Definition field_is (p : val -> bool) (k : string) (O : props) : bool :=
  match lookup_prop k O with
  | Some v => p v
  | None => true
  end.

Definition is_object (v : val) : bool :=
  match v with VObj _ => true | _ => false end.

(** An object with keys of its own: a plain object or an instance. *)
Definition keyed (v : val) : bool :=
  match v with VObj _ | VInst _ _ => true | _ => false end.

(** The overrides are an object with distinct keys whose [html] is an object
    and whose [plugins], [rules] and [includePaths] are arrays, where they
    are present. *)
Definition well_typed (O : props) : bool :=
  unique_keys O
  && field_is is_object "html" O
  && field_is is_array "plugins" O
  && field_is is_array "rules" O
  && field_is is_array "includePaths" O.

(** The elements of an array-valued field of the overrides. *)
Definition elements (k : string) (O : props) : list val :=
  elems_of (default (VArr []) (lookup_prop k O)).

(** An environment for examples: [/proj] is a link to [/real/proj], and no
    other directory exists. *)
Definition sample_env : Env := {|
  realpathSync := fun d => if String.eqb d "/proj" then inr "/real/proj" else inl ENOENT;
  cwd := "/home/user";
  NODE_ENV := None;
  cliRoot := "/opt/osjs-cli";
  require_resolve := fun name => "/opt/osjs-cli/node_modules/" +:+ name
|}.

(** The characters that [filterInput] keeps. *)
Definition kept (c : ascii) : bool :=
  negb (RegExp.in_class true
          [("A"%char, "z"%char); ("0"%char, "9"%char); ("_"%char, "_"%char)] c).

(** Induction on values, through the lists of their parts. *)
Fixpoint val_ind' (P : val -> Prop)
  (Hundef : P VUndef) (Hnull : P VNull) (Hbool : forall b, P (VBool b))
  (Hnum : forall n, P (VNum n)) (Hstr : forall s, P (VStr s))
  (Hre : forall r, P (VRegExp r))
  (Hext : forall c args, Forall P args -> P (VExt c args))
  (Hinst : forall c ps, Forall (fun p => P (snd p)) ps -> P (VInst c ps))
  (Harr : forall es, Forall P es -> P (VArr es))
  (Hobj : forall ps, Forall (fun p => P (snd p)) ps -> P (VObj ps))
  (v : val) {struct v} : P v :=
  let rec := val_ind' P Hundef Hnull Hbool Hnum Hstr Hre Hext Hinst Harr Hobj in
  match v with
  | VUndef => Hundef
  | VNull => Hnull
  | VBool b => Hbool b
  | VNum n => Hnum n
  | VStr s => Hstr s
  | VRegExp r => Hre r
  | VExt c args =>
      Hext c args
        ((fix go (l : list val) : Forall P l :=
            match l with
            | [] => List.Forall_nil P
            | x :: l' => @List.Forall_cons _ P x l' (rec x) (go l')
            end) args)
  | VInst c ps =>
      Hinst c ps
        ((fix go (l : props) : Forall (fun p => P (snd p)) l :=
            match l with
            | [] => List.Forall_nil _
            | x :: l' => @List.Forall_cons _ (fun p => P (snd p)) x l' (rec (snd x)) (go l')
            end) ps)
  | VArr es =>
      Harr es
        ((fix go (l : list val) : Forall P l :=
            match l with
            | [] => List.Forall_nil P
            | x :: l' => @List.Forall_cons _ P x l' (rec x) (go l')
            end) es)
  | VObj ps =>
      Hobj ps
        ((fix go (l : props) : Forall (fun p => P (snd p)) l :=
            match l with
            | [] => List.Forall_nil _
            | x :: l' => @List.Forall_cons _ (fun p => P (snd p)) x l' (rec (snd x)) (go l')
            end) ps)
  end.

(** No word of one list ends a word of the other. *)
Definition all_apart (l1 l2 : list string) : bool :=
  forallb (fun w1 => forallb (fun w2 => negb (is_suffix w1 w2) && negb (is_suffix w2 w1)) l2) l1.

(** What [...v] accepts. *)
Definition iterable (v : val) : bool :=
  match v with
  | VArr _ | VStr _ => true
  | _ => false
  end.

Definition no_slash (s : string) : bool :=
  forallb (fun c => negb (Posix.is_slash c)) (chars s).

(** A segment of a resolved path. *)
Definition good_segment (seg : string) : bool :=
  negb (String.eqb seg "") && negb (String.eqb seg ".") && negb (String.eqb seg "..")
  && no_slash seg.

(** The string holds no dollar sign. *)
Definition plain_text (s : string) : bool :=
  forallb (fun c => negb (Ascii.eqb c "$")) (chars s).

(** ** The same function over a heap

    Objects and arrays are cells of a heap and are passed by reference, so
    that a write is visible through every alias.  A location is an index in
    the list of cells; allocation appends. *)

Module Store.

Abbreviation loc := nat.

(** A value is immediate (a primitive, a regular expression, a descriptor
    of an external call) or a reference to a cell.  Arrays, plain objects
    and instances are cells. *)
Inductive hval : Type :=
| Imm (v : val)
| Ref (l : loc).

Inductive cell : Type :=
| Obj (ps : list (string * hval))
| Arr (es : list hval)
| Inst (cls : string) (ps : list (string * hval)).

(** The values that are held in cells. *)
Definition boxed (v : val) : bool :=
  match v with
  | VArr _ | VObj _ | VInst _ _ => true
  | _ => false
  end.

Abbreviation heap := (list cell).

(** Computations read and write the heap and may throw; what was written
    before a throw stays written. *)
Definition M (A : Type) : Type := heap -> result A * heap.

#[global] Instance M_ret : MRet M := fun A a h => (Ok a, h).
#[global] Instance M_bind : MBind M := fun A B f m h =>
  match m h with
  | (Ok a, h') => f a h'
  | (Throw e, h') => (Throw e, h')
  end.

Definition lift {A} (r : result A) : M A := fun h => (r, h).

(** The structure below a value, as a tree.  [n] bounds the number of
    references that are followed; an immediate value is never what a cell
    holds. *)
Fixpoint reify (n : nat) (h : heap) (x : hval) : option val :=
  match x with
  | Imm v => if boxed v then None else Some v
  | Ref l =>
      match n with
      | O => None
      | S n' =>
          match h !! l with
          | Some (Arr es) => VArr <$> mapM (reify n' h) es
          | Some (Obj ps) =>
              VObj <$> mapM (fun p => pair (fst p) <$> reify n' h (snd p)) ps
          | Some (Inst c ps) =>
              VInst c <$> mapM (fun p => pair (fst p) <$> reify n' h (snd p)) ps
          | None => None
          end
      end
  end.

(** A new structure for a tree: one new cell for each array, object and
    instance, the cells of the parts before the cell of the whole. *)
Fixpoint alloc (v : val) (h : heap) : hval * heap :=
  match v with
  | VArr es =>
      let '(xs, h') :=
        (fix go (es : list val) (h : heap) : list hval * heap :=
           match es with
           | [] => ([], h)
           | e :: rest =>
               let '(x, h1) := alloc e h in
               let '(xs, h2) := go rest h1 in
               (x :: xs, h2)
           end) es h in
      (Ref (length h'), h' ++ [Arr xs])
  | VObj ps =>
      let '(xs, h') :=
        (fix go (ps : props) (h : heap) : list (string * hval) * heap :=
           match ps with
           | [] => ([], h)
           | (k, e) :: rest =>
               let '(x, h1) := alloc e h in
               let '(xs, h2) := go rest h1 in
               ((k, x) :: xs, h2)
           end) ps h in
      (Ref (length h'), h' ++ [Obj xs])
  | VInst c ps =>
      let '(xs, h') :=
        (fix go (ps : props) (h : heap) : list (string * hval) * heap :=
           match ps with
           | [] => ([], h)
           | (k, e) :: rest =>
               let '(x, h1) := alloc e h in
               let '(xs, h2) := go rest h1 in
               ((k, x) :: xs, h2)
           end) ps h in
      (Ref (length h'), h' ++ [Inst c xs])
  | _ => (Imm v, h)
  end.

(** Reading a whole structure.  A structure that does not end is what makes
    a recursive traversal exhaust the stack. *)
Definition read (x : hval) : M val := fun h =>
  match reify (length h) h x with
  | Some v => (Ok v, h)
  | None => (Throw RangeError, h)
  end.

Definition new_value (v : val) : M hval := fun h =>
  let '(x, h') := alloc v h in (Ok x, h').

Definition truthy (x : hval) : bool :=
  match x with
  | Ref _ => true
  | Imm v => truthy v
  end.

(** [o.k] *)
Definition get_field (o : hval) (k : string) : M hval := fun h =>
  match o with
  | Imm VUndef | Imm VNull => (Throw TypeError, h)
  | Imm _ => (Ok (Imm VUndef), h)
  | Ref l =>
      match h !! l with
      | Some (Obj ps) | Some (Inst _ ps) =>
          (Ok (default (Imm VUndef) (lookup_prop k ps)), h)
      | _ => (Ok (Imm VUndef), h)
      end
  end.

(** [o.k = x]; the named properties of arrays are not represented. *)
Definition set_field (o : hval) (k : string) (x : hval) : M unit := fun h =>
  match o with
  | Imm VUndef | Imm VNull => (Throw TypeError, h)
  | Imm _ => (Ok tt, h)
  | Ref l =>
      match h !! l with
      | Some (Obj ps) => (Ok tt, <[l := Obj (set_prop k x ps)]> h)
      | Some (Inst c ps) => (Ok tt, <[l := Inst c (set_prop k x ps)]> h)
      | _ => (Ok tt, h)
      end
  end.

(** [a.push(x)] *)
Definition push (a : hval) (x : hval) : M unit := fun h =>
  match a with
  | Imm _ => (Throw TypeError, h)
  | Ref l =>
      match h !! l with
      | Some (Arr es) => (Ok tt, <[l := Arr (es ++ [x])]> h)
      | _ => (Throw TypeError, h)
      end
  end.

(** [deepmerge(target, source)] reads its arguments and builds its result
    out of new cells only. *)
Definition deepmerge (target : val) (source : hval) : M hval :=
  source ← read source;
  new_value (deepmerge target source).

(** [if (!options.sourceMap) { options.devtool = false; }] *)
Definition force_devtool (options : hval) : M unit :=
  sourceMap ← get_field options "sourceMap";
  if negb (truthy sourceMap)
  then set_field options "devtool" (Imm (VBool false))
  else mret tt.

(** [if (options.html.template) { options.plugins.push(new HtmlWebpackPlugin(...)); }] *)
Definition push_html (options : hval) : M unit :=
  html ← get_field options "html";
  template ← get_field html "template";
  if truthy template then
    plugins ← get_field options "plugins";
    t ← read template;
    push plugins (Imm (html_plugin t))
  else mret tt.

Section Webpack.

Variable env : Env.

Definition createWebpack (dir : string) (options : option loc) : M val :=
  realDir ← lift (fs_realpathSync env dir);
  options ← match options with
            | Some l => mret (Ref l)
            | None => new_value (VObj [])
            end;
  options ← deepmerge (defaults env dir realDir) options;
  _ ← force_devtool options;
  _ ← push_html options;
  options ← read options;
  lift (assemble env dir options).

End Webpack.

(** *** What a call may touch *)

(** A value made after the heap had [n] cells: it is immediate or it
    refers to a later cell. *)
Definition fresh (n : nat) (x : hval) : Prop :=
  match x with
  | Imm _ => True
  | Ref l => n <= l
  end.

Definition cell_fresh (n : nat) (c : cell) : Prop :=
  match c with
  | Obj ps | Inst _ ps => Forall (fun p => fresh n (snd p)) ps
  | Arr es => Forall (fresh n) es
  end.

(** [h'] is [h] followed by cells that refer to cells after [h] only. *)
Definition extends (h h' : heap) : Prop :=
  exists new, h' = h ++ new /\ Forall (cell_fresh (length h)) new.

(** A computation keeps to the cells after [h0] and establishes [Q] of
    its result. *)
Definition keeps (h0 : heap) {A} (m : M A) (Q : A -> Prop) : Prop :=
  forall h r h',
    extends h0 h -> m h = (r, h') ->
    extends h0 h' /\ forall a, r = Ok a -> Q a.

End Store.

(** A heap for examples: overrides at location 2 with a [plugins] array at
    location 0 and an [html] object at location 1; the plugin, an instance
    made by [new DefinePlugin()], is at location 3. *)
Definition sample_heap : list Store.cell :=
  [Store.Arr [Store.Ref 3];
   Store.Obj [("template", Store.Imm (VStr "t.html"))];
   Store.Obj [("plugins", Store.Ref 0); ("html", Store.Ref 1)];
   Store.Inst "DefinePlugin" [("definitions", Store.Imm VUndef)]].

(** ** The layout of a new structure

    What [Store.alloc] appends for a tree, as functions of the tree and of
    the address of the first new cell: the number of cells, the value that
    stands for the tree, and the cells. *)

Fixpoint size (v : val) : nat :=
  match v with
  | VArr es => S ((fix sizes (l : list val) : nat :=
                     match l with [] => 0 | e :: r => size e + sizes r end) es)
  | VObj ps | VInst _ ps =>
      S ((fix sizes (l : props) : nat :=
            match l with [] => 0 | p :: r => size (snd p) + sizes r end) ps)
  | _ => 0
  end.

Fixpoint sizes (l : list val) : nat :=
  match l with [] => 0 | e :: r => size e + sizes r end.

Fixpoint sizes_props (l : props) : nat :=
  match l with [] => 0 | p :: r => size (snd p) + sizes_props r end.

Definition root (base : nat) (v : val) : Store.hval :=
  match v with
  | VArr _ | VObj _ | VInst _ _ => Store.Ref (base + pred (size v))
  | _ => Store.Imm v
  end.

Fixpoint roots (base : nat) (es : list val) : list Store.hval :=
  match es with
  | [] => []
  | e :: r => root base e :: roots (base + size e) r
  end.

Fixpoint roots_props (base : nat) (ps : props) : list (string * Store.hval) :=
  match ps with
  | [] => []
  | p :: r => (fst p, root base (snd p)) :: roots_props (base + size (snd p)) r
  end.

Fixpoint cells (base : nat) (v : val) : list Store.cell :=
  match v with
  | VArr es =>
      (fix go (base : nat) (l : list val) : list Store.cell :=
         match l with [] => [] | e :: r => cells base e ++ go (base + size e) r end) base es
      ++ [Store.Arr (roots base es)]
  | VObj ps =>
      (fix go (base : nat) (l : props) : list Store.cell :=
         match l with [] => [] | p :: r => cells base (snd p) ++ go (base + size (snd p)) r end)
        base ps
      ++ [Store.Obj (roots_props base ps)]
  | VInst c ps =>
      (fix go (base : nat) (l : props) : list Store.cell :=
         match l with [] => [] | p :: r => cells base (snd p) ++ go (base + size (snd p)) r end)
        base ps
      ++ [Store.Inst c (roots_props base ps)]
  | _ => []
  end.

Fixpoint cells_list (base : nat) (l : list val) : list Store.cell :=
  match l with [] => [] | e :: r => cells base e ++ cells_list (base + size e) r end.

Fixpoint cells_props (base : nat) (l : props) : list Store.cell :=
  match l with [] => [] | p :: r => cells base (snd p) ++ cells_props (base + size (snd p)) r end.

(** The address of the value of the first property [k]. *)
Fixpoint addr_of (k : string) (base : nat) (ps : props) : nat :=
  match ps with
  | [] => base
  | p :: r => if String.eqb k (fst p) then base else addr_of k (base + size (snd p)) r
  end.

(** The cells [cs] are in [H] from address [base] on. *)
Definition stored (H : list Store.cell) (base : nat) (cs : list Store.cell) : Prop :=
  forall i c, cs !! i = Some c -> H !! (base + i) = Some c.

(** The value [y] is the root of a layout of [t] that is in the Store.heap. *)
Definition laid (H : Store.heap) (y : Store.hval) (t : val) : Prop :=
  exists a, y = root a t /\ stored H a (cells a t).

(** The merged options in the heap: the cell of the object, whose [devtool]
    may have been overwritten ([w]), above the cells of its properties. *)
Definition top_props (w : bool) (b : nat) (mps : props) : list (string * Store.hval) :=
  if w then set_prop "devtool" (Store.Imm (VBool false)) (roots_props b mps)
  else roots_props b mps.

Definition top_value (w : bool) (mps : props) : props :=
  if w then set_prop "devtool" (VBool false) mps else mps.

Definition top (H : Store.heap) (w : bool) (b : nat) (mps : props) : Prop :=
  H !! (b + sizes_props mps) = Some (Store.Obj (top_props w b mps))
  /\ stored H b (cells_props b mps).

(** ** Facts: paths *)

Example resolve_absolute : Path.resolve "/home/u" ["/proj"; "dist"] = "/proj/dist".
Proof. reflexivity. Qed.
Example resolve_relative :
  Path.resolve "/home/u" ["./app/../pkg/"; "dist"] = "/home/u/pkg/dist".
Proof. reflexivity. Qed.
Example resolve_above_root :
  Path.resolve "/home/u" ["/a/../../b"; "node_modules"] = "/b/node_modules".
Proof. reflexivity. Qed.
Example resolve_empty_argument : Path.resolve "/home/u" [""; "dist"] = "/home/u/dist".
Proof. reflexivity. Qed.

(** ** Facts: strings *)

Lemma append_cons (a : ascii) (w r : string) : String a w +:+ r = String a (w +:+ r).
Proof. reflexivity. Qed.

Lemma append_nil_l (r : string) : "" +:+ r = r.
Proof. reflexivity. Qed.

Ltac sapp := rewrite ?append_cons, ?append_nil_l in *.

Lemma strip_prefix_app (w s : string) : strip_prefix w (w +:+ s) = Some s.
Proof.
  induction w as [|a w IH]; sapp; simpl; [reflexivity|].
  rewrite Ascii.eqb_refl. exact IH.
Qed.

Lemma strip_prefix_Some (w s rest : string) :
  strip_prefix w s = Some rest -> s = w +:+ rest.
Proof.
  revert s. induction w as [|a w IH]; intros s; simpl.
  - intros [= ->]. reflexivity.
  - destruct s as [|b s]; [discriminate|].
    destruct (Ascii.eqb a b) eqn:E; [|discriminate].
    apply Ascii.eqb_eq in E. subst b. intros H. sapp. f_equal. auto.
Qed.

Lemma strip_prefix_append (w1 w2 s : string) :
  strip_prefix (w1 +:+ w2) s = strip_prefix w1 s ≫= strip_prefix w2.
Proof.
  revert s. induction w1 as [|a w1 IH]; intros s; sapp; simpl; [reflexivity|].
  destruct s as [|b s]; [reflexivity|].
  destruct (Ascii.eqb a b); [apply IH | reflexivity].
Qed.

Lemma append_nil_r (a : string) : a +:+ "" = a.
Proof. induction a; sapp; congruence. Qed.

Lemma append_assoc (a b c : string) : (a +:+ b) +:+ c = a +:+ (b +:+ c).
Proof. induction a; sapp; congruence. Qed.

Lemma strip_prefix_all (w s : string) :
  strip_prefix w s = Some EmptyString <-> s = w.
Proof.
  split.
  - intros H. apply strip_prefix_Some in H. subst s. apply append_nil_r.
  - intros ->. rewrite <- (append_nil_r w) at 2. apply strip_prefix_app.
Qed.

Lemma is_prefix_spec (w s : string) :
  is_prefix w s = true <-> exists rest, s = w +:+ rest.
Proof.
  unfold is_prefix. split.
  - destruct (strip_prefix w s) eqn:E; [|discriminate].
    intros _. eauto using strip_prefix_Some.
  - intros [rest ->]. rewrite strip_prefix_app. reflexivity.
Qed.

Lemma is_infix_spec (w s : string) :
  is_infix w s = true <-> exists a b, s = a +:+ w +:+ b.
Proof.
  induction s as [|c s IH]; cbn [is_infix].
  - rewrite orb_false_r, is_prefix_spec. split.
    + intros [rest H]. exists "", rest. exact H.
    + intros [a [b H]]. destruct a; sapp; [eauto | discriminate].
  - rewrite orb_true_iff, IH, is_prefix_spec. split.
    + intros [[rest H] | [a [b H]]].
      * exists "", rest. exact H.
      * exists (String c a), b. sapp. congruence.
    + intros [a [b H]]. destruct a as [|c' a]; sapp.
      * left. eauto.
      * right. injection H as _ H. eauto.
Qed.

Lemma is_suffix_spec (w s : string) :
  is_suffix w s = true <-> exists pre, s = pre +:+ w.
Proof.
  induction s as [|c s IH]; cbn [is_suffix].
  - rewrite orb_false_r, String.eqb_eq. split.
    + intros <-. exists "". reflexivity.
    + intros [pre H]. destruct pre; sapp; [congruence | discriminate].
  - rewrite orb_true_iff, IH, String.eqb_eq. split.
    + intros [<- | [pre ->]]; [exists ""; reflexivity | exists (String c pre); reflexivity].
    + intros [pre H]. destruct pre as [|c' pre]; sapp.
      * left. congruence.
      * right. injection H as _ H. eauto.
Qed.

(** ** Facts: regular expressions *)

Lemma existsb_orb {A} (f g : A -> bool) (l : list A) :
  existsb (fun x => f x || g x) l = existsb f l || existsb g l.
Proof.
  induction l as [|x l IH]; simpl; [reflexivity|].
  rewrite IH. destruct (f x), (g x), (existsb f l); reflexivity.
Qed.

Lemma existsb_ext' {A} (f g : A -> bool) (l : list A) :
  (forall x, f x = g x) -> existsb f l = existsb g l.
Proof. intros H. induction l as [|x l IH]; simpl; [reflexivity|]. rewrite H, IH. reflexivity. Qed.

Section RegExpFacts.
Import RegExp.

Lemma remainders_app (ws1 ws2 : list string) (s : string) :
  remainders (ws1 ++ ws2) s = remainders ws1 s ++ remainders ws2 s.
Proof.
  induction ws1 as [|w ws1 IH]; simpl; [reflexivity|].
  destruct (strip_prefix w s); simpl; congruence.
Qed.

Lemma remainders_append (w s : string) (l : list string) :
  remainders (map (String.append w) l) s =
  match strip_prefix w s with
  | Some rest => remainders l rest
  | None => []
  end.
Proof.
  induction l as [|w2 l IH]; simpl.
  - destruct (strip_prefix w s); reflexivity.
  - rewrite strip_prefix_append, IH.
    destruct (strip_prefix w s); simpl; reflexivity.
Qed.

Lemma run_plain (r : RegExp.t) :
  plain r = true ->
  forall st s, map snd (run r st s) = remainders (words r) s.
Proof.
  induction r as [l|neg rs|r1 IH1 r2 IH2|r1 IH1 r2 IH2|r1 IH1| |]; simpl; try discriminate.
  - intros _ st s. destruct (strip_prefix l s); reflexivity.
  - intros [P1 P2]%andb_true_iff st s.
    specialize (IH1 P1 st s). specialize (IH2 P2).
    revert IH1. generalize (run r1 st s) (words r1). intros rs ws. revert rs.
    induction ws as [|w ws IHws]; intros rs Hws.
    + destruct rs; [reflexivity | discriminate].
    + cbn [flat_map]. rewrite remainders_app, remainders_append.
      cbn [remainders] in Hws.
      destruct (strip_prefix w s) as [rest|] eqn:E.
      * destruct rs as [|[st' rest'] rs]; [discriminate|].
        cbn [map snd] in Hws. injection Hws as -> Hws.
        cbn [flat_map fst snd]. rewrite map_app, IH2, (IHws rs Hws). reflexivity.
      * rewrite (IHws rs Hws). reflexivity.
  - intros [P1 P2]%andb_true_iff st s.
    rewrite map_app, remainders_app, IH1, IH2 by assumption. reflexivity.
  - intros P st s. rewrite map_app, remainders_app, IH1 by assumption. reflexivity.
Qed.

Lemma matches_at_plain (r : RegExp.t) (st : bool) (s : string) :
  plain r = true ->
  matches_at r st s = existsb (fun w => is_prefix w s) (words r).
Proof.
  intros P. unfold matches_at. pose proof (run_plain r P st s) as H.
  revert H. generalize (run r st s). unfold is_prefix.
  induction (words r) as [|w ws IH]; intros rs H; simpl in *.
  - destruct rs; [reflexivity | discriminate].
  - destruct (strip_prefix w s); simpl in *.
    + destruct rs; [discriminate | reflexivity].
    + auto.
Qed.

Lemma strip_prefix_self (s : string) : strip_prefix s s = Some EmptyString.
Proof. apply strip_prefix_all. reflexivity. Qed.

Lemma matches_at_plain_eol (r : RegExp.t) (st : bool) (s : string) :
  plain r = true ->
  matches_at (Seq r Eol) st s = existsb (String.eqb s) (words r).
Proof.
  intros P. unfold matches_at. cbn [run]. pose proof (run_plain r P st s) as H.
  revert H. generalize (run r st s).
  induction (words r) as [|w ws IH]; intros rs H; cbn [remainders existsb] in *.
  - destruct rs; [reflexivity | discriminate].
  - destruct (String.eqb s w) eqn:E2.
    + apply String.eqb_eq in E2. subst w. rewrite strip_prefix_self in H.
      destruct rs as [|[st' rest'] rs]; [discriminate|].
      cbn [map snd] in H. injection H as -> H. reflexivity.
    + cbn [orb]. destruct (strip_prefix w s) as [rest|] eqn:E.
      * destruct rs as [|[st' rest'] rs]; [discriminate|].
        cbn [map snd] in H. injection H as -> H.
        cbn [flat_map fst snd run].
        destruct rest.
        -- apply strip_prefix_all in E. subst. rewrite String.eqb_refl in E2. discriminate.
        -- cbn [app]. apply IH. exact H.
      * apply IH. exact H.
Qed.

(** An expression of literals is found in the strings that contain one of
    its words. *)
Lemma test_plain (r : RegExp.t) (s : string) :
  plain r = true ->
  test r s = existsb (fun w => is_infix w s) (words r).
Proof.
  intros P. unfold test. generalize true.
  induction s as [|c s IH]; intros st; simpl.
  - rewrite matches_at_plain by exact P. rewrite orb_false_r.
    apply existsb_ext'. intros w. rewrite orb_false_r. reflexivity.
  - rewrite matches_at_plain, IH by exact P. rewrite <- existsb_orb. reflexivity.
Qed.

(** Followed by [$], it is found in the strings that end with one of its words. *)
Lemma test_plain_eol (r : RegExp.t) (s : string) :
  plain r = true ->
  test (Seq r Eol) s = existsb (fun w => is_suffix w s) (words r).
Proof.
  intros P. unfold test. generalize true.
  induction s as [|c s IH]; intros st.
  - cbn [search]. rewrite matches_at_plain_eol by exact P. rewrite orb_false_r.
    apply existsb_ext'. intros w. simpl. rewrite orb_false_r. reflexivity.
  - cbn [search]. rewrite matches_at_plain_eol, IH by exact P.
    rewrite <- existsb_orb. reflexivity.
Qed.

End RegExpFacts.

Lemma test_re_image s :
  RegExp.test re_image s = ends_with_any [".png"; ".jpeg"; ".jpg"; ".gif"; ".webp"] s.
Proof. unfold re_image. rewrite test_plain_eol by reflexivity. reflexivity. Qed.

Lemma test_re_style s : RegExp.test re_style s = ends_with_any [".scss"; ".css"] s.
Proof. unfold re_style. rewrite test_plain_eol by reflexivity. reflexivity. Qed.

Lemma test_re_script s : RegExp.test re_script s = is_suffix ".js" s.
Proof.
  unfold re_script. rewrite test_plain_eol by reflexivity. simpl. apply orb_false_r.
Qed.

Lemma test_re_font s :
  RegExp.test re_font s = ends_with_any [".eot"; ".svg"; ".ttf"; ".woff"; ".woff2"] s.
Proof. unfold re_font. rewrite test_plain_eol by reflexivity. reflexivity. Qed.

Lemma test_re_svg s : RegExp.test re_svg s = is_suffix ".svg" s.
Proof.
  unfold re_svg. rewrite test_plain_eol by reflexivity. simpl. apply orb_false_r.
Qed.

Lemma test_re_typeface s : RegExp.test re_typeface s = is_infix "typeface" s.
Proof.
  unfold re_typeface. rewrite test_plain by reflexivity. simpl. apply orb_false_r.
Qed.

Lemma test_re_exclude s :
  RegExp.test re_exclude s = is_infix "node_modules" s || is_infix "bower_components" s.
Proof.
  unfold re_exclude. rewrite test_plain by reflexivity. simpl. rewrite orb_false_r. reflexivity.
Qed.

(** ** Facts: values and [deepmerge] *)

(** The copy of a value of data is the value; a copy never is an instance. *)
Lemma clone_plain (v : val) : plain v = true -> clone v = v.
Proof.
  induction v as [| | | | | | c args IH | c ps IH | es IH | ps IH] using val_ind';
    simpl; try reflexivity; try discriminate.
  - intros H. f_equal. induction IH as [|x l Hx _ IHl]; simpl in *; [reflexivity|].
    apply andb_true_iff in H as [H1 H2]. rewrite Hx, IHl by assumption. reflexivity.
  - intros H. f_equal. induction IH as [|[k x] l Hx _ IHl]; simpl in *; [reflexivity|].
    apply andb_true_iff in H as [H1 H2]. rewrite Hx, IHl by assumption. reflexivity.
Qed.

Lemma map_clone_plain (es : list val) :
  forallb plain es = true -> map clone es = es.
Proof.
  induction es as [|e es IH]; simpl; [reflexivity|]. intros H.
  apply andb_true_iff in H as [H1 H2]. rewrite clone_plain, IH by assumption. reflexivity.
Qed.

Lemma clone_props_plain (ps : props) :
  forallb (fun p => plain (snd p)) ps = true -> clone_props ps = ps.
Proof.
  unfold clone_props. induction ps as [|[k v] ps IH]; simpl; [reflexivity|]. intros H.
  apply andb_true_iff in H as [H1 H2]. rewrite clone_plain, IH by assumption. reflexivity.
Qed.

Lemma plain_get (ps : props) (k : string) :
  plain (VObj ps) = true -> plain (get (VObj ps) k) = true.
Proof.
  simpl. induction ps as [|[k' v] ps IH]; simpl; [reflexivity|]. intros H.
  apply andb_true_iff in H as [H1 H2]. destruct (String.eqb k k'); [exact H1 | auto].
Qed.

Lemma clone_scalar (v : val) : isMergeableObject v = false -> clone v = v.
Proof. destruct v; try discriminate; reflexivity. Qed.

Lemma merge_value_scalar (target : val) (k : string) (v : val) :
  isMergeableObject v = false -> merge_value target k v = v.
Proof. intros H. unfold merge_value. rewrite H. apply clone_scalar, H. Qed.

Lemma clone_no_instance (v : val) (c : string) (ps : props) : clone v <> VInst c ps.
Proof. destruct v; discriminate. Qed.

Lemma deepmerge_no_instance (target source : val) (c : string) (ps : props) :
  deepmerge target source <> VInst c ps.
Proof.
  destruct source; cbn [deepmerge]; try discriminate;
    destruct (is_array target); try discriminate;
    destruct (is_ext target); discriminate.
Qed.

Lemma lookup_clone_props (k : string) (ps : props) :
  lookup_prop k (clone_props ps) = clone <$> lookup_prop k ps.
Proof.
  unfold clone_props. induction ps as [|[k' v] ps IH]; simpl; [reflexivity|].
  destruct (String.eqb k k'); [reflexivity | exact IH].
Qed.

Lemma get_clone_props (k : string) (ps : props) :
  get (VObj (clone_props ps)) k = clone (get (VObj ps) k).
Proof.
  cbn [get]. rewrite lookup_clone_props. destruct (lookup_prop k ps); reflexivity.
Qed.

Lemma deepmerge_array (target : val) (ss : list val) :
  deepmerge target (VArr ss) =
  if is_array target then VArr (map clone (elems_of target ++ ss)) else VArr (map clone ss).
Proof. reflexivity. Qed.

Lemma merge_loop_eq (target : val) (sps destination : props) :
  (fix loop (destination : props) (sps : props) {struct sps} : props :=
     match sps with
     | [] => destination
     | (key, sv) :: rest =>
         let tv := get target key in
         let v :=
           if negb (isMergeableObject sv) || negb (truthy tv)
           then clone sv
           else deepmerge tv sv in
         loop (set_prop key v destination) rest
     end) destination sps
  = merge_loop target destination sps.
Proof.
  revert destination. induction sps as [|[k sv] rest IH]; intros dest; simpl; [reflexivity|].
  rewrite IH. reflexivity.
Qed.

(** [mergeObject] on a target that is a plain object, for a source that is
    a plain object or an instance. *)
Lemma deepmerge_object (tps sps : props) :
  deepmerge (VObj tps) (VObj sps) = VObj (merge_loop (VObj tps) (clone_props tps) sps).
Proof. cbn [deepmerge is_array is_ext isMergeableObject props_of]. rewrite merge_loop_eq. reflexivity. Qed.

Lemma deepmerge_instance (tps : props) (c : string) (sps : props) :
  deepmerge (VObj tps) (VInst c sps) = deepmerge (VObj tps) (VObj sps).
Proof. reflexivity. Qed.

Lemma lookup_set_prop {A} (k k' : string) (v : A) (ps : list (string * A)) :
  lookup_prop k' (set_prop k v ps) = if String.eqb k' k then Some v else lookup_prop k' ps.
Proof.
  induction ps as [|[k0 v0] ps IH]; simpl.
  - destruct (String.eqb k' k); reflexivity.
  - destruct (String.eqb k k0) eqn:E; simpl.
    + apply String.eqb_eq in E. subst k0. destruct (String.eqb k' k); reflexivity.
    + rewrite IH. destruct (String.eqb k' k0) eqn:E0; [|reflexivity].
      apply String.eqb_eq in E0. subst k0.
      destruct (String.eqb k' k) eqn:E1; [|reflexivity].
      apply String.eqb_eq in E1. subst k'. rewrite String.eqb_refl in E. discriminate.
Qed.

Lemma lookup_merge_loop (target : val) (k : string) (sps destination : props) :
  unique_keys sps = true ->
  lookup_prop k (merge_loop target destination sps) =
  match lookup_prop k sps with
  | Some sv => Some (merge_value target k sv)
  | None => lookup_prop k destination
  end.
Proof.
  revert destination. induction sps as [|[k0 sv] rest IH]; intros dest U; simpl in *.
  - reflexivity.
  - destruct (lookup_prop k0 rest) eqn:E0; [discriminate|].
    rewrite IH by exact U. rewrite lookup_set_prop.
    destruct (String.eqb k k0) eqn:E.
    + apply String.eqb_eq in E. subst k0. rewrite E0. reflexivity.
    + reflexivity.
Qed.

(** Merging two objects, key by key. *)
Lemma get_deepmerge (tps sps : props) (k : string) :
  unique_keys sps = true ->
  get (deepmerge (VObj tps) (VObj sps)) k =
  match lookup_prop k sps with
  | Some sv => merge_value (VObj tps) k sv
  | None => clone (get (VObj tps) k)
  end.
Proof.
  intros U. rewrite deepmerge_object, <- get_clone_props. cbn [get].
  rewrite lookup_merge_loop by exact U.
  destruct (lookup_prop k sps); reflexivity.
Qed.

Lemma lookup_merge_loop_absent (target : val) (k : string) (sps destination : props) :
  lookup_prop k sps = None ->
  lookup_prop k (merge_loop target destination sps) = lookup_prop k destination.
Proof.
  revert destination. induction sps as [|[k0 sv] rest IH]; intros dest Hk; simpl in *.
  - reflexivity.
  - destruct (String.eqb k k0) eqn:E; [discriminate|].
    rewrite IH by exact Hk. rewrite lookup_set_prop, E. reflexivity.
Qed.

(** A key that the source does not have keeps a copy of the value of the
    target. *)
Lemma get_deepmerge_absent (tps sps : props) (k : string) :
  lookup_prop k sps = None ->
  get (deepmerge (VObj tps) (VObj sps)) k = clone (get (VObj tps) k).
Proof.
  intros Hk. rewrite deepmerge_object, <- get_clone_props. cbn [get].
  rewrite lookup_merge_loop_absent by exact Hk. reflexivity.
Qed.

Lemma deepmerge_is_object (tps sps : props) :
  exists ps, deepmerge (VObj tps) (VObj sps) = VObj ps.
Proof. rewrite deepmerge_object. simpl. eauto. Qed.

Lemma set_prop_absent {A} (k : string) (v : A) (ps : list (string * A)) :
  lookup_prop k ps = None -> set_prop k v ps = ps ++ [(k, v)].
Proof.
  induction ps as [|[k' v'] ps IH]; simpl; [reflexivity|].
  destruct (String.eqb k k'); [discriminate|]. intros H. rewrite IH by exact H. reflexivity.
Qed.

Lemma lookup_prop_app_absent {A} (k : string) (ps qs : list (string * A)) :
  lookup_prop k ps = None -> lookup_prop k (ps ++ qs) = lookup_prop k qs.
Proof.
  induction ps as [|[k' v'] ps IH]; simpl; [reflexivity|].
  destruct (String.eqb k k'); [discriminate | exact IH].
Qed.

Lemma merge_loop_ext (t1 t2 : val) (sps destination : props) :
  (forall k, get t1 k = get t2 k) ->
  merge_loop t1 destination sps = merge_loop t2 destination sps.
Proof.
  intros E. revert destination. induction sps as [|[k sv] rest IH]; intros dest;
    cbn [merge_loop]; [reflexivity|].
  unfold merge_value. rewrite (E k). apply IH.
Qed.

(** A target that is an instance counts by its own properties, and a
    target that is no object at all as the empty object. *)
Lemma deepmerge_keyed_target (t v : val) :
  keyed t = true -> keyed v = true ->
  deepmerge t v = deepmerge (VObj (props_of t)) (VObj (props_of v)).
Proof. destruct t; try discriminate; destruct v; try discriminate; reflexivity. Qed.

Lemma deepmerge_scalar_target (t v : val) :
  isMergeableObject t = false -> keyed v = true ->
  deepmerge t v = deepmerge (VObj []) (VObj (props_of v)).
Proof.
  intros Ht Hv.
  assert (G : forall ops, deepmerge t (VObj ops) = deepmerge (VObj []) (VObj ops)).
  { intros ops. rewrite deepmerge_object.
    transitivity (VObj (merge_loop t [] ops)).
    - destruct t; try discriminate; cbn [deepmerge is_array is_ext isMergeableObject];
        rewrite merge_loop_eq; reflexivity.
    - f_equal. apply merge_loop_ext. intros k. destruct t; try discriminate; reflexivity. }
  destruct v; try discriminate; cbn [props_of]; [|apply G].
  transitivity (deepmerge t (VObj props0)); [|apply G].
  destruct t; try discriminate; reflexivity.
Qed.

Lemma merge_into_empty (ps : props) :
  unique_keys ps = true ->
  deepmerge (VObj []) (VObj ps) = VObj (clone_props ps).
Proof.
  intros U. rewrite deepmerge_object. f_equal.
  change (clone_props []) with (@nil (string * val)).
  assert (G : forall dest,
             (forall k, lookup_prop k dest <> None -> lookup_prop k ps = None) ->
             merge_loop (VObj []) dest ps = dest ++ clone_props ps).
  { induction ps as [|[k sv] ps IH]; intros dest D; cbn [merge_loop].
    - symmetry. apply app_nil_r.
    - cbn [unique_keys] in U. destruct (lookup_prop k ps) eqn:Ek; [discriminate|].
      assert (Hd : lookup_prop k dest = None).
      { destruct (lookup_prop k dest) eqn:E; [|reflexivity].
        assert (N : lookup_prop k dest <> None) by congruence.
        specialize (D k N). simpl in D. rewrite String.eqb_refl in D. discriminate. }
      unfold merge_value. cbn [get lookup_prop from_option id truthy negb default].
      rewrite orb_true_r, (set_prop_absent _ _ _ Hd), (IH U).
      + rewrite <- app_assoc. reflexivity.
      + intros k' N. destruct (String.eqb k' k) eqn:E.
        * apply String.eqb_eq in E. subst k'. exact Ek.
        * assert (N' : lookup_prop k' dest <> None).
          { intros Z. apply N. rewrite lookup_prop_app_absent by exact Z.
            simpl. rewrite E. reflexivity. }
          specialize (D k' N'). simpl in D. rewrite E in D. exact D. }
  apply (G []). intros k N. contradiction.
Qed.

(** [clone] is the merge into an empty target, as in the package. *)
Lemma clone_deepmerge (v : val) :
  isMergeableObject v = true ->
  unique_keys (props_of v) = true ->
  deepmerge (emptyTarget v) v = clone v.
Proof.
  intros Hm U. destruct v; try discriminate.
  - reflexivity.
  - cbn [emptyTarget props_of] in *. rewrite deepmerge_instance. apply merge_into_empty, U.
  - reflexivity.
  - apply merge_into_empty, U.
Qed.

(** ** Facts: the steps of [createWebpack] *)

Lemma get_set_ne (o : val) (k k' : string) (v : val) :
  String.eqb k' k = false -> get (set o k v) k' = get o k'.
Proof.
  intros E. destruct o; try reflexivity; simpl; rewrite lookup_set_prop, E; reflexivity.
Qed.

Lemma get_set_eq (ps : props) (k : string) (v : val) :
  get (set (VObj ps) k v) k = v.
Proof. simpl. rewrite lookup_set_prop, String.eqb_refl. reflexivity. Qed.

Lemma force_devtool_get (o : val) (k : string) :
  String.eqb k "devtool" = false -> get (force_devtool o) k = get o k.
Proof.
  intros E. unfold force_devtool.
  destruct (negb (truthy (get o "sourceMap"))); [apply get_set_ne; exact E | reflexivity].
Qed.

Lemma force_devtool_devtool (ps : props) :
  truthy (get (VObj ps) "sourceMap") = false ->
  get (force_devtool (VObj ps)) "devtool" = VBool false.
Proof. intros E. unfold force_devtool. rewrite E. apply get_set_eq. Qed.

Lemma force_devtool_is_object (ps : props) : exists ps', force_devtool (VObj ps) = VObj ps'.
Proof. unfold force_devtool. destruct (negb _); simpl; eauto. Qed.

Lemma push_html_get (o o' : val) (k : string) :
  push_html o = Ok o' -> String.eqb k "plugins" = false -> get o' k = get o k.
Proof.
  unfold push_html. intros H E.
  destruct (getprop (get o "html") "template") as [t|]; [|discriminate]. simpl in H.
  destruct (truthy t).
  - destruct (push (get o "plugins") (html_plugin t)) as [a|]; [|discriminate].
    simpl in H. injection H as <-. apply get_set_ne. exact E.
  - injection H as <-. reflexivity.
Qed.

(** Where the merged options are an object with an array of plugins and an
    [html] that is not null, the push goes through and adds at most the
    HTML plugin, at the end. *)
Lemma push_html_plugins (ps : props) (plugins : list val) (html : val) :
  get (VObj ps) "plugins" = VArr plugins ->
  get (VObj ps) "html" = html ->
  is_object html = true ->
  exists o',
    push_html (VObj ps) = Ok o' /\
    get o' "plugins" =
    VArr (plugins ++ if truthy (get html "template") then [html_plugin (get html "template")] else []).
Proof.
  intros Hp Hh Ho. unfold push_html. rewrite Hh.
  destruct html; try discriminate. cbn [getprop mbind result_bind].
  destruct (truthy (get (VObj props0) "template")).
  - rewrite Hp. cbn [push mbind result_bind]. eexists. split; [reflexivity|].
    apply get_set_eq.
  - eexists. split; [reflexivity|]. rewrite Hp, app_nil_r. reflexivity.
Qed.





Lemma createWebpack_unfold (env : Env) (dir real : string) (o : option props) :
  realpathSync env dir = inr real ->
  createWebpack env dir o =
  (options ← push_html (force_devtool (merged env dir real (VObj (default [] o))));
   assemble env dir options).
Proof.
  intros H. unfold createWebpack, fs_realpathSync. rewrite H. reflexivity.
Qed.

Lemma assemble_inv (env : Env) (dir : string) (options cfg : val) :
  assemble env dir options = Ok cfg ->
  exists plugins rules includePaths,
    spread (get options "plugins") = Ok plugins /\
    spread (get options "rules") = Ok rules /\
    spread (get options "includePaths") = Ok includePaths /\
    get cfg "mode" = get options "mode" /\
    get cfg "devtool" = get options "devtool" /\
    get cfg "context" = get options "context" /\
    get cfg "plugins" = VArr (builtin_plugins options ++ plugins) /\
    get cfg "entry" = get options "entry" /\
    get_path cfg ["output"; "path"] = get options "outputPath" /\
    get_path cfg ["module"; "rules"] = VArr (rules ++ builtin_rules env options includePaths).
Proof.
  unfold assemble. intros H.
  destruct (spread (get options "plugins")) as [plugins|]; [|discriminate].
  destruct (spread (get options "rules")) as [rules|]; [|discriminate].
  destruct (spread (get options "includePaths")) as [ips|]; [|discriminate].
  cbn [mbind result_bind] in H. injection H as <-.
  exists plugins, rules, ips. repeat split; reflexivity.
Qed.

(** The merged options, field by field. *)
Lemma merged_is_object (env : Env) (dir real : string) (O : props) :
  exists ps, merged env dir real (VObj O) = VObj ps.
Proof. apply deepmerge_is_object. Qed.

Lemma defaults_plain (env : Env) (dir real : string) : plain (defaults env dir real) = true.
Proof. reflexivity. Qed.

Lemma merged_absent (env : Env) (dir real : string) (O : props) (k : string) :
  lookup_prop k O = None ->
  get (merged env dir real (VObj O)) k = get (defaults env dir real) k.
Proof.
  intros Hk. unfold merged, defaults. rewrite get_deepmerge_absent by exact Hk.
  apply clone_plain, plain_get. reflexivity.
Qed.

(** No field of the merged options is an instance: the merge has copied
    what it took. *)
Lemma merge_loop_no_instance (target : val) (sps destination : props) :
  Forall (fun p => forall c ps, snd p <> VInst c ps) destination ->
  Forall (fun p => forall c ps, snd p <> VInst c ps) (merge_loop target destination sps).
Proof.
  revert destination. induction sps as [|[k sv] rest IH]; intros dest F; cbn [merge_loop];
    [exact F|].
  apply IH. clear IH.
  assert (V : forall c ps, merge_value target k sv <> VInst c ps).
  { intros c ps. unfold merge_value.
    destruct (_ || _); [apply clone_no_instance | apply deepmerge_no_instance]. }
  induction F as [|[k' v'] l Hv Fl IHl]; cbn [set_prop].
  - repeat constructor. exact V.
  - destruct (String.eqb k k'); constructor; assumption.
Qed.

Lemma merged_no_instance (env : Env) (dir real : string) (O : props) (k c : string)
      (ps : props) :
  get (merged env dir real (VObj O)) k <> VInst c ps.
Proof.
  unfold merged.
  change (defaults env dir real) with (VObj (props_of (defaults env dir real))).
  rewrite deepmerge_object. cbn [get].
  assert (F : Forall (fun p => forall c ps, snd p <> VInst c ps)
                (merge_loop (VObj (props_of (defaults env dir real)))
                   (clone_props (props_of (defaults env dir real))) O)).
  { apply merge_loop_no_instance. unfold clone_props. apply List.Forall_forall.
    intros p Hp. apply in_map_iff in Hp as (q & <- & _). intros c' ps'.
    apply clone_no_instance. }
  induction F as [|[k' v'] l Hv _ IHl]; cbn [lookup_prop]; [discriminate|].
  destruct (String.eqb k k'); [apply Hv | exact IHl].
Qed.

Lemma merged_array (env : Env) (dir real : string) (O : props) (k : string) :
  unique_keys O = true ->
  field_is is_array k O = true ->
  get (defaults env dir real) k = VArr [] ->
  get (merged env dir real (VObj O)) k = VArr (map clone (elements k O)).
Proof.
  intros U T D. unfold merged, defaults in *. rewrite get_deepmerge by exact U.
  unfold field_is, elements in *.
  destruct (lookup_prop k O) as [v|]; [|rewrite D; reflexivity].
  destruct v; try discriminate. unfold merge_value. rewrite D.
  cbn [isMergeableObject truthy negb orb]. rewrite deepmerge_array. reflexivity.
Qed.

Lemma merged_html (env : Env) (dir real : string) (O : props) :
  unique_keys O = true ->
  field_is is_object "html" O = true ->
  is_object (get (merged env dir real (VObj O)) "html") = true.
Proof.
  intros U T. unfold merged, defaults. rewrite get_deepmerge by exact U.
  unfold field_is in T. destruct (lookup_prop "html" O) as [v|]; [|reflexivity].
  destruct v; try discriminate. unfold merge_value.
  replace (get _ "html") with (VObj [("template", VNull); ("title", VStr "OS.js")])
    by reflexivity.
  cbn [isMergeableObject truthy negb orb]. rewrite deepmerge_object. reflexivity.
Qed.

Lemma createWebpack_inv (env : Env) (dir real : string) (o : option props) (cfg : val) :
  realpathSync env dir = inr real ->
  createWebpack env dir o = Ok cfg ->
  let M := merged env dir real (VObj (default [] o)) in
  exists F plugins rules includePaths,
    push_html (force_devtool M) = Ok F /\
    spread (get F "plugins") = Ok plugins /\
    spread (get F "rules") = Ok rules /\
    spread (get F "includePaths") = Ok includePaths /\
    get cfg "mode" = get M "mode" /\
    get cfg "devtool" = get (force_devtool M) "devtool" /\
    get cfg "context" = get M "context" /\
    get cfg "plugins" = VArr (builtin_plugins F ++ plugins) /\
    get cfg "entry" = get M "entry" /\
    get_path cfg ["output"; "path"] = get M "outputPath" /\
    get_path cfg ["module"; "rules"] = VArr (rules ++ builtin_rules env F includePaths).
Proof.
  intros Hreal H M. rewrite (createWebpack_unfold env dir real o Hreal) in H. fold M in H.
  destruct (push_html (force_devtool M)) as [F|] eqn:HF; [|discriminate].
  cbn [mbind result_bind] in H.
  destruct (assemble_inv env dir F cfg H)
    as (plugins & rules & ips & Hp & Hr & Hi & Hmode & Hdev & Hctx & Hpl & Hen & Hout & Hru).
  exists F, plugins, rules, ips.
  assert (G : forall k, String.eqb k "plugins" = false -> String.eqb k "devtool" = false ->
                        get F k = get M k).
  { intros k E1 E2. rewrite (push_html_get _ _ k HF E1). apply force_devtool_get. exact E2. }
  repeat split; try assumption.
  - rewrite Hmode. apply G; reflexivity.
  - rewrite Hdev. apply (push_html_get _ _ _ HF). reflexivity.
  - rewrite Hctx. apply G; reflexivity.
  - rewrite Hen. apply G; reflexivity.
  - rewrite Hout. apply G; reflexivity.
Qed.

Lemma builtin_rules_ext (env : Env) (F M : val) (ips : list val) :
  (forall k, String.eqb k "plugins" = false -> String.eqb k "devtool" = false ->
             get F k = get M k) ->
  builtin_rules env F ips = builtin_rules env M ips.
Proof.
  intros G. unfold builtin_rules, style_rule, script_rule.
  rewrite !(G "minimize"), !(G "sourceMap"), (G "exclude"), (G "babel") by reflexivity.
  reflexivity.
Qed.

(** A call with well-typed overrides returns, and this is what it returns
    for the plugins and the rules: the elements that the overrides give
    are there as the copies that the merge made of them. *)
Lemma createWebpack_typed (env : Env) (dir real : string) (O : props) :
  realpathSync env dir = inr real ->
  well_typed O = true ->
  let M := merged env dir real (VObj O) in
  let template := get_path M ["html"; "template"] in
  exists cfg,
    createWebpack env dir (Some O) = Ok cfg /\
    get cfg "plugins" =
      VArr (builtin_plugins M ++ map clone (elements "plugins" O)
            ++ if truthy template then [html_plugin template] else []) /\
    get_path cfg ["module"; "rules"] =
      VArr (map clone (elements "rules" O)
            ++ builtin_rules env M (map clone (elements "includePaths" O))).
Proof.
  intros Hreal W. cbv zeta. unfold well_typed in W.
  apply andb_true_iff in W as [W Wi]. apply andb_true_iff in W as [W Wr].
  apply andb_true_iff in W as [W Wp]. apply andb_true_iff in W as [U Wh].
  rewrite (createWebpack_unfold env dir real _ Hreal).
  change (default [] (Some O)) with O.
  pose proof (merged_array env dir real O "plugins" U Wp eq_refl) as Hplugins.
  pose proof (merged_array env dir real O "rules" U Wr eq_refl) as Hrules.
  pose proof (merged_array env dir real O "includePaths" U Wi eq_refl) as Hips.
  pose proof (merged_html env dir real O U Wh) as Hhtml.
  destruct (merged_is_object env dir real O) as [mps HM].
  remember (merged env dir real (VObj O)) as M eqn:EM. clear EM.
  destruct (force_devtool_is_object mps) as [fps Hf].
  assert (Gf : forall k, String.eqb k "devtool" = false -> get (VObj fps) k = get M k).
  { intros k E. rewrite <- Hf, <- HM. apply force_devtool_get. exact E. }
  destruct (push_html_plugins fps (map clone (elements "plugins" O)) (get M "html"))
    as (F & HF & HFp).
  { rewrite Gf by reflexivity. exact Hplugins. }
  { apply Gf. reflexivity. }
  { exact Hhtml. }
  rewrite HM, Hf, HF, <- HM. cbn [mbind result_bind].
  assert (G : forall k, String.eqb k "plugins" = false -> String.eqb k "devtool" = false ->
                        get F k = get M k).
  { intros k E1 E2. rewrite (push_html_get _ _ k HF E1). apply Gf. exact E2. }
  unfold assemble. rewrite HFp, (G "rules"), (G "includePaths"), Hrules, Hips by reflexivity.
  cbn [spread mbind result_bind]. eexists. split; [reflexivity|].
  split.
  - cbn [get lookup_prop String.eqb Ascii.eqb Bool.eqb from_option id].
    unfold builtin_plugins. rewrite (G "copy") by reflexivity. reflexivity.
  - cbn [get_path get lookup_prop String.eqb Ascii.eqb Bool.eqb from_option id].
    rewrite (builtin_rules_ext env F M _ G). reflexivity.
Qed.

(** A call with well-typed overrides, or without overrides, returns. *)
Lemma createWebpack_returns (env : Env) (dir real : string) (o : option props) :
  realpathSync env dir = inr real ->
  well_typed (default [] o) = true ->
  exists cfg, createWebpack env dir o = Ok cfg.
Proof.
  intros Hreal W. destruct o as [O|].
  - destruct (createWebpack_typed env dir real O Hreal W) as (cfg & H & _). eauto.
  - destruct (createWebpack_typed env dir real [] Hreal W) as (cfg & H & _).
    exists cfg. rewrite <- H.
    rewrite !(createWebpack_unfold env dir real _ Hreal). reflexivity.
Qed.

(** ** Facts: [filterInput] *)

Lemma kept_not_space (c : ascii) : kept c = true -> is_space c = false.
Proof.
  destruct c as [[] [] [] [] [] [] [] []]; vm_compute; congruence.
Qed.

Lemma drop_spaces_kept (l : list ascii) :
  Forall (fun c => kept c = true) l -> drop_spaces l = l.
Proof.
  intros H. destruct H as [|c l Hc _]; [reflexivity|].
  simpl. rewrite (kept_not_space c Hc). reflexivity.
Qed.

(** After the replacement there is nothing left to trim. *)
Lemma filterInput_filter (input : string) :
  filterInput input = of_chars (List.filter kept (chars input)).
Proof.
  unfold filterInput, trim, RegExp.remove_class, chars, of_chars. fold kept.
  rewrite list_ascii_of_string_of_list_ascii.
  assert (H : Forall (fun c => kept c = true) (List.filter kept (list_ascii_of_string input))).
  { apply List.Forall_forall. intros c Hc. apply List.filter_In in Hc. tauto. }
  rewrite (drop_spaces_kept _ H).
  rewrite drop_spaces_kept by (apply List.Forall_rev; exact H).
  rewrite rev_involutive. reflexivity.
Qed.

(** ** Facts: the heap *)

Module StoreFacts.
Import Store.

Lemma extends_refl (h : heap) : extends h h.
Proof. exists []. split; [symmetry; apply app_nil_r | constructor]. Qed.

Lemma extends_length (h h' : heap) : extends h h' -> length h <= length h'.
Proof. intros (new & -> & _). rewrite length_app. lia. Qed.

Lemma extends_snoc (h h' : heap) (c : cell) :
  extends h h' -> cell_fresh (length h) c -> extends h (h' ++ [c]).
Proof.
  intros (new & -> & F) Hc. exists (new ++ [c]). split.
  - symmetry. apply app_assoc.
  - apply Forall_app. split; [exact F | repeat constructor; exact Hc].
Qed.

Lemma extends_insert (h h' : heap) (l : loc) (c : cell) :
  extends h h' -> length h <= l -> cell_fresh (length h) c -> extends h (<[l := c]> h').
Proof.
  intros (new & -> & F) Hl Hc. exists (<[l - length h := c]> new). split.
  - apply insert_app_r_alt. exact Hl.
  - apply Forall_insert; assumption.
Qed.

Lemma extends_lookup (h h' : heap) (l : loc) (c : cell) :
  extends h h' -> length h <= l -> h' !! l = Some c -> cell_fresh (length h) c.
Proof.
  intros (new & -> & F) Hl Hc. rewrite lookup_app_r in Hc by exact Hl.
  eapply Forall_lookup_1; eassumption.
Qed.

Lemma extends_prefix (h h' : heap) (l : loc) :
  extends h h' -> l < length h -> h' !! l = h !! l.
Proof. intros (new & -> & _) Hl. apply lookup_app_l. exact Hl. Qed.

Lemma alloc_extends (h0 : heap) (v : val) :
  forall h x h',
    extends h0 h -> alloc v h = (x, h') ->
    extends h0 h' /\ fresh (length h0) x.
Proof.
  induction v as [| | | | | | c args IH | c ps IH | es IH | ps IH] using val_ind';
    intros h x h' E H; simpl in H; try (injection H as <- <-; split; [exact E | exact I]).
  - match type of H with
    | (let '(_, _) := ?go ps h in _) = _ =>
        assert (G : forall h xs h1, extends h0 h -> go ps h = (xs, h1) ->
                      extends h0 h1 /\ Forall (fun p => fresh (length h0) (snd p)) xs)
    end.
    { clear H E h x h'. induction IH as [|[k e] ps He _ IHps]; intros h xs h1 E H.
      - injection H as <- <-. split; [exact E | constructor].
      - destruct (alloc e h) as [x1 h2] eqn:E1.
        destruct (He _ _ _ E E1) as [E2 F1].
        match type of H with
        | (let '(_, _) := ?g in _) = _ => destruct g as [xs2 h3] eqn:E3
        end.
        injection H as <- <-.
        destruct (IHps _ _ _ E2 E3) as [E4 F2].
        split; [exact E4 | constructor; assumption]. }
    match type of H with
    | (let '(_, _) := ?g in _) = _ => destruct g as [xs h1] eqn:E1
    end.
    injection H as <- <-. destruct (G _ _ _ E E1) as [E2 F].
    split; [apply extends_snoc; assumption | simpl; apply extends_length; exact E2].
  - match type of H with
    | (let '(_, _) := ?go es h in _) = _ =>
        assert (G : forall h xs h1, extends h0 h -> go es h = (xs, h1) ->
                      extends h0 h1 /\ Forall (fresh (length h0)) xs)
    end.
    { clear H E h x h'. induction IH as [|e es He _ IHes]; intros h xs h1 E H.
      - injection H as <- <-. split; [exact E | constructor].
      - destruct (alloc e h) as [x1 h2] eqn:E1.
        destruct (He _ _ _ E E1) as [E2 F1].
        match type of H with
        | (let '(_, _) := ?g in _) = _ => destruct g as [xs2 h3] eqn:E3
        end.
        injection H as <- <-.
        destruct (IHes _ _ _ E2 E3) as [E4 F2].
        split; [exact E4 | constructor; assumption]. }
    match type of H with
    | (let '(_, _) := ?g in _) = _ => destruct g as [xs h1] eqn:E1
    end.
    injection H as <- <-. destruct (G _ _ _ E E1) as [E2 F].
    split; [apply extends_snoc; assumption | simpl; apply extends_length; exact E2].
  - match type of H with
    | (let '(_, _) := ?go ps h in _) = _ =>
        assert (G : forall h xs h1, extends h0 h -> go ps h = (xs, h1) ->
                      extends h0 h1 /\ Forall (fun p => fresh (length h0) (snd p)) xs)
    end.
    { clear H E h x h'. induction IH as [|[k e] ps He _ IHps]; intros h xs h1 E H.
      - injection H as <- <-. split; [exact E | constructor].
      - destruct (alloc e h) as [x1 h2] eqn:E1.
        destruct (He _ _ _ E E1) as [E2 F1].
        match type of H with
        | (let '(_, _) := ?g in _) = _ => destruct g as [xs2 h3] eqn:E3
        end.
        injection H as <- <-.
        destruct (IHps _ _ _ E2 E3) as [E4 F2].
        split; [exact E4 | constructor; assumption]. }
    match type of H with
    | (let '(_, _) := ?g in _) = _ => destruct g as [xs h1] eqn:E1
    end.
    injection H as <- <-. destruct (G _ _ _ E E1) as [E2 F].
    split; [apply extends_snoc; assumption | simpl; apply extends_length; exact E2].
Qed.

Lemma keeps_bind (h0 : heap) {A B} (m : M A) (f : A -> M B) (Q : A -> Prop) (R : B -> Prop) :
  keeps h0 m Q -> (forall a, Q a -> keeps h0 (f a) R) -> keeps h0 (m ≫= f) R.
Proof.
  intros Hm Hf h r h' E H. unfold mbind, M_bind in H.
  destruct (m h) as [[a|e] h1] eqn:E1.
  - destruct (Hm _ _ _ E E1) as [E2 Qa]. exact (Hf a (Qa a eq_refl) _ _ _ E2 H).
  - injection H as <- <-. destruct (Hm _ _ _ E E1) as [E2 _].
    split; [exact E2 | discriminate].
Qed.

Lemma keeps_weaken (h0 : heap) {A} (m : M A) (Q R : A -> Prop) :
  keeps h0 m Q -> (forall a, Q a -> R a) -> keeps h0 m R.
Proof.
  intros Hm HQR h r h' E H. destruct (Hm _ _ _ E H) as [E' HQ]. split; [exact E'|].
  intros a Ha. apply HQR, HQ, Ha.
Qed.

Lemma keeps_ret (h0 : heap) {A} (a : A) (Q : A -> Prop) : Q a -> keeps h0 (mret a) Q.
Proof. intros Qa h r h' E [= <- <-]. split; [exact E | intros ? [= <-]; exact Qa]. Qed.

Lemma keeps_lift (h0 : heap) {A} (r : result A) : keeps h0 (lift r) (fun _ => True).
Proof. intros h r' h' E [= <- <-]. split; [exact E | intros; exact I]. Qed.

Lemma keeps_read (h0 : heap) (x : hval) : keeps h0 (read x) (fun _ => True).
Proof.
  intros h r h' E H. unfold read in H.
  destruct (reify _ h x); injection H as <- <-; (split; [exact E | intros; exact I]).
Qed.

Lemma keeps_new_value (h0 : heap) (v : val) : keeps h0 (new_value v) (fresh (length h0)).
Proof.
  intros h r h' E H. unfold new_value in H. destruct (alloc v h) as [x h1] eqn:E1.
  injection H as <- <-. destruct (alloc_extends h0 v h x h1 E E1) as [E2 F].
  split; [exact E2 | intros ? [= <-]; exact F].
Qed.

Lemma lookup_prop_fresh (n : nat) (k : string) (ps : list (string * hval)) :
  Forall (fun p => fresh n (snd p)) ps ->
  fresh n (default (Imm VUndef) (lookup_prop k ps)).
Proof.
  intros F. induction F as [|[k' y] ps Hy _ IH]; simpl; [exact I|].
  destruct (String.eqb k k'); [exact Hy | exact IH].
Qed.

Lemma keeps_get_field (h0 : heap) (o : hval) (k : string) :
  fresh (length h0) o -> keeps h0 (get_field o k) (fresh (length h0)).
Proof.
  intros Fo h r h' E H. unfold get_field in H. destruct o as [v|l].
  - destruct v; injection H as <- <-; (split; [exact E|]);
      intros x [= <-] || intros x [=]; exact I.
  - destruct (h !! l) as [[ps|es|c ps]|] eqn:Hl; injection H as <- <-;
      (split; [exact E|]); intros x [= <-]; try exact I;
      apply lookup_prop_fresh; exact (extends_lookup h0 h l _ E Fo Hl).
Qed.

Lemma set_prop_fresh (n : nat) (k : string) (x : hval) (ps : list (string * hval)) :
  fresh n x -> Forall (fun p => fresh n (snd p)) ps ->
  Forall (fun p => fresh n (snd p)) (set_prop k x ps).
Proof.
  intros Fx F. induction F as [|[k' y] ps Hy F IH]; simpl.
  - repeat constructor. exact Fx.
  - destruct (String.eqb k k'); constructor; assumption.
Qed.

Lemma keeps_set_field (h0 : heap) (o : hval) (k : string) (x : hval) :
  fresh (length h0) o -> fresh (length h0) x ->
  keeps h0 (set_field o k x) (fun _ => True).
Proof.
  intros Fo Fx h r h' E H. unfold set_field in H.
  assert (E' : extends h0 h'); [|split; [exact E' | intros; exact I]].
  destruct o as [v|l].
  - destruct v; injection H as <- <-; exact E.
  - destruct (h !! l) as [[ps|es|c ps]|] eqn:Hl; injection H as <- <-; try exact E;
      (apply extends_insert; [exact E | exact Fo |]);
      pose proof (extends_lookup h0 h l _ E Fo Hl) as Fc;
      simpl in *; apply set_prop_fresh; assumption.
Qed.

Lemma keeps_push (h0 : heap) (a x : hval) :
  fresh (length h0) a -> fresh (length h0) x -> keeps h0 (push a x) (fun _ => True).
Proof.
  intros Fa Fx h r h' E H. unfold push in H.
  assert (E' : extends h0 h'); [|split; [exact E' | intros; exact I]].
  destruct a as [v|l].
  - injection H as <- <-; exact E.
  - destruct (h !! l) as [[ps|es|c ps]|] eqn:Hl; injection H as <- <-; try exact E.
    apply extends_insert; [exact E | exact Fa |].
    pose proof (extends_lookup h0 h l _ E Fa Hl) as Fc.
    simpl in *. apply Forall_app. split; [exact Fc | repeat constructor; exact Fx].
Qed.

Lemma keeps_force_devtool (h0 : heap) (options : hval) :
  fresh (length h0) options -> keeps h0 (force_devtool options) (fun _ => True).
Proof.
  intros Fo. unfold force_devtool.
  eapply keeps_bind; [apply keeps_get_field; exact Fo|]. intros sourceMap _.
  destruct (negb (truthy sourceMap)).
  - apply keeps_set_field; [exact Fo | exact I].
  - apply keeps_ret. exact I.
Qed.

Lemma keeps_push_html (h0 : heap) (options : hval) :
  fresh (length h0) options -> keeps h0 (push_html options) (fun _ => True).
Proof.
  intros Fo. unfold push_html.
  eapply keeps_bind; [apply keeps_get_field; exact Fo|]. intros html Fh.
  eapply keeps_bind; [apply keeps_get_field; exact Fh|]. intros template _.
  destruct (truthy template).
  - eapply keeps_bind; [apply keeps_get_field; exact Fo|]. intros plugins Fp.
    eapply keeps_bind; [apply keeps_read|]. intros t _.
    apply keeps_push; [exact Fp | exact I].
  - apply keeps_ret. exact I.
Qed.

(** Whatever [createWebpack] does to the heap, it does after the cells
    that were there when it was called.  The argument may refer to any
    cell; what is written to was made by the merge. *)
Lemma createWebpack_keeps (env : Env) (dir : string) (o : option loc) (h0 : heap) :
  keeps h0 (createWebpack env dir o) (fun _ => True).
Proof.
  unfold createWebpack.
  eapply keeps_bind; [apply keeps_lift|]. intros realDir _.
  eapply keeps_bind with (Q := fun _ => True).
  { destruct o as [l|].
    - apply keeps_ret. exact I.
    - eapply keeps_weaken; [apply keeps_new_value | intros; exact I]. }
  intros src _.
  eapply keeps_bind with (Q := fresh (length h0)).
  { unfold deepmerge. eapply keeps_bind; [apply keeps_read|].
    intros source _. apply keeps_new_value. }
  intros options Fo.
  eapply keeps_bind; [apply keeps_force_devtool; exact Fo|]. intros _ _.
  eapply keeps_bind; [apply keeps_push_html; exact Fo|]. intros _ _.
  eapply keeps_bind; [apply keeps_read|]. intros options' _.
  apply keeps_lift.
Qed.

(** The structure below a value stays what it is when cells are added. *)
Lemma reify_app (n : nat) (h new : heap) (x : hval) (v : val) :
  reify n h x = Some v -> reify n (h ++ new) x = Some v.
Proof.
  revert x v. induction n as [|n IH]; intros x v H; destruct x as [w|l]; simpl in *;
    try exact H; try discriminate.
  destruct (h !! l) as [c|] eqn:Hl; [|discriminate].
  rewrite (lookup_app_l_Some _ _ _ _ Hl).
  assert (G : forall (ps : list (string * hval)) vs,
             mapM (fun p => pair (fst p) <$> reify n h (snd p)) ps = Some vs ->
             mapM (fun p => pair (fst p) <$> reify n (h ++ new) (snd p)) ps = Some vs).
  { intros ps vs Hm. apply mapM_Some. apply mapM_Some in Hm.
    eapply Forall2_impl; [exact Hm|]. intros [k y] [k' w] Hy. simpl in *.
    destruct (reify n h y) as [w'|] eqn:Hw; [|discriminate].
    rewrite (IH _ _ Hw). exact Hy. }
  destruct c as [ps|es|c ps].
  - destruct (mapM _ ps) as [vs|] eqn:Hm; [|discriminate].
    rewrite (G _ _ Hm). exact H.
  - destruct (mapM _ es) as [vs|] eqn:Hm; [|discriminate].
    replace (mapM (reify n (h ++ new)) es) with (Some vs); [exact H|].
    symmetry. apply mapM_Some. apply mapM_Some in Hm.
    eapply Forall2_impl; [exact Hm|]. intros y w Hy. apply IH. exact Hy.
  - destruct (mapM _ ps) as [vs|] eqn:Hm; [|discriminate].
    rewrite (G _ _ Hm). exact H.
Qed.

End StoreFacts.

(** ** Facts: the layout, and reading it back *)

Module LayoutFacts.

Lemma size_arr (es : list val) : size (VArr es) = S (sizes es).
Proof. reflexivity. Qed.

Lemma size_obj (ps : props) : size (VObj ps) = S (sizes_props ps).
Proof. reflexivity. Qed.

Lemma size_inst (c : string) (ps : props) : size (VInst c ps) = S (sizes_props ps).
Proof. reflexivity. Qed.

Lemma cells_inst (base : nat) (c : string) (ps : props) :
  cells base (VInst c ps) = cells_props base ps ++ [Store.Inst c (roots_props base ps)].
Proof. reflexivity. Qed.

Lemma cells_arr (base : nat) (es : list val) :
  cells base (VArr es) = cells_list base es ++ [Store.Arr (roots base es)].
Proof. reflexivity. Qed.

Lemma cells_obj (base : nat) (ps : props) :
  cells base (VObj ps) = cells_props base ps ++ [Store.Obj (roots_props base ps)].
Proof. reflexivity. Qed.

Lemma length_cells (v : val) : forall base, length (cells base v) = size v.
Proof.
  induction v as [| | | | | | c args IH | c ps IH | es IH | ps IH] using val_ind'; intros base;
    try reflexivity.
  - rewrite cells_inst, size_inst, length_app. cbn [length].
    replace (length (cells_props base ps)) with (sizes_props ps); [lia|].
    revert base. induction IH as [|[k e] ps He _ IHps]; intros base;
      cbn [cells_props sizes_props fst snd] in *.
    + reflexivity.
    + rewrite length_app, He, <- IHps. reflexivity.
  - rewrite cells_arr, size_arr, length_app. cbn [length].
    replace (length (cells_list base es)) with (sizes es); [lia|].
    revert base. induction IH as [|e es He _ IHes]; intros base; cbn [cells_list sizes].
    + reflexivity.
    + rewrite length_app, He, <- IHes. reflexivity.
  - rewrite cells_obj, size_obj, length_app. cbn [length].
    replace (length (cells_props base ps)) with (sizes_props ps); [lia|].
    revert base. induction IH as [|[k e] ps He _ IHps]; intros base;
      cbn [cells_props sizes_props fst snd] in *.
    + reflexivity.
    + rewrite length_app, He, <- IHps. reflexivity.
Qed.

Lemma length_cells_list (es : list val) (base : nat) :
  length (cells_list base es) = sizes es.
Proof.
  revert base. induction es as [|e es IH]; intros base; cbn [cells_list sizes];
    [reflexivity|]. rewrite length_app, length_cells, IH. reflexivity.
Qed.

Lemma length_cells_props (ps : props) (base : nat) :
  length (cells_props base ps) = sizes_props ps.
Proof.
  revert base. induction ps as [|p ps IH]; intros base; cbn [cells_props sizes_props];
    [reflexivity|]. rewrite length_app, length_cells, IH. reflexivity.
Qed.

(** [Store.alloc] lays a structure out in this way. *)
Lemma alloc_layout (v : val) :
  forall h, Store.alloc v h = (root (length h) v, h ++ cells (length h) v).
Proof.
  induction v as [| | | | | | c args IH | c ps IH | es IH | ps IH] using val_ind'; intros h;
    try (cbn [Store.alloc root cells]; rewrite app_nil_r; reflexivity).
  - cbn [Store.alloc].
    match goal with
    | |- (let '(_, _) := ?go ps h in _) = _ =>
        assert (G : forall h, go ps h = (roots_props (length h) ps,
                                         h ++ cells_props (length h) ps))
    end.
    { clear h. induction IH as [|[k e] ps He _ IHps]; intros h.
      - cbn [roots_props cells_props]. rewrite app_nil_r. reflexivity.
      - cbn [snd] in He. rewrite He, IHps. cbn [roots_props cells_props fst snd].
        rewrite length_app, length_cells, app_assoc. reflexivity. }
    rewrite G, cells_inst. unfold root. rewrite size_inst, length_app, length_cells_props.
    cbn [pred]. rewrite app_assoc. reflexivity.
  - cbn [Store.alloc].
    match goal with
    | |- (let '(_, _) := ?go es h in _) = _ =>
        assert (G : forall h, go es h = (roots (length h) es, h ++ cells_list (length h) es))
    end.
    { clear h. induction IH as [|e es He _ IHes]; intros h.
      - cbn [roots cells_list]. rewrite app_nil_r. reflexivity.
      - rewrite He, IHes. cbn [roots cells_list].
        rewrite length_app, length_cells, app_assoc. reflexivity. }
    rewrite G, cells_arr. unfold root. rewrite size_arr, length_app, length_cells_list.
    cbn [pred]. rewrite app_assoc. reflexivity.
  - cbn [Store.alloc].
    match goal with
    | |- (let '(_, _) := ?go ps h in _) = _ =>
        assert (G : forall h, go ps h = (roots_props (length h) ps,
                                         h ++ cells_props (length h) ps))
    end.
    { clear h. induction IH as [|[k e] ps He _ IHps]; intros h.
      - cbn [roots_props cells_props]. rewrite app_nil_r. reflexivity.
      - cbn [snd] in He. rewrite He, IHps. cbn [roots_props cells_props fst snd].
        rewrite length_app, length_cells, app_assoc. reflexivity. }
    rewrite G, cells_obj. unfold root. rewrite size_obj, length_app, length_cells_props.
    cbn [pred]. rewrite app_assoc. reflexivity.
Qed.

End LayoutFacts.

Module ReadFacts.
Import LayoutFacts.

Lemma stored_app (H : Store.heap) (base : nat) (cs1 cs2 : list Store.cell) :
  stored H base (cs1 ++ cs2) <-> stored H base cs1 /\ stored H (base + length cs1) cs2.
Proof.
  unfold stored. split.
  - intros S. split.
    + intros i c Hi. apply S. apply lookup_app_l_Some. exact Hi.
    + intros i c Hi. rewrite <- Nat.add_assoc. apply S.
      rewrite lookup_app_r by lia. rewrite Nat.add_comm, Nat.add_sub. exact Hi.
  - intros [S1 S2] i c Hi. apply lookup_app_Some in Hi as [Hi | [Hl Hi]].
    + apply S1. exact Hi.
    + replace (base + i) with (base + length cs1 + (i - length cs1)) by lia.
      apply S2. exact Hi.
Qed.

Lemma stored_here (h : Store.heap) (cs : list Store.cell) : stored (h ++ cs) (length h) cs.
Proof.
  intros i c Hi. rewrite lookup_app_r by lia.
  rewrite Nat.add_comm, Nat.add_sub. exact Hi.
Qed.

Lemma stored_insert (H : Store.heap) (base : nat) (cs : list Store.cell) (l : nat) (c : Store.cell) :
  l < base \/ base + length cs <= l ->
  stored H base cs -> stored (<[l := c]> H) base cs.
Proof.
  intros Hl S i c' Hi. rewrite list_lookup_insert_ne; [apply S; exact Hi|].
  apply lookup_lt_Some in Hi. lia.
Qed.

Lemma stored_single (H : Store.heap) (base : nat) (c : Store.cell) :
  stored H base [c] -> H !! base = Some c.
Proof. intros S. rewrite <- (Nat.add_0_r base). apply S. reflexivity. Qed.

(** More fuel reads the same. *)
Lemma reify_fuel (n : nat) (H : Store.heap) :
  forall m x v, Store.reify n H x = Some v -> n <= m -> Store.reify m H x = Some v.
Proof.
  induction n as [|n IH]; intros m x v Hr Hle; destruct x as [w|l]; cbn [Store.reify] in Hr;
    try discriminate.
  - destruct m; exact Hr.
  - destruct m; exact Hr.
  - destruct m as [|m]; [lia|]. cbn [Store.reify].
    assert (G : forall (ps : list (string * Store.hval)) vs,
               mapM (fun p => pair (fst p) <$> Store.reify n H (snd p)) ps = Some vs ->
               mapM (fun p => pair (fst p) <$> Store.reify m H (snd p)) ps = Some vs).
    { intros ps vs Hm. apply mapM_Some. apply mapM_Some in Hm.
      eapply Forall2_impl; [exact Hm|]. intros [k y] [k' w] Hy. cbn [fst snd] in *.
      destruct (Store.reify n H y) as [w'|] eqn:Hw; [|discriminate].
      rewrite (IH m _ _ Hw) by lia. exact Hy. }
    destruct (H !! l) as [[ps|es|c ps]|]; [| | |discriminate].
    + destruct (mapM _ ps) as [vs|] eqn:Hm; [|discriminate].
      rewrite (G _ _ Hm). exact Hr.
    + destruct (mapM _ es) as [vs|] eqn:Hm; [|discriminate].
      replace (mapM (Store.reify m H) es) with (Some vs); [exact Hr|].
      symmetry. apply mapM_Some. apply mapM_Some in Hm.
      eapply Forall2_impl; [exact Hm|]. intros y w Hy. apply (IH m); [exact Hy | lia].
    + destruct (mapM _ ps) as [vs|] eqn:Hm; [|discriminate].
      rewrite (G _ _ Hm). exact Hr.
Qed.

(** A structure that is laid out in the Store.heap reads as the tree it was made
    from. *)
Lemma reify_stored (H : Store.heap) (v : val) :
  forall base, stored H base (cells base v) -> Store.reify (size v) H (root base v) = Some v.
Proof.
  induction v as [| | | | | | c args IH | c ps IH | es IH | ps IH] using val_ind'; intros base S;
    try reflexivity.
  - rewrite cells_inst in S. apply stored_app in S as [S1 S2].
    apply stored_single in S2. rewrite length_cells_props in S2.
    unfold root. rewrite size_inst. cbn [pred Store.reify]. rewrite S2.
    assert (G : forall n, sizes_props ps <= n ->
                mapM (fun p => pair (fst p) <$> Store.reify n H (snd p)) (roots_props base ps)
                = Some ps).
    { clear S2. revert base S1. induction IH as [|[k e] ps He _ IHps]; intros base S1 n Hn.
      - reflexivity.
      - cbn [cells_props fst snd] in *. apply stored_app in S1 as [Se Sr].
        rewrite length_cells in Sr. cbn [sizes_props snd] in Hn. cbn [roots_props mapM fst snd].
        rewrite (reify_fuel _ H n _ _ (He base Se)) by lia.
        cbn [fmap option_fmap option_map mbind option_bind].
        rewrite (IHps _ Sr n) by lia. reflexivity. }
    rewrite (G _ (le_n _)). reflexivity.
  - rewrite cells_arr in S. apply stored_app in S as [S1 S2].
    apply stored_single in S2. rewrite length_cells_list in S2.
    unfold root. rewrite size_arr. cbn [pred Store.reify]. rewrite S2.
    assert (G : forall n, sizes es <= n -> mapM (Store.reify n H) (roots base es) = Some es).
    { clear S2. revert base S1. induction IH as [|e es He _ IHes]; intros base S1 n Hn.
      - reflexivity.
      - cbn [cells_list] in S1. apply stored_app in S1 as [Se Sr].
        rewrite length_cells in Sr. cbn [sizes] in Hn. cbn [roots mapM].
        rewrite (reify_fuel _ H n _ _ (He base Se)) by lia.
        rewrite (IHes _ Sr n) by lia. reflexivity. }
    rewrite (G _ (le_n _)). reflexivity.
  - rewrite cells_obj in S. apply stored_app in S as [S1 S2].
    apply stored_single in S2. rewrite length_cells_props in S2.
    unfold root. rewrite size_obj. cbn [pred Store.reify]. rewrite S2.
    assert (G : forall n, sizes_props ps <= n ->
                mapM (fun p => pair (fst p) <$> Store.reify n H (snd p)) (roots_props base ps)
                = Some ps).
    { clear S2. revert base S1. induction IH as [|[k e] ps He _ IHps]; intros base S1 n Hn.
      - reflexivity.
      - cbn [cells_props fst snd] in *. apply stored_app in S1 as [Se Sr].
        rewrite length_cells in Sr. cbn [sizes_props snd] in Hn. cbn [roots_props mapM fst snd].
        rewrite (reify_fuel _ H n _ _ (He base Se)) by lia.
        cbn [fmap option_fmap option_map mbind option_bind].
        rewrite (IHps _ Sr n) by lia. reflexivity. }
    rewrite (G _ (le_n _)). reflexivity.
Qed.

End ReadFacts.

Module RefineFacts.
Import LayoutFacts ReadFacts.

Lemma read_list (H : Store.heap) (es : list val) :
  forall base n,
    sizes es <= n -> stored H base (cells_list base es) ->
    mapM (Store.reify n H) (roots base es) = Some es.
Proof.
  induction es as [|e es IH]; intros base n Hn S; [reflexivity|].
  cbn [cells_list sizes roots mapM] in *. apply stored_app in S as [Se Sr].
  rewrite length_cells in Sr.
  rewrite (reify_fuel _ H n _ _ (reify_stored H e base Se)) by lia.
  rewrite (IH _ n) by (lia || exact Sr). reflexivity.
Qed.

Lemma read_props (H : Store.heap) (ps : props) :
  forall base n,
    sizes_props ps <= n -> stored H base (cells_props base ps) ->
    mapM (fun p => pair (fst p) <$> Store.reify n H (snd p)) (roots_props base ps) = Some ps.
Proof.
  induction ps as [|[k e] ps IH]; intros base n Hn S; [reflexivity|].
  cbn [cells_props sizes_props roots_props mapM fst snd] in *.
  apply stored_app in S as [Se Sr]. rewrite length_cells in Sr.
  rewrite (reify_fuel _ H n _ _ (reify_stored H e base Se)) by lia.
  cbn [fmap option_fmap option_map mbind option_bind].
  rewrite (IH _ n) by (lia || exact Sr). reflexivity.
Qed.

Lemma lookup_roots_props (k : string) (ps : props) :
  forall base,
    lookup_prop k (roots_props base ps) = root (addr_of k base ps) <$> lookup_prop k ps.
Proof.
  induction ps as [|[k' v] ps IH]; intros base; [reflexivity|].
  cbn [roots_props lookup_prop addr_of fst snd].
  destruct (String.eqb k k'); [reflexivity | apply IH].
Qed.

Lemma stored_addr_of (H : Store.heap) (k : string) (v : val) (ps : props) :
  forall base,
    stored H base (cells_props base ps) ->
    lookup_prop k ps = Some v ->
    stored H (addr_of k base ps) (cells (addr_of k base ps) v)
    /\ base <= addr_of k base ps
    /\ addr_of k base ps + size v <= base + sizes_props ps.
Proof.
  induction ps as [|[k' v'] ps IH]; intros base S Hk; [discriminate|].
  cbn [cells_props lookup_prop addr_of sizes_props fst snd] in *.
  apply stored_app in S as [Se Sr]. rewrite length_cells in Sr.
  destruct (String.eqb k k').
  - injection Hk as ->. repeat split; [exact Se | lia | lia].
  - destruct (IH _ Sr Hk) as (S' & L1 & L2). repeat split; [exact S' | lia | lia].
Qed.

Lemma laid_undefined (H : Store.heap) : laid H (Store.Imm VUndef) VUndef.
Proof. exists 0. split; [reflexivity|]. intros i c Hi. destruct i; discriminate. Qed.

Lemma laid_insert (H : Store.heap) (y : Store.hval) (t : val) (a : nat) (l : nat) (c : Store.cell) :
  y = root a t -> stored H a (cells a t) -> l < a \/ a + size t <= l ->
  laid (<[l := c]> H) y t.
Proof.
  intros -> S Hl. exists a. split; [reflexivity|].
  apply stored_insert; [rewrite length_cells; exact Hl | exact S].
Qed.

Lemma truthy_root (a : nat) (t : val) : Store.truthy (root a t) = truthy t.
Proof. destruct t; reflexivity. Qed.

Lemma truthy_laid (H : Store.heap) (y : Store.hval) (t : val) : laid H y t -> Store.truthy y = truthy t.
Proof. intros (a & -> & _). apply truthy_root. Qed.

Lemma stored_size (H : Store.heap) (a : nat) (t : val) :
  stored H a (cells a t) -> Store.boxed t = true -> a + size t <= length H.
Proof.
  intros S Hm.
  assert (G : exists c, cells a t !! pred (size t) = Some c /\ 0 < size t).
  { destruct t; try discriminate.
    - rewrite cells_inst, size_inst. cbn [pred]. eexists. split; [|lia].
      rewrite lookup_app_r, length_cells_props, Nat.sub_diag
        by (rewrite length_cells_props; lia).
      reflexivity.
    - rewrite cells_arr, size_arr. cbn [pred]. eexists. split; [|lia].
      rewrite lookup_app_r, length_cells_list, Nat.sub_diag by (rewrite length_cells_list; lia).
      reflexivity.
    - rewrite cells_obj, size_obj. cbn [pred]. eexists. split; [|lia].
      rewrite lookup_app_r, length_cells_props, Nat.sub_diag
        by (rewrite length_cells_props; lia).
      reflexivity. }
  destruct G as (c & Hc & Hpos). apply S in Hc. apply lookup_lt_Some in Hc. lia.
Qed.

Lemma read_laid (H : Store.heap) (y : Store.hval) (t : val) :
  laid H y t -> Store.read y H = (Ok t, H).
Proof.
  intros (a & -> & S). unfold Store.read.
  destruct (Store.boxed t) eqn:Hm.
  - pose proof (stored_size H a t S Hm) as L.
    rewrite (reify_fuel _ H (length H) _ _ (reify_stored H t a S)) by lia. reflexivity.
  - replace (Store.reify (length H) H (root a t)) with (Some t); [reflexivity|].
    destruct t; try discriminate; destruct (length H); reflexivity.
Qed.

(** Reading a property of a structure that is laid out. *)
Lemma get_field_laid (H : Store.heap) (o : Store.hval) (v : val) (k : string) :
  laid H o v ->
  match getprop v k with
  | Ok t => exists y, Store.get_field o k H = (Ok y, H) /\ laid H y t
  | Throw e => Store.get_field o k H = (Throw e, H)
  end.
Proof.
  intros (a & -> & S). destruct v; cbn [getprop root Store.get_field]; try reflexivity;
    try (eexists; split; [reflexivity | apply laid_undefined]).
  - rewrite cells_inst in S. apply stored_app in S as [S1 S2]. apply stored_single in S2.
    rewrite length_cells_props in S2. rewrite size_inst. cbn [pred]. rewrite S2.
    eexists; split; [reflexivity|]. rewrite lookup_roots_props. cbn [get].
    destruct (lookup_prop k props0) as [t|] eqn:Hk; cbn [fmap option_fmap option_map from_option id].
    + exists (addr_of k a props0). split; [reflexivity|].
      apply (stored_addr_of H k t props0 a S1 Hk).
    + apply laid_undefined.
  - rewrite cells_arr in S. apply stored_app in S as [_ S2]. apply stored_single in S2.
    rewrite length_cells_list in S2. rewrite size_arr. cbn [pred]. rewrite S2.
    eexists; split; [reflexivity | apply laid_undefined].
  - rewrite cells_obj in S. apply stored_app in S as [S1 S2]. apply stored_single in S2.
    rewrite length_cells_props in S2. rewrite size_obj. cbn [pred]. rewrite S2.
    eexists; split; [reflexivity|]. rewrite lookup_roots_props. cbn [get].
    destruct (lookup_prop k props0) as [t|] eqn:Hk; cbn [fmap option_fmap option_map from_option id].
    + exists (addr_of k a props0). split; [reflexivity|].
      apply (stored_addr_of H k t props0 a S1 Hk).
    + apply laid_undefined.
Qed.


Lemma reify_ref (n : nat) (H : Store.heap) (l : nat) :
  Store.reify (S n) H (Store.Ref l) =
  match H !! l with
  | Some (Store.Arr es) => VArr <$> mapM (Store.reify n H) es
  | Some (Store.Obj ps) =>
      VObj <$> mapM (fun p => pair (fst p) <$> Store.reify n H (snd p)) ps
  | Some (Store.Inst c ps) =>
      VInst c <$> mapM (fun p => pair (fst p) <$> Store.reify n H (snd p)) ps
  | None => None
  end.
Proof. reflexivity. Qed.

Lemma reify_imm (n : nat) (H : Store.heap) (v : val) :
  Store.boxed v = false -> Store.reify n H (Store.Imm v) = Some v.
Proof. intros E. destruct n; cbn [Store.reify]; rewrite E; reflexivity. Qed.

Lemma mapM_set_prop (g : Store.hval -> option val) (k : string) (y : Store.hval) (v : val) :
  forall xs ps,
    mapM (fun p => pair (fst p) <$> g (snd p)) xs = Some ps ->
    g y = Some v ->
    mapM (fun p => pair (fst p) <$> g (snd p)) (set_prop k y xs) = Some (set_prop k v ps).
Proof.
  induction xs as [|[k' y'] xs IH]; intros ps Hm Hy.
  - injection Hm as <-. cbn [set_prop mapM fst snd]. rewrite Hy. reflexivity.
  - cbn [mapM fst snd] in Hm.
    destruct (g y') as [v'|] eqn:Hy'; [|discriminate].
    cbn [fmap option_fmap option_map mbind option_bind] in Hm.
    destruct (mapM _ xs) as [ps'|] eqn:Hxs; [|discriminate].
    cbn [mbind option_bind mret option_ret] in Hm. injection Hm as <-.
    cbn [set_prop]. destruct (String.eqb k k').
    + cbn [mapM fst snd]. rewrite Hy, Hxs. reflexivity.
    + cbn [mapM fst snd]. rewrite Hy', (IH ps' eq_refl Hy). reflexivity.
Qed.

Lemma set_prop_comm {A} (k1 k2 : string) (v1 v2 : A) (ps : list (string * A)) :
  String.eqb k1 k2 = false ->
  lookup_prop k1 ps <> None ->
  set_prop k1 v1 (set_prop k2 v2 ps) = set_prop k2 v2 (set_prop k1 v1 ps).
Proof.
  intros E. assert (E' : String.eqb k2 k1 = false) by (rewrite String.eqb_sym; exact E).
  induction ps as [|[k v] ps IH]; intros Hk; [contradiction|].
  cbn [lookup_prop set_prop] in *.
  destruct (String.eqb k1 k) eqn:E1, (String.eqb k2 k) eqn:E2; cbn [set_prop];
    rewrite ?E1, ?E2, ?E, ?E'; try reflexivity.
  - apply String.eqb_eq in E1, E2. subst. rewrite String.eqb_refl in E. discriminate.
  - rewrite IH by exact Hk. reflexivity.
Qed.

(** Reading the properties after an element was pushed on the array [k]. *)
Lemma read_props_pushed (H : Store.heap) (k : string) (es : list val) (pl : val) (ps : props) :
  forall base n,
    sizes_props ps <= n ->
    stored H base (cells_props base ps) ->
    lookup_prop k ps = Some (VArr es) ->
    Store.boxed pl = false ->
    let a := addr_of k base ps in
    mapM (fun p => pair (fst p) <$>
                     Store.reify n (<[a + sizes es := Store.Arr (roots a es ++ [Store.Imm pl])]> H)
                       (snd p))
         (roots_props base ps)
    = Some (set_prop k (VArr (es ++ [pl])) ps).
Proof.
  induction ps as [|[k' v] ps IH]; intros base n Hn S Hk Hpl; [discriminate|].
  cbn [cells_props sizes_props lookup_prop addr_of roots_props set_prop fst snd] in *.
  apply stored_app in S as [Se Sr]. rewrite length_cells in Sr.
  destruct (String.eqb k k') eqn:E.
  - apply String.eqb_eq in E. subst k'.
    injection Hk as ->. cbn zeta. cbn [mapM fst snd].
    rewrite cells_arr in Se. apply stored_app in Se as [S1 S2]. apply stored_single in S2.
    rewrite length_cells_list in S2. rewrite size_arr in *.
    unfold root at 1. rewrite size_arr. cbn [pred].
    destruct n as [|n]; [lia|]. rewrite reify_ref.
    rewrite list_lookup_insert_eq by (apply lookup_lt_Some in S2; exact S2).
    replace (mapM _ (roots base es ++ [Store.Imm pl])) with (Some (es ++ [pl])).
    2:{ symmetry. apply mapM_Some. apply Forall2_app.
        - apply mapM_Some. apply read_list; [lia|].
          apply stored_insert; [rewrite length_cells_list; lia | exact S1].
        - repeat constructor. apply reify_imm. exact Hpl. }
    rewrite read_props; [reflexivity | lia |].
    apply stored_insert; [lia | exact Sr].
  - cbn zeta. cbn [mapM fst snd].
    destruct (stored_addr_of H k (VArr es) ps _ Sr Hk) as (_ & L1 & L2).
    rewrite (reify_fuel (size v) _ n (root base v) v); [| |lia].
    2:{ apply reify_stored. apply stored_insert; [rewrite length_cells; lia | exact Se]. }
    rewrite (IH (base + size v) n) by (lia || assumption). reflexivity.
Qed.

Lemma top_get (H : Store.heap) (w : bool) (b : nat) (mps : props) (k : string) :
  top H w b mps ->
  String.eqb k "devtool" = false ->
  Store.get_field (Store.Ref (b + sizes_props mps)) k H
  = (Ok (default (Store.Imm VUndef) (root (addr_of k b mps) <$> lookup_prop k mps)), H).
Proof.
  intros [Hc _] E. unfold Store.get_field. rewrite Hc. do 3 f_equal.
  unfold top_props. destruct w.
  - rewrite lookup_set_prop, E. apply lookup_roots_props.
  - apply lookup_roots_props.
Qed.

Lemma top_get_laid (H : Store.heap) (w : bool) (b : nat) (mps : props) (k : string) :
  top H w b mps ->
  laid H (default (Store.Imm VUndef) (root (addr_of k b mps) <$> lookup_prop k mps))
       (get (VObj mps) k).
Proof.
  intros [_ S]. cbn [get]. destruct (lookup_prop k mps) as [v|] eqn:Hk;
    cbn [fmap option_fmap option_map from_option id].
  - exists (addr_of k b mps). split; [reflexivity|].
    apply (stored_addr_of H k v mps b S Hk).
  - apply laid_undefined.
Qed.

Lemma top_value_get (w : bool) (mps : props) (k : string) :
  String.eqb k "devtool" = false ->
  get (VObj (top_value w mps)) k = get (VObj mps) k.
Proof.
  intros E. unfold top_value. destruct w; [|reflexivity].
  cbn [get]. rewrite lookup_set_prop, E. reflexivity.
Qed.

Lemma top_read (H : Store.heap) (w : bool) (b : nat) (mps : props) :
  top H w b mps ->
  Store.read (Store.Ref (b + sizes_props mps)) H = (Ok (VObj (top_value w mps)), H).
Proof.
  intros [Hc S]. unfold Store.read.
  pose proof (lookup_lt_Some _ _ _ Hc) as L.
  destruct (length H) as [|n] eqn:EL; [lia|]. rewrite reify_ref, Hc.
  assert (R : mapM (fun p => pair (fst p) <$> Store.reify n H (snd p)) (roots_props b mps)
              = Some mps) by (apply read_props; [lia | exact S]).
  unfold top_props, top_value. destruct w.
  - rewrite (mapM_set_prop (Store.reify n H) _ _ (VBool false) _ _ R);
      [reflexivity | apply reify_imm; reflexivity].
  - rewrite R. reflexivity.
Qed.

Lemma top_read_pushed (H : Store.heap) (w : bool) (b : nat) (mps : props)
      (es : list val) (pl : val) :
  top H w b mps ->
  lookup_prop "plugins" mps = Some (VArr es) ->
  lookup_prop "devtool" mps <> None ->
  Store.boxed pl = false ->
  let a := addr_of "plugins" b mps in
  let H' := <[a + sizes es := Store.Arr (roots a es ++ [Store.Imm pl])]> H in
  Store.read (Store.Ref (b + sizes_props mps)) H'
  = (Ok (VObj (set_prop "plugins" (VArr (es ++ [pl])) (top_value w mps))), H').
Proof.
  intros [Hc S] Hp Hd Hpl a H'. unfold Store.read.
  pose proof (lookup_lt_Some _ _ _ Hc) as L.
  destruct (stored_addr_of H "plugins" (VArr es) mps b S Hp) as (_ & L1 & L2).
  rewrite size_arr in L2. fold a in L1, L2.
  assert (Hc' : H' !! (b + sizes_props mps) = Some (Store.Obj (top_props w b mps))).
  { unfold H'. rewrite list_lookup_insert_ne by lia. exact Hc. }
  assert (EL : length H' = length H) by apply length_insert.
  destruct (length H') as [|n] eqn:EL'; [lia|]. rewrite reify_ref, Hc'.
  assert (R : mapM (fun p => pair (fst p) <$> Store.reify n H' (snd p)) (roots_props b mps)
              = Some (set_prop "plugins" (VArr (es ++ [pl])) mps)).
  { apply read_props_pushed; [lia | exact S | exact Hp | exact Hpl]. }
  unfold top_props, top_value. destruct w.
  - rewrite (mapM_set_prop (Store.reify n H') _ _ (VBool false) _ _ R)
      by (apply reify_imm; reflexivity).
    cbn [fmap option_fmap option_map]. rewrite set_prop_comm; [reflexivity | reflexivity | exact Hd].
  - rewrite R. reflexivity.
Qed.

End RefineFacts.

(** ** Facts: the heap-level function against the function on trees *)

Module Refinement.
Import LayoutFacts ReadFacts RefineFacts.

Lemma run_bind {A B} (m : Store.M A) (f : A -> Store.M B) (h : Store.heap) :
  (m ≫= f) h =
  match m h with
  | (Ok a, h') => f a h'
  | (Throw e, h') => (Throw e, h')
  end.
Proof. reflexivity. Qed.

Lemma reify_ref_last (h : Store.heap) :
  Store.reify (length (h ++ [Store.Obj []])) (h ++ [Store.Obj []]) (Store.Ref (length h))
  = Some (VObj []).
Proof.
  rewrite length_app, Nat.add_comm. cbn [length Nat.add]. rewrite reify_ref.
  rewrite lookup_app_r, Nat.sub_diag by lia. reflexivity.
Qed.

Lemma top_alloc (h : Store.heap) (mps : props) :
  top (h ++ cells (length h) (VObj mps)) false (length h) mps.
Proof.
  pose proof (stored_here h (cells (length h) (VObj mps))) as S.
  rewrite cells_obj in S. apply stored_app in S as [S1 S2].
  apply stored_single in S2. rewrite length_cells_props in S2.
  split; [exact S2 | exact S1].
Qed.

Lemma top_insert (H : Store.heap) (b : nat) (mps : props) :
  top H false b mps ->
  top (<[b + sizes_props mps :=
           Store.Obj (set_prop "devtool" (Store.Imm (VBool false)) (roots_props b mps))]> H)
      true b mps.
Proof.
  intros [Hc S]. split.
  - apply list_lookup_insert_eq. apply lookup_lt_Some in Hc. exact Hc.
  - apply stored_insert; [rewrite length_cells_props; lia | exact S].
Qed.

(** The guard on [sourceMap], in the heap and on the tree. *)
Lemma force_devtool_run (H : Store.heap) (b : nat) (mps : props) :
  top H false b mps ->
  exists w H',
    Store.force_devtool (Store.Ref (b + sizes_props mps)) H = (Ok tt, H')
    /\ top H' w b mps
    /\ force_devtool (VObj mps) = VObj (top_value w mps).
Proof.
  intros T. unfold Store.force_devtool, force_devtool.
  rewrite run_bind, (top_get H false b mps "sourceMap" T eq_refl).
  rewrite (truthy_laid H _ _ (top_get_laid H false b mps "sourceMap" T)).
  destruct (negb (truthy (get (VObj mps) "sourceMap"))).
  - exists true. eexists. split; [|split; [apply top_insert; exact T | reflexivity]].
    unfold Store.set_field. destruct T as [-> _]. reflexivity.
  - exists false, H. split; [reflexivity | split; [exact T | reflexivity]].
Qed.

(** The push of the HTML plugin, in the heap and on the tree: both throw the
    same error, or the heap then reads as the tree. *)
Lemma push_html_run (H : Store.heap) (w : bool) (b : nat) (mps : props) :
  top H w b mps ->
  lookup_prop "devtool" mps <> None ->
  match push_html (VObj (top_value w mps)) with
  | Ok F =>
      exists H', Store.push_html (Store.Ref (b + sizes_props mps)) H = (Ok tt, H')
                 /\ Store.read (Store.Ref (b + sizes_props mps)) H' = (Ok F, H')
  | Throw e =>
      exists H', Store.push_html (Store.Ref (b + sizes_props mps)) H = (Throw e, H')
  end.
Proof.
  intros T Hd. unfold Store.push_html, push_html.
  rewrite !(top_value_get w mps) by reflexivity.
  rewrite run_bind, (top_get H w b mps "html" T eq_refl).
  pose proof (get_field_laid H _ _ "template" (top_get_laid H w b mps "html" T)) as G.
  destruct (getprop (get (VObj mps) "html") "template") as [t|e].
  2:{ exists H. rewrite run_bind, G. reflexivity. }
  destruct G as (yt & G & Lt). rewrite run_bind, G.
  cbn [mbind result_bind]. rewrite (truthy_laid H yt t Lt).
  destruct (truthy t).
  2:{ exists H. split; [reflexivity | apply top_read; exact T]. }
  rewrite run_bind, (top_get H w b mps "plugins" T eq_refl).
  rewrite run_bind, (read_laid H yt t Lt).
  cbn [get].
  destruct (lookup_prop "plugins" mps) as [vp|] eqn:Hp;
    cbn [fmap option_fmap option_map from_option id].
  2:{ exists H. reflexivity. }
  destruct T as [Hc S].
  destruct (stored_addr_of H "plugins" vp mps b S Hp) as (Sp & _ & _).
  destruct vp; try (exists H; reflexivity).
  - (* an instance *)
    rewrite cells_inst in Sp. apply stored_app in Sp as [_ Sp]. apply stored_single in Sp.
    rewrite length_cells_props in Sp.
    cbn [push mbind result_bind]. unfold root. rewrite size_inst. cbn [pred].
    unfold Store.push. rewrite Sp. exists H. reflexivity.
  - (* an array *)
    rewrite cells_arr in Sp. apply stored_app in Sp as [_ Sp]. apply stored_single in Sp.
    rewrite length_cells_list in Sp.
    cbn [push mbind result_bind set]. unfold root. rewrite size_arr. cbn [pred].
    unfold Store.push. rewrite Sp. eexists. split; [reflexivity|].
    apply top_read_pushed; [split; assumption | exact Hp | exact Hd | reflexivity].
  - (* an object *)
    rewrite cells_obj in Sp. apply stored_app in Sp as [_ Sp]. apply stored_single in Sp.
    rewrite length_cells_props in Sp.
    cbn [push mbind result_bind]. unfold root. rewrite size_obj. cbn [pred].
    unfold Store.push. rewrite Sp. exists H. reflexivity.
Qed.

Lemma merged_devtool (env : Env) (dir real : string) (O mps : props) :
  merged env dir real (VObj O) = VObj mps -> lookup_prop "devtool" mps <> None.
Proof.
  unfold merged.
  change (defaults env dir real) with (VObj (props_of (defaults env dir real))).
  rewrite deepmerge_object. intros [= <-].
  assert (G : forall target dest, lookup_prop "devtool" dest <> None ->
                lookup_prop "devtool" (merge_loop target dest O) <> None).
  { intros target. induction O as [|[k sv] ps IH]; intros dest Hdest; cbn [merge_loop];
      [exact Hdest|].
    apply IH. rewrite lookup_set_prop. destruct (String.eqb "devtool" k); [discriminate|].
    exact Hdest. }
  apply G. discriminate.
Qed.

(** From the merge on. *)
Lemma merge_and_finish (env : Env) (dir realDir : string) (source : Store.hval)
      (h : Store.heap) (ps : props) :
  Store.read source h = (Ok (VObj ps), h) ->
  fst ((options ← Store.deepmerge (defaults env dir realDir) source;
        _ ← Store.force_devtool options;
        _ ← Store.push_html options;
        options ← Store.read options;
        Store.lift (assemble env dir options)) h)
  = (options ← push_html (force_devtool (merged env dir realDir (VObj ps)));
     assemble env dir options).
Proof.
  intros Hread. rewrite run_bind. unfold Store.deepmerge. rewrite run_bind, Hread.
  fold (merged env dir realDir (VObj ps)).
  destruct (merged_is_object env dir realDir ps) as [mps HM].
  pose proof (merged_devtool env dir realDir _ _ HM) as Hd.
  rewrite HM. unfold Store.new_value. rewrite alloc_layout.
  change (root (length h) (VObj mps)) with (Store.Ref (length h + sizes_props mps)).
  destruct (force_devtool_run _ _ _ (top_alloc h mps)) as (w & H2 & F2 & T2 & P2).
  rewrite run_bind, F2, P2.
  pose proof (push_html_run H2 w (length h) mps T2 Hd) as P3.
  destruct (push_html (VObj (top_value w mps))) as [F|e].
  - destruct P3 as (H3 & P3 & R3). rewrite run_bind, P3, run_bind, R3. reflexivity.
  - destruct P3 as (H3 & P3). rewrite run_bind, P3. reflexivity.
Qed.

(** X10.  The heap-level function computes what the function on trees computes:
    called with a reference to an object that reads as [O], or without
    overrides, it returns the same configuration or throws the same error. *)
Theorem createWebpack_refines (env : Env) (dir : string) (o : option nat) (h : Store.heap)
        (O : option props) :
  match o, O with
  | Some l, Some ps => Store.reify (length h) h (Store.Ref l) = Some (VObj ps)
  | None, None => True
  | _, _ => False
  end ->
  fst (Store.createWebpack env dir o h) = createWebpack env dir O.
Proof.
  intros Hread. unfold Store.createWebpack, createWebpack.
  rewrite run_bind. unfold Store.lift at 1.
  destruct (fs_realpathSync env dir) as [realDir|e]; [|reflexivity].
  cbn [mbind result_bind]. rewrite run_bind.
  destruct o as [l|], O as [ps|]; try contradiction.
  - cbn [mret Store.M_ret]. apply merge_and_finish.
    unfold Store.read. rewrite Hread. reflexivity.
  - unfold Store.new_value at 1. cbn [Store.alloc]. apply merge_and_finish.
    unfold Store.read. rewrite reify_ref_last. reflexivity.
Qed.

End Refinement.

(** ** The properties of the specification *)

(** C1, as the code has it: where the overrides do not set [outputPath], the
    [output.path] of the returned configuration is [path.resolve(dir, 'dist')],
    the directory argument itself made absolute against the working directory
    and joined with [dist]; the canonical path is not used for it.  A call
    with well-typed overrides returns. *)
Theorem output_path_default (env : Env) (dir real : string) (o : option props) :
  realpathSync env dir = inr real ->
  lookup_prop "outputPath" (default [] o) = None ->
  (forall cfg, createWebpack env dir o = Ok cfg ->
     get_path cfg ["output"; "path"] = VStr (Path.resolve (cwd env) [dir; "dist"]))
  /\ (well_typed (default [] o) = true -> exists cfg, createWebpack env dir o = Ok cfg).
Proof.
  intros Hreal Habs. split.
  - intros cfg H.
    destruct (createWebpack_inv env dir real o cfg Hreal H)
      as (F & pl & ru & ips & _ & _ & _ & _ & _ & _ & _ & _ & _ & Hout & _).
    rewrite Hout. rewrite (merged_absent env dir real _ "outputPath" Habs). reflexivity.
  - apply createWebpack_returns with real; assumption.
Qed.

Lemma output_path_default_witness :
  exists cfg,
    createWebpack sample_env "/proj" (Some [("html", VObj [("template", VStr "t.html")])]) = Ok cfg
    /\ get_path cfg ["output"; "path"] = VStr "/proj/dist".
Proof.
  destruct (output_path_default sample_env "/proj" "/real/proj"
              (Some [("html", VObj [("template", VStr "t.html")])]) eq_refl eq_refl)
    as [Hpath Hret].
  destruct (Hret eq_refl) as [cfg Hcfg].
  exists cfg. split; [exact Hcfg|]. exact (Hpath cfg Hcfg).
Defined.

(** C1 as the specification words it fails on its own example: the directory
    [/proj] resolves to [/real/proj], and [output.path] is [/proj/dist]. *)
Lemma output_path_not_canonical :
  realpathSync sample_env "/proj" = inr "/real/proj"
  /\ lookup_prop "outputPath" [("html", VObj [("template", VStr "t.html")])] = None
  /\ exists cfg,
       createWebpack sample_env "/proj"
         (Some [("html", VObj [("template", VStr "t.html")])]) = Ok cfg
       /\ get_path cfg ["output"; "path"] = VStr "/proj/dist"
       /\ get_path cfg ["output"; "path"]
          <> VStr (Path.resolve (cwd sample_env) ["/real/proj"; "dist"]).
Proof.
  split; [reflexivity|]. split; [reflexivity|].
  eexists. split; [vm_compute; reflexivity|]. split; [reflexivity | discriminate].
Qed.

(** C2: where the merged [sourceMap] is [false], the [devtool] of the
    returned configuration is [false], whatever the overrides say about
    [devtool]; a call with well-typed overrides returns; and the call with
    [{sourceMap: false, devtool: 'source-map'}] returns a configuration whose
    [devtool] is [false]. *)
Theorem devtool_false_without_source_map (env : Env) (dir real : string) :
  realpathSync env dir = inr real ->
  (forall o cfg,
     get (merged env dir real (VObj (default [] o))) "sourceMap" = VBool false ->
     createWebpack env dir o = Ok cfg ->
     get cfg "devtool" = VBool false)
  /\ (forall o, well_typed (default [] o) = true ->
        exists cfg, createWebpack env dir o = Ok cfg)
  /\ (exists cfg,
        createWebpack env dir
          (Some [("sourceMap", VBool false); ("devtool", VStr "source-map")]) = Ok cfg
        /\ get cfg "devtool" = VBool false).
Proof.
  intros Hreal.
  assert (A : forall o cfg,
     get (merged env dir real (VObj (default [] o))) "sourceMap" = VBool false ->
     createWebpack env dir o = Ok cfg -> get cfg "devtool" = VBool false).
  { intros o cfg Hsm H.
    destruct (createWebpack_inv env dir real o cfg Hreal H)
      as (F & pl & ru & ips & _ & _ & _ & _ & _ & Hdev & _).
    rewrite Hdev.
    destruct (merged_is_object env dir real (default [] o)) as [mps HM].
    rewrite HM in *. apply force_devtool_devtool. rewrite Hsm. reflexivity. }
  split; [exact A|].
  split; [intros o W; apply createWebpack_returns with real; assumption|].
  destruct (createWebpack_typed env dir real
              [("sourceMap", VBool false); ("devtool", VStr "source-map")] Hreal eq_refl)
    as (cfg & H & _).
  exists cfg. split; [exact H|].
  apply (A (Some [("sourceMap", VBool false); ("devtool", VStr "source-map")]) cfg);
    [reflexivity | exact H].
Qed.

Lemma devtool_false_without_source_map_witness :
  exists cfg,
    createWebpack sample_env "/proj"
      (Some [("sourceMap", VBool false); ("devtool", VStr "source-map")]) = Ok cfg
    /\ get cfg "devtool" = VBool false.
Proof.
  exact (proj2 (proj2 (devtool_false_without_source_map sample_env "/proj" "/real/proj"
                        eq_refl))).
Defined.






(** And for a plugin that is an instance of a class, the list holds a plain
    object with the properties of the plugin, not the plugin. *)
Example plugin_instance_is_copied :
  exists cfg,
    createWebpack sample_env "/proj"
      (Some [("plugins", VArr [VInst "DefinePlugin" [("definitions", VUndef)]])]) = Ok cfg
    /\ get cfg "plugins" =
       VArr [VExt "new ExtractTextPlugin" [VStr "[name].css"];
             VExt "new CopyWebpackPlugin" [VArr []];
             VObj [("definitions", VUndef)]]
    /\ ~ In (VInst "DefinePlugin" [("definitions", VUndef)]) (elems_of (get cfg "plugins")).
Proof.
  eexists. split; [vm_compute; reflexivity|]. split; [reflexivity|].
  cbn. intros [H|[H|[H|[]]]]; discriminate.
Qed.

(** C5, as the code has it: where the overrides do not set [context], the
    [context] of the returned configuration is the canonical path that
    [fs.realpathSync] gives for the directory.  A call with well-typed
    overrides returns. *)
Theorem context_is_canonical (env : Env) (dir real : string) (o : option props) :
  realpathSync env dir = inr real ->
  lookup_prop "context" (default [] o) = None ->
  (forall cfg, createWebpack env dir o = Ok cfg -> get cfg "context" = VStr real)
  /\ (well_typed (default [] o) = true -> exists cfg, createWebpack env dir o = Ok cfg).
Proof.
  intros Hreal Habs. split.
  - intros cfg H.
    destruct (createWebpack_inv env dir real o cfg Hreal H)
      as (F & pl & ru & ips & _ & _ & _ & _ & _ & _ & Hctx & _).
    rewrite Hctx. rewrite (merged_absent env dir real _ "context" Habs). reflexivity.
  - apply createWebpack_returns with real; assumption.
Qed.

Lemma context_is_canonical_witness :
  exists cfg,
    createWebpack sample_env "/proj" (Some [("mode", VStr "production")]) = Ok cfg
    /\ get cfg "context" = VStr "/real/proj".
Proof.
  destruct (context_is_canonical sample_env "/proj" "/real/proj"
              (Some [("mode", VStr "production")]) eq_refl eq_refl) as [Hctx Hret].
  destruct (Hret eq_refl) as [cfg Hcfg].
  exists cfg. split; [exact Hcfg | exact (Hctx cfg Hcfg)].
Defined.

(** C5 as the specification words it fails for overrides that set [context]. *)
Lemma context_can_be_overridden :
  realpathSync sample_env "/proj" = inr "/real/proj"
  /\ exists cfg,
       createWebpack sample_env "/proj" (Some [("context", VStr "/elsewhere")]) = Ok cfg
       /\ get cfg "context" = VStr "/elsewhere"
       /\ get cfg "context" <> VStr "/real/proj".
Proof.
  split; [reflexivity|]. eexists. split; [vm_compute; reflexivity|].
  split; [reflexivity | discriminate].
Qed.

(** C6: no path matches both the font rule and the bare-svg rule; a path that
    ends with [.svg] matches the font rule and not the bare-svg rule when it
    contains the marker [typeface], and the bare-svg rule and not the font
    rule when it does not; [fonts/Icon.svg] below a directory whose path
    contains the marker is given to the font rule, and [assets/icon.svg] to
    the bare-svg rule. *)
Theorem font_and_svg_rules_exclusive (env : Env) (options : val) (includePaths : list val) :
  let font := font_rule env in
  let svg := svg_rule env in
  let routed p := first_match rule_matches (builtin_rules env options includePaths) p in
  (forall p, rule_matches font p && rule_matches svg p = false)
  /\ (forall p, is_suffix ".svg" p = true -> is_infix "typeface" p = true ->
        rule_matches font p = true /\ rule_matches svg p = false)
  /\ (forall p, is_suffix ".svg" p = true -> is_infix "typeface" p = false ->
        rule_matches svg p = true /\ rule_matches font p = false)
  /\ (forall d, is_infix "typeface" d = true ->
        rule_matches font (d +:+ "/fonts/Icon.svg") = true
        /\ rule_matches svg (d +:+ "/fonts/Icon.svg") = false)
  /\ routed "node_modules/typeface-roboto/fonts/Icon.svg" = Some font
  /\ routed "assets/icon.svg" = Some svg
  /\ rule_matches font "assets/icon.svg" = false.
Proof.
  cbv zeta.
  assert (Hf : forall p, rule_matches (font_rule env) p =
                 ends_with_any [".eot"; ".svg"; ".ttf"; ".woff"; ".woff2"] p
                 && is_infix "typeface" p).
  { intros p. unfold rule_matches.
    cbn [get font_rule lookup_prop String.eqb Ascii.eqb Bool.eqb from_option id
           holds_or_absent condition].
    rewrite test_re_font, test_re_typeface. cbn [negb]. apply andb_true_r. }
  assert (Hs : forall p, rule_matches (svg_rule env) p =
                 is_suffix ".svg" p && negb (is_infix "typeface" p)).
  { intros p. unfold rule_matches.
    cbn [get svg_rule lookup_prop String.eqb Ascii.eqb Bool.eqb from_option id
           holds_or_absent condition].
    rewrite test_re_svg, test_re_typeface. rewrite andb_true_r. reflexivity. }
  assert (He : forall p, is_suffix ".svg" p = true ->
                 ends_with_any [".eot"; ".svg"; ".ttf"; ".woff"; ".woff2"] p = true).
  { intros p E. unfold ends_with_any. cbn [existsb]. rewrite E.
    destruct (is_suffix ".eot" p); reflexivity. }
  split; [|split; [|split; [|split; [|split; [|split]]]]].
  - intros p. rewrite Hf, Hs.
    destruct (is_infix "typeface" p); cbn [negb]; rewrite ?andb_false_r; reflexivity.
  - intros p E I. rewrite Hf, Hs, (He p E), E, I. split; reflexivity.
  - intros p E I. rewrite Hf, Hs, E, I. rewrite andb_false_r. split; reflexivity.
  - intros d I.
    assert (E : is_suffix ".svg" (d +:+ "/fonts/Icon.svg") = true).
    { apply is_suffix_spec. exists (d +:+ "/fonts/Icon"). rewrite append_assoc. reflexivity. }
    assert (I' : is_infix "typeface" (d +:+ "/fonts/Icon.svg") = true).
    { apply is_infix_spec. apply is_infix_spec in I as (a & b & ->).
      exists a, (b +:+ "/fonts/Icon.svg"). rewrite !append_assoc. reflexivity. }
    rewrite Hf, Hs, (He _ E), E, I'. split; reflexivity.
  - vm_compute. reflexivity.
  - vm_compute. reflexivity.
  - vm_compute. reflexivity.
Qed.

Lemma font_and_svg_rules_exclusive_witness :
  rule_matches (font_rule sample_env) "/p/node_modules/typeface-roboto/files/roboto.svg" = true
  /\ rule_matches (svg_rule sample_env) "/p/node_modules/typeface-roboto/files/roboto.svg" = false.
Proof.
  exact (proj1 (proj2 (font_and_svg_rules_exclusive sample_env VUndef []))
           "/p/node_modules/typeface-roboto/files/roboto.svg" eq_refl eq_refl).
Defined.

(** C7: [deepmerge], as [createWebpack] calls it on a defaults object and an
    overrides object, key by key.  A key that only the defaults have keeps a
    copy of its value, the value itself where it is data only.  A key whose
    override is a scalar (undefined, null, a boolean, a number, a string, a
    regular expression) takes the override.  A key whose override is an
    array, an object or an instance takes a copy of the override where the
    default is absent, null or another falsy value, where the override is an
    array and the default is none, and where the override is an object and
    the default is an array.  A key that is an array on both sides is the
    copies of the defaults' elements followed by the copies of the
    overrides', all of them, so the length of the merged [rules] is the sum
    of the two lengths.  A key that is an object on both sides is merged in
    the same way, one level down, an instance counting by its own
    properties; an object override of a truthy scalar is merged into the
    empty object, which gives its copy.  Where the default or the override
    is the result of an external call, the merged value is known as the
    result of merging the two, and no further.  The options of
    [createWebpack] are
    this merge of its defaults and the overrides: so every key that the
    overrides leave out has its default, scalars of the overrides win, the
    arrays [plugins], [copy], [rules] and [includePaths] of the overrides are
    copied, as are an object for [splitChunks] or [runtimeChunk] and the
    [entry] object. *)
Theorem merge_policy (D O : props) :
  unique_keys O = true ->
  let m := deepmerge (VObj D) (VObj O) in
  let d := get (VObj D) in
  (forall k, lookup_prop k O = None ->
     get m k = clone (d k) /\ (plain (d k) = true -> get m k = d k))
  /\ (forall k v, lookup_prop k O = Some v -> isMergeableObject v = false -> get m k = v)
  /\ (forall k v, lookup_prop k O = Some v -> isMergeableObject v = true ->
        truthy (d k) = false -> get m k = clone v)
  /\ (forall k ds os, d k = VArr ds -> lookup_prop k O = Some (VArr os) ->
        get m k = VArr (map clone ds ++ map clone os)
        /\ (forallb plain (ds ++ os) = true -> get m k = VArr (ds ++ os)))
  /\ (forall k os, lookup_prop k O = Some (VArr os) ->
        truthy (d k) = true -> is_array (d k) = false ->
        get m k = VArr (map clone os))
  /\ (forall k v ds, lookup_prop k O = Some v -> keyed v = true -> d k = VArr ds ->
        get m k = clone v)
  /\ (forall k v, lookup_prop k O = Some v -> keyed v = true -> keyed (d k) = true ->
        get m k = deepmerge (VObj (props_of (d k))) (VObj (props_of v)))
  /\ (forall k v, lookup_prop k O = Some v -> keyed v = true ->
        truthy (d k) = true -> isMergeableObject (d k) = false ->
        get m k = deepmerge (VObj []) (VObj (props_of v))
        /\ (unique_keys (props_of v) = true -> get m k = clone v))
  /\ (forall k v, lookup_prop k O = Some v -> truthy (d k) = true ->
        (is_ext v = true ->
           get m k = if is_array (d k) then clone v else VExt "deepmerge" [d k; v])
        /\ (keyed v = true -> is_ext (d k) = true ->
              get m k = VExt "deepmerge" [d k; v]))
  /\ (forall ds os,
        d "rules" = VArr ds -> get (VObj O) "rules" = VArr os ->
        exists rs, get m "rules" = VArr rs
                   /\ length rs = length ds + length os)
  /\ (forall env dir real,
        let M := merged env dir real (VObj O) in
        M = deepmerge (VObj (props_of (defaults env dir real))) (VObj O)
        /\ (forall k, lookup_prop k O = None -> get M k = get (defaults env dir real) k)
        /\ (forall k v, lookup_prop k O = Some v -> isMergeableObject v = false ->
              get M k = v)
        /\ (forall k os, In k ["plugins"; "copy"; "rules"; "includePaths"] ->
              lookup_prop k O = Some (VArr os) -> get M k = VArr (map clone os))
        /\ (forall k v, In k ["splitChunks"; "runtimeChunk"] ->
              lookup_prop k O = Some v -> isMergeableObject v = true -> get M k = clone v)
        /\ (forall ops, lookup_prop "entry" O = Some (VObj ops) -> unique_keys ops = true ->
              get M "entry" = VObj (clone_props ops))).
Proof.
  intros U. cbv zeta.
  assert (K : forall tps k v, lookup_prop k O = Some v ->
            get (deepmerge (VObj tps) (VObj O)) k = merge_value (VObj tps) k v).
  { intros tps k v Hk. rewrite get_deepmerge, Hk by exact U. reflexivity. }
  assert (A : forall tps k ds os,
            get (VObj tps) k = VArr ds -> lookup_prop k O = Some (VArr os) ->
            get (deepmerge (VObj tps) (VObj O)) k = VArr (map clone ds ++ map clone os)).
  { intros tps k ds os HD HO. rewrite (K _ _ _ HO). unfold merge_value. rewrite HD.
    cbn [isMergeableObject truthy negb orb]. rewrite deepmerge_array.
    cbn [is_array elems_of]. rewrite map_app. reflexivity. }
  assert (B : forall tps k v, lookup_prop k O = Some v -> isMergeableObject v = true ->
            truthy (get (VObj tps) k) = false ->
            get (deepmerge (VObj tps) (VObj O)) k = clone v).
  { intros tps k v Hk Hv Ht. rewrite (K _ _ _ Hk). unfold merge_value.
    rewrite Ht, orb_true_r. reflexivity. }
  assert (C : forall tps k v, lookup_prop k O = Some v -> isMergeableObject v = false ->
            get (deepmerge (VObj tps) (VObj O)) k = v).
  { intros tps k v Hk Hv. rewrite (K _ _ _ Hk). unfold merge_value. rewrite Hv.
    destruct v; try discriminate; reflexivity. }
  assert (Km : forall v, keyed v = true -> isMergeableObject v = true)
    by (intros v; destruct v; try discriminate; reflexivity).
  split; [|split; [|split; [|split; [|split; [|split; [|split; [|split; [|split; [|split]]]]]]]]].
  - intros k Hk. rewrite get_deepmerge_absent by exact Hk. split; [reflexivity|].
    intros Hp. apply clone_plain, Hp.
  - intros k v. apply C.
  - intros k v. apply B.
  - intros k ds os HD HO. rewrite (A _ _ _ _ HD HO). split; [reflexivity|].
    intros Hp. rewrite <- map_app, map_clone_plain by exact Hp. reflexivity.
  - intros k os HO Ht Ha. rewrite (K _ _ _ HO). unfold merge_value. rewrite Ht.
    cbn [isMergeableObject negb orb]. rewrite deepmerge_array, Ha. reflexivity.
  - intros k v ds HO Hv HD. rewrite (K _ _ _ HO). unfold merge_value.
    rewrite HD, (Km v Hv). cbn [truthy negb orb].
    destruct v; try discriminate; reflexivity.
  - intros k v HO Hv Hd. rewrite (K _ _ _ HO). unfold merge_value.
    rewrite (Km v Hv), (deepmerge_keyed_target _ _ Hd Hv).
    destruct (get (VObj D) k); try discriminate; reflexivity.
  - intros k v HO Hv Ht Hd. rewrite (K _ _ _ HO). unfold merge_value.
    rewrite (Km v Hv), Ht. cbn [negb orb].
    rewrite (deepmerge_scalar_target _ _ Hd Hv). split; [reflexivity|].
    intros Uv. rewrite merge_into_empty by exact Uv. destruct v; try discriminate; reflexivity.
  - intros k v HO Ht. rewrite (K _ _ _ HO). unfold merge_value. rewrite Ht. split.
    + intros Hv. destruct v; try discriminate. reflexivity.
    + intros Hv Hd. rewrite (Km v Hv). cbn [negb orb].
      destruct (get (VObj D) k); try discriminate; destruct v; try discriminate; reflexivity.
  - intros ds os HD HO. eexists. split.
    + apply A; [exact HD|]. cbn [get] in HO.
      destruct (lookup_prop "rules" O) as [v|]; [f_equal; exact HO | discriminate].
    + rewrite length_app, !length_map. reflexivity.
  - intros env dir real. unfold merged.
    split; [reflexivity|].
    set (dps := props_of (defaults env dir real)).
    change (defaults env dir real) with (VObj dps).
    split; [|split; [|split; [|split]]].
    + intros k Hk. rewrite get_deepmerge_absent by exact Hk.
      apply clone_plain. apply (plain_get _ k). reflexivity.
    + intros k v. apply C.
    + intros k os Hin HO.
      rewrite (A dps k [] os); [reflexivity | | exact HO].
      cbn [In] in Hin. destruct Hin as [<-|[<-|[<-|[<-|[]]]]]; reflexivity.
    + intros k v Hin HO Hv. apply B; [exact HO | exact Hv |].
      cbn [In] in Hin. destruct Hin as [<-|[<-|[]]]; reflexivity.
    + intros ops HO Uo. rewrite (K _ _ _ HO). unfold merge_value.
      replace (get (VObj dps) "entry") with (VObj []) by reflexivity.
      cbn [isMergeableObject truthy negb orb]. apply merge_into_empty, Uo.
Qed.

Lemma merge_policy_witness :
  get (deepmerge
         (VObj [("mode", VStr "development"); ("splitChunks", VBool false);
                ("rules", VArr [VStr "a"])])
         (VObj [("mode", VStr "production");
                ("splitChunks", VObj [("chunks", VStr "all")]);
                ("entry", VObj [("main", VStr "./index.js")]);
                ("rules", VArr [VStr "a"; VStr "b"])]))
      "rules"
  = VArr [VStr "a"; VStr "a"; VStr "b"]
  /\ get (deepmerge
            (VObj [("mode", VStr "development"); ("splitChunks", VBool false);
                   ("rules", VArr [VStr "a"])])
            (VObj [("mode", VStr "production");
                   ("splitChunks", VObj [("chunks", VStr "all")]);
                   ("entry", VObj [("main", VStr "./index.js")]);
                   ("rules", VArr [VStr "a"; VStr "b"])]))
         "splitChunks"
     = VObj [("chunks", VStr "all")]
  /\ get (merged sample_env "/proj" "/real/proj"
            (VObj [("mode", VStr "production");
                   ("splitChunks", VObj [("chunks", VStr "all")]);
                   ("entry", VObj [("main", VStr "./index.js")]);
                   ("rules", VArr [VStr "a"; VStr "b"])]))
         "entry"
     = VObj [("main", VStr "./index.js")].
Proof.
  destruct (merge_policy
              [("mode", VStr "development"); ("splitChunks", VBool false);
               ("rules", VArr [VStr "a"])]
              [("mode", VStr "production");
               ("splitChunks", VObj [("chunks", VStr "all")]);
               ("entry", VObj [("main", VStr "./index.js")]);
               ("rules", VArr [VStr "a"; VStr "b"])]
              eq_refl)
    as (_ & _ & H3 & H4 & _ & _ & _ & _ & _ & _ & H10).
  split; [|split].
  - exact (proj2 (H4 "rules" [VStr "a"] [VStr "a"; VStr "b"] eq_refl eq_refl) eq_refl).
  - exact (H3 "splitChunks" (VObj [("chunks", VStr "all")]) eq_refl eq_refl eq_refl).
  - destruct (H10 sample_env "/proj" "/real/proj") as (_ & _ & _ & _ & _ & He).
    exact (He [("main", VStr "./index.js")] eq_refl eq_refl).
Defined.

(** C8: where [fs.realpathSync] fails for the directory, [createWebpack]
    throws that error and returns no configuration; nothing has been merged
    or allocated by then, the heap is as it was. *)
Theorem unresolvable_directory_throws (env : Env) (dir : string) (code : errno) :
  realpathSync env dir = inl code ->
  (forall o, createWebpack env dir o = Throw (FsError code))
  /\ (forall o h, Store.createWebpack env dir o h = (Throw (FsError code), h)).
Proof.
  intros H. split.
  - intros o. unfold createWebpack, fs_realpathSync. rewrite H. reflexivity.
  - intros o h. unfold Store.createWebpack, fs_realpathSync. rewrite H. reflexivity.
Qed.

Lemma unresolvable_directory_throws_witness :
  createWebpack sample_env "/missing" None = Throw (FsError ENOENT).
Proof.
  exact (proj1 (unresolvable_directory_throws sample_env "/missing" ENOENT eq_refl) None).
Defined.

(** C9 fails on the code: the class [A-z] of [filterInput] runs from code 65
    to code 122 and so holds the six characters between [Z] and [a]; a square
    bracket, a backslash, a caret and a backquote pass the filter. *)
Theorem filterInput_keeps_brackets :
  filterInput "My[App]" = "My[App]"
  /\ filterInput " a\b^c`d-e " = "a\b^c`de".
Proof. split; reflexivity. Qed.

(** C10: a call of [createWebpack], whether it returns or throws, leaves
    every cell that existed before the call as it was: the overrides object,
    its [plugins] array and whatever else they refer to read the same after
    the call as before. *)
Theorem overrides_not_mutated (env : Env) (dir : string) (o : option nat)
        (h h' : list Store.cell) (r : result val) :
  Store.createWebpack env dir o h = (r, h') ->
  (forall l, l < length h -> h' !! l = h !! l)
  /\ (forall n x v, Store.reify n h x = Some v -> Store.reify n h' x = Some v).
Proof.
  intros H.
  destruct (StoreFacts.createWebpack_keeps env dir o h h r h' (StoreFacts.extends_refl h) H)
    as [(new & -> & _) _].
  split.
  - intros l Hl. apply lookup_app_l. exact Hl.
  - intros n x v. apply StoreFacts.reify_app.
Qed.

Lemma overrides_not_mutated_witness :
  Store.reify 3 (snd (Store.createWebpack sample_env "/proj" (Some 2) sample_heap))
    (Store.Ref 2)
  = Some (VObj [("plugins", VArr [VInst "DefinePlugin" [("definitions", VUndef)]]);
                ("html", VObj [("template", VStr "t.html")])]).
Proof.
  apply (proj2 (overrides_not_mutated sample_env "/proj" (Some 2) sample_heap
                  (snd (Store.createWebpack sample_env "/proj" (Some 2) sample_heap))
                  (fst (Store.createWebpack sample_env "/proj" (Some 2) sample_heap))
                  (surjective_pairing _))).
  reflexivity.
Defined.

(** On that heap the call returns, and the HTML plugin is the last plugin of
    the configuration: the push took place, in a cell of its own.  The
    plugin of the overrides is in the configuration as a copy; the array of
    the overrides and the instance are what they were. *)
Example sample_run_pushes :
  exists cfg,
    fst (Store.createWebpack sample_env "/proj" (Some 2) sample_heap) = Ok cfg
    /\ get cfg "plugins" =
       VArr [VExt "new ExtractTextPlugin" [VStr "[name].css"];
             VExt "new CopyWebpackPlugin" [VArr []];
             VObj [("definitions", VUndef)];
             VExt "new HtmlWebpackPlugin" [VStr "t.html"]]
    /\ snd (Store.createWebpack sample_env "/proj" (Some 2) sample_heap) !! 0
       = Some (Store.Arr [Store.Ref 3])
    /\ snd (Store.createWebpack sample_env "/proj" (Some 2) sample_heap) !! 3
       = Some (Store.Inst "DefinePlugin" [("definitions", Store.Imm VUndef)]).
Proof. eexists. split; [vm_compute; reflexivity|]. repeat split; reflexivity. Qed.

(** ** Further properties of the code *)

(** *** [createWebpack]: the other fields, and the production flag *)

Lemma createWebpack_rest (env : Env) (dir real : string) (o : option props) (cfg : val) :
  realpathSync env dir = inr real ->
  createWebpack env dir o = Ok cfg ->
  let M := merged env dir real (VObj (default [] o)) in
  get_path cfg ["optimization"; "minimize"] = get M "minimize"
  /\ get_path cfg ["optimization"; "splitChunks"] = get M "splitChunks"
  /\ get_path cfg ["optimization"; "runtimeChunk"] = get M "runtimeChunk"
  /\ get_path cfg ["output"; "sourceMapFilename"] = VStr "[file].map"
  /\ get_path cfg ["output"; "filename"] = VStr "[name].js"
  /\ get_path cfg ["resolve"; "modules"] =
       VArr [VStr "node_modules";
             VStr (Path.resolve (cwd env) [dir; "node_modules"]);
             VStr (Path.resolve (cwd env) [cliRoot env; "node_modules"])].
Proof.
  intros Hreal H M. rewrite (createWebpack_unfold env dir real o Hreal) in H. fold M in H.
  destruct (push_html (force_devtool M)) as [F|] eqn:HF; [|discriminate].
  cbn [mbind result_bind] in H. unfold assemble in H.
  destruct (spread (get F "plugins")) as [plugins|]; [|discriminate].
  destruct (spread (get F "rules")) as [rules|]; [|discriminate].
  destruct (spread (get F "includePaths")) as [ips|]; [|discriminate].
  cbn [mbind result_bind] in H. injection H as <-.
  assert (G : forall k, String.eqb k "plugins" = false -> String.eqb k "devtool" = false ->
                        get F k = get M k).
  { intros k E1 E2. rewrite (push_html_get _ _ k HF E1). apply force_devtool_get. exact E2. }
  cbn [get_path get lookup_prop String.eqb Ascii.eqb Bool.eqb from_option id].
  rewrite !G by reflexivity. repeat split; reflexivity.
Qed.

(** [/^prod/] is found in the strings that start with [prod]. *)
Lemma test_re_prod (s : string) : RegExp.test re_prod s = is_prefix "prod" s.
Proof.
  unfold RegExp.test, re_prod.
  assert (A : forall s, RegExp.matches_at (RegExp.Seq RegExp.Bol (RegExp.Lit "prod")) true s
                        = is_prefix "prod" s).
  { intros t. unfold RegExp.matches_at, is_prefix. cbn [RegExp.run flat_map fst snd].
    destruct (strip_prefix "prod" t); reflexivity. }
  assert (B : forall s, RegExp.search (RegExp.Seq RegExp.Bol (RegExp.Lit "prod")) false s = false).
  { intros t. induction t as [|c t IH]; cbn [RegExp.search]; [reflexivity|].
    rewrite IH. reflexivity. }
  destruct s as [|c s]; cbn [RegExp.search]; rewrite A, ?B; apply orb_false_r.
Qed.
(** X1: the module search path and the names of the output files are not
    taken from the options: whatever the overrides, a configuration that is
    returned has [resolve.modules] equal to [node_modules], then
    [path.resolve(dir, 'node_modules')] on the directory as it was given,
    then the [node_modules] of the tool, and the output names [[name].js] and
    [[file].map].  A call with well-typed overrides returns. *)
Theorem resolve_modules_fixed (env : Env) (dir real : string) (o : option props) :
  realpathSync env dir = inr real ->
  (forall cfg, createWebpack env dir o = Ok cfg ->
     get_path cfg ["resolve"; "modules"] =
       VArr [VStr "node_modules";
             VStr (Path.resolve (cwd env) [dir; "node_modules"]);
             VStr (Path.resolve (cwd env) [cliRoot env; "node_modules"])]
     /\ get_path cfg ["output"; "filename"] = VStr "[name].js"
     /\ get_path cfg ["output"; "sourceMapFilename"] = VStr "[file].map")
  /\ (well_typed (default [] o) = true -> exists cfg, createWebpack env dir o = Ok cfg).
Proof.
  intros Hreal. split.
  - intros cfg H.
    destruct (createWebpack_rest env dir real o cfg Hreal H) as (_ & _ & _ & H1 & H2 & H3).
    auto.
  - apply createWebpack_returns with real; assumption.
Qed.

Lemma resolve_modules_fixed_witness :
  exists cfg,
    createWebpack sample_env "/proj" (Some [("resolve", VObj [("modules", VArr [])])]) = Ok cfg
    /\ get_path cfg ["resolve"; "modules"] =
       VArr [VStr "node_modules"; VStr "/proj/node_modules";
             VStr "/opt/osjs-cli/node_modules"].
Proof.
  destruct (resolve_modules_fixed sample_env "/proj" "/real/proj"
              (Some [("resolve", VObj [("modules", VArr [])])]) eq_refl) as [Hf Hret].
  destruct (Hret eq_refl) as [cfg Hcfg]. exists cfg. split; [exact Hcfg|].
  exact (proj1 (Hf cfg Hcfg)).
Defined.

(** X2: the production flag is on exactly when [NODE_ENV] is set to a string
    that starts with [prod]; an unset or empty [NODE_ENV] counts as
    [development]. *)
Theorem production_iff (env : Env) :
  production env = true <->
  exists s, NODE_ENV env = Some s /\ is_prefix "prod" s = true.
Proof.
  unfold production. rewrite test_re_prod. split.
  - destruct (NODE_ENV env) as [s|]; [|discriminate].
    destruct (String.eqb s "") eqn:E; [discriminate|]. eauto.
  - intros (s & -> & H). destruct (String.eqb s "") eqn:E; [|exact H].
    apply String.eqb_eq in E. subst s. discriminate.
Qed.

(** X3: what the environment decides when the overrides are silent.  The
    mode is [development] whatever [NODE_ENV] says; [optimization.minimize]
    is the production flag; and with neither [sourceMap] nor [devtool] given,
    [devtool] is ['source-map'] in production and [false] otherwise. *)
Theorem environment_defaults (env : Env) (dir real : string) (o : option props) :
  realpathSync env dir = inr real ->
  (forall cfg, createWebpack env dir o = Ok cfg ->
     (lookup_prop "mode" (default [] o) = None -> get cfg "mode" = VStr "development")
     /\ (lookup_prop "minimize" (default [] o) = None ->
           get_path cfg ["optimization"; "minimize"] = VBool (production env))
     /\ (lookup_prop "sourceMap" (default [] o) = None ->
         lookup_prop "devtool" (default [] o) = None ->
           get cfg "devtool" = if production env then VStr "source-map" else VBool false))
  /\ (well_typed (default [] o) = true -> exists cfg, createWebpack env dir o = Ok cfg).
Proof.
  intros Hreal. split; [|apply createWebpack_returns with real; assumption].
  intros cfg H.
  destruct (createWebpack_inv env dir real o cfg Hreal H)
    as (F & pl & ru & ips & _ & _ & _ & _ & Hmode & Hdev & _).
  destruct (createWebpack_rest env dir real o cfg Hreal H) as (Hmin & _).
  split; [|split].
  - intros A. rewrite Hmode, (merged_absent env dir real _ "mode" A). reflexivity.
  - intros A. rewrite Hmin, (merged_absent env dir real _ "minimize" A). reflexivity.
  - intros A B. rewrite Hdev. unfold force_devtool.
    rewrite (merged_absent env dir real _ "sourceMap" A).
    cbn [defaults get lookup_prop String.eqb Ascii.eqb Bool.eqb from_option id truthy].
    destruct (production env); cbn [negb].
    + rewrite (merged_absent env dir real _ "devtool" B). reflexivity.
    + destruct (merged_is_object env dir real (default [] o)) as [mps ->].
      apply get_set_eq.
Qed.

Lemma environment_defaults_witness :
  exists cfg,
    createWebpack sample_env "/proj" None = Ok cfg
    /\ get cfg "mode" = VStr "development"
    /\ get cfg "devtool" = VBool false.
Proof.
  destruct (environment_defaults sample_env "/proj" "/real/proj" None eq_refl) as [Hf Hret].
  destruct (Hret eq_refl) as [cfg Hcfg]. exists cfg. split; [exact Hcfg|].
  destruct (Hf cfg Hcfg) as (Hm & _ & Hd).
  split; [exact (Hm eq_refl) | exact (Hd eq_refl eq_refl)].
Defined.

(** X4: with source maps on, the [devtool] of the merge is kept: where the
    merged [sourceMap] is truthy and the overrides give a scalar [devtool],
    the configuration has that [devtool]. *)
Theorem devtool_override_kept (env : Env) (dir real : string) (O : props) (d cfg : val) :
  realpathSync env dir = inr real ->
  unique_keys O = true ->
  lookup_prop "devtool" O = Some d ->
  isMergeableObject d = false ->
  truthy (get (merged env dir real (VObj O)) "sourceMap") = true ->
  createWebpack env dir (Some O) = Ok cfg ->
  get cfg "devtool" = d.
Proof.
  intros Hreal U Hd Hm Hs H.
  destruct (createWebpack_inv env dir real (Some O) cfg Hreal H)
    as (F & pl & ru & ips & _ & _ & _ & _ & _ & Hdev & _).
  rewrite Hdev. unfold force_devtool. cbn [from_option id] in *. rewrite Hs. cbn [negb].
  unfold merged, defaults. rewrite get_deepmerge, Hd by exact U.
  apply merge_value_scalar, Hm.
Qed.

Lemma devtool_override_kept_witness :
  exists cfg,
    createWebpack sample_env "/proj"
      (Some [("sourceMap", VBool true); ("devtool", VStr "eval")]) = Ok cfg
    /\ get cfg "devtool" = VStr "eval".
Proof.
  eexists. split; [reflexivity|].
  apply (devtool_override_kept sample_env "/proj" "/real/proj"
           [("sourceMap", VBool true); ("devtool", VStr "eval")] (VStr "eval"));
    reflexivity.
Defined.
(** *** [createWebpack]: the built-in rules *)

Lemma rule_matches_image (env : Env) (p : string) :
  rule_matches (image_rule env) p
  = ends_with_any [".png"; ".jpeg"; ".jpg"; ".gif"; ".webp"] p.
Proof.
  unfold rule_matches.
  cbn [get image_rule lookup_prop String.eqb Ascii.eqb Bool.eqb from_option id
         holds_or_absent condition].
  rewrite test_re_image. cbn [negb]. rewrite !andb_true_r. reflexivity.
Qed.

Lemma rule_matches_style (env : Env) (options : val) (ips : list val) (p : string) :
  rule_matches (style_rule env options ips) p = ends_with_any [".scss"; ".css"] p.
Proof.
  unfold rule_matches.
  cbn [get style_rule lookup_prop String.eqb Ascii.eqb Bool.eqb from_option id
         holds_or_absent condition].
  rewrite test_re_style. cbn [negb]. rewrite !andb_true_r. reflexivity.
Qed.

Lemma rule_matches_script (env : Env) (options : val) (p : string) :
  rule_matches (script_rule env options) p
  = is_suffix ".js" p && negb (condition (get options "exclude") p).
Proof.
  unfold rule_matches.
  cbn [get script_rule lookup_prop String.eqb Ascii.eqb Bool.eqb from_option id
         holds_or_absent condition].
  rewrite test_re_script, andb_true_r. reflexivity.
Qed.

Lemma rule_matches_font (env : Env) (p : string) :
  rule_matches (font_rule env) p
  = ends_with_any [".eot"; ".svg"; ".ttf"; ".woff"; ".woff2"] p && is_infix "typeface" p.
Proof.
  unfold rule_matches.
  cbn [get font_rule lookup_prop String.eqb Ascii.eqb Bool.eqb from_option id
         holds_or_absent condition].
  rewrite test_re_font, test_re_typeface. cbn [negb]. apply andb_true_r.
Qed.

Lemma rule_matches_svg (env : Env) (p : string) :
  rule_matches (svg_rule env) p = is_suffix ".svg" p && negb (is_infix "typeface" p).
Proof.
  unfold rule_matches.
  cbn [get svg_rule lookup_prop String.eqb Ascii.eqb Bool.eqb from_option id
         holds_or_absent condition].
  rewrite test_re_svg, test_re_typeface, andb_true_r. reflexivity.
Qed.

(** Two endings of one string: one of them ends the other. *)
Lemma is_suffix_comparable (w1 w2 p : string) :
  is_suffix w1 p = true -> is_suffix w2 p = true ->
  is_suffix w1 w2 = true \/ is_suffix w2 w1 = true.
Proof.
  induction p as [|c p IH]; cbn [is_suffix]; rewrite !orb_true_iff, !String.eqb_eq.
  - intros [<-|H1] [<-|H2]; try discriminate. left. reflexivity.
  - intros [<-|H1] [<-|H2].
    + left. cbn [is_suffix]. rewrite String.eqb_refl. reflexivity.
    + right. cbn [is_suffix]. rewrite H2. apply orb_true_r.
    + left. cbn [is_suffix]. rewrite H1. apply orb_true_r.
    + auto.
Qed.

Lemma ends_with_any_apart (l1 l2 : list string) (p : string) :
  all_apart l1 l2 = true ->
  ends_with_any l1 p = true -> ends_with_any l2 p = false.
Proof.
  unfold all_apart, ends_with_any. intros A H1.
  destruct (existsb (fun w => is_suffix w p) l2) eqn:H2; [|reflexivity].
  apply existsb_exists in H1 as (w1 & I1 & S1).
  apply existsb_exists in H2 as (w2 & I2 & S2).
  rewrite forallb_forall in A. specialize (A w1 I1).
  rewrite forallb_forall in A. specialize (A w2 I2).
  apply andb_true_iff in A as [A1 A2].
  destruct (is_suffix_comparable w1 w2 p S1 S2) as [C|C]; rewrite C in *; discriminate.
Qed.
(** X5: the five built-in rules do not overlap: whatever the options, a path
    matches at most one of them, so among the built-in rules it makes no
    difference whether the bundler takes the first match or all matches. *)
Theorem builtin_rules_exclusive (env : Env) (options : val) (includePaths : list val)
        (p : string) :
  length (List.filter (fun r => rule_matches r p) (builtin_rules env options includePaths))
  <= 1.
Proof.
  assert (S1 : forall w, is_suffix w p = ends_with_any [w] p).
  { intros w. unfold ends_with_any. cbn [existsb]. symmetry. apply orb_false_r. }
  assert (F : forall l1 l2, all_apart l1 l2 = true ->
                ends_with_any l1 p = true -> ends_with_any l2 p = false).
  { intros l1 l2. apply ends_with_any_apart. }
  unfold builtin_rules. cbn [List.filter].
  rewrite rule_matches_image, rule_matches_style, rule_matches_script,
    rule_matches_font, rule_matches_svg, !S1.
  set (IMG := [".png"; ".jpeg"; ".jpg"; ".gif"; ".webp"]).
  set (STY := [".scss"; ".css"]).
  set (FNT := [".eot"; ".svg"; ".ttf"; ".woff"; ".woff2"]).
  destruct (ends_with_any IMG p) eqn:A.
  { rewrite (F IMG STY eq_refl A), (F IMG [".js"] eq_refl A), (F IMG FNT eq_refl A),
      (F IMG [".svg"] eq_refl A).
    cbn [andb length]. lia. }
  destruct (ends_with_any STY p) eqn:B.
  { rewrite (F STY [".js"] eq_refl B), (F STY FNT eq_refl B), (F STY [".svg"] eq_refl B).
    cbn [andb length]. lia. }
  destruct (ends_with_any [".js"] p) eqn:C.
  { rewrite (F [".js"] FNT eq_refl C), (F [".js"] [".svg"] eq_refl C).
    cbn [andb]. destruct (negb _); cbn [length]; lia. }
  cbn [andb].
  destruct (is_infix "typeface" p); cbn [negb]; rewrite ?andb_true_r, ?andb_false_r.
  - destruct (ends_with_any FNT p); cbn [length]; lia.
  - destruct (ends_with_any [".svg"] p); cbn [length]; lia.
Qed.

(** X6: unless the overrides set [exclude], the script rule, which is the
    third rule after those of the overrides, takes the paths that end with
    [.js] and contain neither [node_modules] nor [bower_components]. *)
Theorem script_rule_default_exclude (env : Env) (dir real : string) (O : props) :
  realpathSync env dir = inr real ->
  well_typed O = true ->
  lookup_prop "exclude" O = None ->
  exists cfg rules script,
    createWebpack env dir (Some O) = Ok cfg
    /\ get_path cfg ["module"; "rules"] = VArr rules
    /\ rules !! (length (elements "rules" O) + 2) = Some script
    /\ get script "use" =
       VObj [("loader", VStr (require_resolve env "babel-loader"));
             ("options", get (merged env dir real (VObj O)) "babel")]
    /\ forall p,
         rule_matches script p
         = is_suffix ".js" p
           && negb (is_infix "node_modules" p || is_infix "bower_components" p).
Proof.
  intros Hreal W Hex.
  destruct (createWebpack_typed env dir real O Hreal W) as (cfg & H & _ & Hr).
  exists cfg. eexists. exists (script_rule env (merged env dir real (VObj O))).
  split; [exact H|]. split; [exact Hr|]. split; [|split].
  - rewrite lookup_app_r by (rewrite length_map; lia).
    rewrite length_map, Nat.add_comm, Nat.add_sub. reflexivity.
  - reflexivity.
  - intros p. rewrite rule_matches_script.
    rewrite (merged_absent env dir real O "exclude" Hex).
    cbn [defaults get lookup_prop String.eqb Ascii.eqb Bool.eqb from_option id condition].
    rewrite test_re_exclude. reflexivity.
Qed.

Lemma script_rule_default_exclude_witness :
  exists cfg rules script,
    createWebpack sample_env "/proj" (Some [("rules", VArr [VObj [("test", VRegExp re_svg)]])])
    = Ok cfg
    /\ get_path cfg ["module"; "rules"] = VArr rules
    /\ rules !! 3 = Some script
    /\ rule_matches script "/proj/src/index.js" = true
    /\ rule_matches script "/proj/node_modules/hyperapp/src/index.js" = false.
Proof.
  destruct (script_rule_default_exclude sample_env "/proj" "/real/proj"
              [("rules", VArr [VObj [("test", VRegExp re_svg)]])] eq_refl eq_refl eq_refl)
    as (cfg & rules & script & H & Hr & Hn & _ & Hm).
  exists cfg, rules, script. split; [exact H|]. split; [exact Hr|]. split; [exact Hn|].
  rewrite !Hm. split; reflexivity.
Defined.

(** X7: the presets of the overrides come after the default preset in the
    options of the script loader, they do not replace it; and a [babel]
    override that says nothing of [cacheDirectory] leaves it on.  The
    presets are there as the copies that the merge made, which are the
    presets themselves where they are data only. *)
Theorem babel_presets_appended (env : Env) (dir real : string) (O bps : props)
        (presets : list val) :
  realpathSync env dir = inr real ->
  well_typed O = true ->
  lookup_prop "babel" O = Some (VObj bps) ->
  unique_keys bps = true ->
  lookup_prop "presets" bps = Some (VArr presets) ->
  exists cfg rules script,
    createWebpack env dir (Some O) = Ok cfg
    /\ get_path cfg ["module"; "rules"] = VArr rules
    /\ rules !! (length (elements "rules" O) + 2) = Some script
    /\ get_path script ["use"; "options"; "presets"]
       = VArr (VStr (require_resolve env "@babel/preset-env") :: map clone presets)
    /\ (forallb plain presets = true ->
          get_path script ["use"; "options"; "presets"]
          = VArr (VStr (require_resolve env "@babel/preset-env") :: presets))
    /\ (lookup_prop "cacheDirectory" bps = None ->
          get_path script ["use"; "options"; "cacheDirectory"] = VBool true).
Proof.
  intros Hreal W Hb Ub Hp.
  assert (U : unique_keys O = true).
  { unfold well_typed in W. repeat (apply andb_true_iff in W as [W _]). exact W. }
  destruct (createWebpack_typed env dir real O Hreal W) as (cfg & H & _ & Hr).
  exists cfg. eexists. exists (script_rule env (merged env dir real (VObj O))).
  split; [exact H|]. split; [exact Hr|]. split; [|].
  - rewrite lookup_app_r by (rewrite length_map; lia).
    rewrite length_map, Nat.add_comm, Nat.add_sub. reflexivity.
  - assert (B : get (merged env dir real (VObj O)) "babel"
                = deepmerge (get (defaults env dir real) "babel") (VObj bps)).
    { unfold merged, defaults. rewrite get_deepmerge, Hb by exact U. reflexivity. }
    cbn [get_path script_rule get lookup_prop String.eqb Ascii.eqb Bool.eqb from_option id].
    fold (get (merged env dir real (VObj O)) "babel"). rewrite B.
    cbn [defaults get lookup_prop String.eqb Ascii.eqb Bool.eqb from_option id].
    assert (P : get (deepmerge
                       (VObj [("cacheDirectory", VBool true);
                              ("presets", VArr [resolve_module env "@babel/preset-env"]);
                              ("plugins",
                               VArr [resolve_module env "@babel/plugin-transform-runtime"])])
                       (VObj bps)) "presets"
                = VArr (VStr (require_resolve env "@babel/preset-env") :: map clone presets)).
    { rewrite get_deepmerge, Hp by exact Ub. unfold merge_value.
      cbn [get lookup_prop String.eqb Ascii.eqb Bool.eqb from_option id
             isMergeableObject truthy negb orb].
      rewrite deepmerge_array. reflexivity. }
    split; [exact P|]. split.
    + intros Hpl. rewrite P, map_clone_plain by exact Hpl. reflexivity.
    + intros Hc. rewrite get_deepmerge_absent by exact Hc. reflexivity.
Qed.

Lemma babel_presets_appended_witness :
  exists cfg rules script,
    createWebpack sample_env "/proj"
      (Some [("babel", VObj [("presets", VArr [VStr "preset-react"])])]) = Ok cfg
    /\ get_path cfg ["module"; "rules"] = VArr rules
    /\ rules !! 2 = Some script
    /\ get_path script ["use"; "options"; "presets"]
       = VArr [VStr "/opt/osjs-cli/node_modules/@babel/preset-env"; VStr "preset-react"].
Proof.
  destruct (babel_presets_appended sample_env "/proj" "/real/proj"
              [("babel", VObj [("presets", VArr [VStr "preset-react"])])]
              [("presets", VArr [VStr "preset-react"])] [VStr "preset-react"]
              eq_refl eq_refl eq_refl eq_refl eq_refl)
    as (cfg & rules & script & H & Hr & Hn & _ & Hp & _).
  exists cfg, rules, script. repeat split; [exact H | exact Hr | exact Hn | exact (Hp eq_refl)].
Defined.
(** X25.  The two loaders of the style rule, which is the second rule after
    those of the overrides: the sass loader is given the [includePaths] of
    the overrides, in their order; and both loaders are given the same
    [minimize] and [sourceMap], which are those of the overrides when they
    are booleans there, and the production flag when the overrides are
    silent.  The [includePaths] are there as the copies that the merge made,
    which are the paths themselves where they are data only, as strings
    are. *)
Theorem style_loaders_options (env : Env) (dir real : string) (O : props) :
  realpathSync env dir = inr real ->
  well_typed O = true ->
  exists cfg rules style css sass,
    createWebpack env dir (Some O) = Ok cfg
    /\ get_path cfg ["module"; "rules"] = VArr rules
    /\ rules !! (length (elements "rules" O) + 1) = Some style
    /\ get style "use" =
       VExt "ExtractTextPlugin.extract"
         [VObj [("fallback", VObj [("loader", VStr (require_resolve env "style-loader"))]);
                ("use", VArr [VObj [("loader", VStr (require_resolve env "css-loader"));
                                    ("options", css)];
                              VObj [("loader", VStr (require_resolve env "sass-loader"));
                                    ("options", sass)]])]]
    /\ get sass "includePaths" = VArr (map clone (elements "includePaths" O))
    /\ (forallb plain (elements "includePaths" O) = true ->
          get sass "includePaths" = VArr (elements "includePaths" O))
    /\ forall k, In k ["minimize"; "sourceMap"] ->
         get css k = get sass k
         /\ (lookup_prop k O = None -> get css k = VBool (production env))
         /\ (forall b, lookup_prop k O = Some (VBool b) -> get css k = VBool b).
Proof.
  intros Hreal W.
  assert (U : unique_keys O = true).
  { unfold well_typed in W. repeat (apply andb_true_iff in W as [W _]). exact W. }
  destruct (createWebpack_typed env dir real O Hreal W) as (cfg & H & _ & Hr).
  exists cfg. eexists.
  exists (style_rule env (merged env dir real (VObj O))
            (map clone (elements "includePaths" O))).
  do 2 eexists.
  split; [exact H|]. split; [exact Hr|].
  split; [|split; [reflexivity|split; [reflexivity|split]]].
  - rewrite lookup_app_r by (rewrite length_map; lia).
    rewrite length_map, Nat.add_comm, Nat.add_sub. reflexivity.
  - intros Hp. rewrite map_clone_plain by exact Hp. reflexivity.
  - intros k Hk. cbn [In] in Hk.
    assert (G : get (VObj [("minimize", get (merged env dir real (VObj O)) "minimize");
                           ("sourceMap", get (merged env dir real (VObj O)) "sourceMap")]) k
                = get (merged env dir real (VObj O)) k
                /\ get (VObj [("minimize", get (merged env dir real (VObj O)) "minimize");
                              ("sourceMap", get (merged env dir real (VObj O)) "sourceMap");
                              ("includePaths",
                               VArr (map clone (elements "includePaths" O)))]) k
                   = get (merged env dir real (VObj O)) k
                /\ get (defaults env dir real) k = VBool (production env)).
    { destruct Hk as [<-|[<-|[]]]; repeat split; reflexivity. }
    destruct G as (G1 & G2 & G3). rewrite G1, G2. split; [reflexivity|]. split.
    + intros A. rewrite (merged_absent env dir real O k A). exact G3.
    + intros b A. unfold merged, defaults. rewrite get_deepmerge, A by exact U. reflexivity.
Qed.

Lemma style_loaders_options_witness :
  exists cfg rules style css sass,
    createWebpack sample_env "/proj"
      (Some [("includePaths", VArr [VStr "/proj/node_modules"]); ("minimize", VBool true)])
    = Ok cfg
    /\ get_path cfg ["module"; "rules"] = VArr rules
    /\ rules !! 1 = Some style
    /\ get sass "includePaths" = VArr [VStr "/proj/node_modules"]
    /\ get css "minimize" = VBool true
    /\ get css "sourceMap" = VBool false.
Proof.
  destruct (style_loaders_options sample_env "/proj" "/real/proj"
              [("includePaths", VArr [VStr "/proj/node_modules"]); ("minimize", VBool true)]
              eq_refl eq_refl)
    as (cfg & rules & style & css & sass & H & Hr & Hn & Hu & _ & Hi & Hk).
  exists cfg, rules, style, css, sass.
  split; [exact H|]. split; [exact Hr|]. split; [exact Hn|].
  split; [exact (Hi eq_refl)|]. split.
  - exact (proj2 (proj2 (Hk "minimize" (or_introl eq_refl))) true eq_refl).
  - exact (proj1 (proj2 (Hk "sourceMap" (or_intror (or_introl eq_refl)))) eq_refl).
Defined.

(** *** [createWebpack]: how it throws, and what it passes through *)

Lemma push_html_throws (o : val) (e : exn) : push_html o = Throw e -> e = TypeError.
Proof.
  unfold push_html. destruct (get o "html"); cbn [getprop mbind result_bind];
    try (intros [= <-]; reflexivity);
    (destruct (truthy _); [|discriminate]);
    (destruct (get o "plugins"); cbn [push mbind result_bind];
     try discriminate; intros [= <-]; reflexivity).
Qed.

Lemma assemble_throws (env : Env) (dir : string) (options : val) (e : exn) :
  assemble env dir options = Throw e -> e = TypeError.
Proof.
  unfold assemble.
  destruct (get options "plugins"); cbn [spread mbind result_bind];
    try (intros [= <-]; reflexivity);
    (destruct (get options "rules"); cbn [spread mbind result_bind];
     try (intros [= <-]; reflexivity));
    (destruct (get options "includePaths"); cbn [spread mbind result_bind];
     try (intros [= <-]; reflexivity); discriminate).
Qed.

Lemma spread_not_iterable (v : val) : iterable v = false -> spread v = Throw TypeError.
Proof. destruct v; try reflexivity; discriminate. Qed.

Lemma assemble_not_iterable (env : Env) (dir : string) (options : val) (k : string) :
  In k ["plugins"; "rules"; "includePaths"] ->
  iterable (get options k) = false ->
  assemble env dir options = Throw TypeError.
Proof.
  intros Hk Hi. destruct (assemble env dir options) as [cfg|e] eqn:E.
  - exfalso.
    destruct (assemble_inv env dir options cfg E) as (pl & ru & ips & Hp & Hr & Hip & _).
    apply spread_not_iterable in Hi.
    cbn [In] in Hk. destruct Hk as [<-|[<-|[<-|[]]]]; congruence.
  - f_equal. eapply assemble_throws. exact E.
Qed.

(** The merged value of a field whose default is an empty array. *)
Lemma merged_not_iterable (env : Env) (dir real : string) (O : props) (k : string) (v : val) :
  unique_keys O = true ->
  get (defaults env dir real) k = VArr [] ->
  lookup_prop k O = Some v ->
  iterable v = false ->
  iterable (get (merged env dir real (VObj O)) k) = false.
Proof.
  intros U D Hk Hi. unfold merged, defaults in *. rewrite get_deepmerge, Hk by exact U.
  unfold merge_value. rewrite D. destruct v; try discriminate; reflexivity.
Qed.

(** X8: overrides of the wrong type make the call throw a [TypeError], once
    the directory is resolved: an [html] that is [null] or [undefined], and a
    [plugins], [rules] or [includePaths] that is neither an array nor a
    string. *)
Theorem ill_typed_overrides_throw (env : Env) (dir real : string) (O : props) :
  realpathSync env dir = inr real ->
  unique_keys O = true ->
  (forall v, lookup_prop "html" O = Some v -> v = VNull \/ v = VUndef ->
             createWebpack env dir (Some O) = Throw TypeError)
  /\ (forall k v, In k ["plugins"; "rules"; "includePaths"] ->
                  lookup_prop k O = Some v -> iterable v = false ->
                  createWebpack env dir (Some O) = Throw TypeError).
Proof.
  intros Hreal U. rewrite (createWebpack_unfold env dir real _ Hreal).
  change (default [] (Some O)) with O. split.
  - intros v Hh Hv.
    assert (G : get (merged env dir real (VObj O)) "html" = v).
    { unfold merged, defaults. rewrite get_deepmerge, Hh by exact U. unfold merge_value.
      destruct Hv as [-> | ->]; reflexivity. }
    unfold push_html. rewrite (force_devtool_get _ "html") by reflexivity. rewrite G.
    destruct Hv; subst v; reflexivity.
  - intros k v Hk Hl Hi.
    assert (D : get (defaults env dir real) k = VArr []).
    { cbn [In] in Hk. destruct Hk as [<-|[<-|[<-|[]]]]; reflexivity. }
    pose proof (merged_not_iterable env dir real O k v U D Hl Hi) as HM.
    destruct (push_html (force_devtool (merged env dir real (VObj O)))) as [F|e] eqn:HF.
    + cbn [mbind result_bind]. apply assemble_not_iterable with k; [exact Hk|].
      destruct (String.eqb k "plugins") eqn:Ek.
      * apply String.eqb_eq in Ek. subst k.
        (* a push would have needed an array *)
        unfold push_html in HF.
        destruct (getprop _ "template") as [t|]; [|discriminate].
        cbn [mbind result_bind] in HF. destruct (truthy t).
        -- rewrite force_devtool_get in HF by reflexivity.
           destruct (get (merged env dir real (VObj O)) "plugins"); discriminate.
        -- injection HF as <-. rewrite force_devtool_get by reflexivity. exact HM.
      * rewrite (push_html_get _ _ k HF Ek).
        rewrite force_devtool_get; [exact HM|].
        cbn [In] in Hk. destruct Hk as [<-|[<-|[<-|[]]]]; reflexivity.
    + cbn [mbind result_bind]. f_equal. eapply push_html_throws. exact HF.
Qed.

Lemma ill_typed_overrides_throw_witness :
  createWebpack sample_env "/proj" (Some [("rules", VObj [("test", VRegExp re_svg)])])
  = Throw TypeError.
Proof.
  apply (proj2 (ill_typed_overrides_throw sample_env "/proj" "/real/proj"
                  [("rules", VObj [("test", VRegExp re_svg)])] eq_refl eq_refl)
           "rules" (VObj [("test", VRegExp re_svg)])).
  - cbn [In]. auto.
  - reflexivity.
  - reflexivity.
Defined.

(** X9: the [entry] of the overrides goes through: the configuration has
    the copy that the merge made of it, which is the [entry] as it is where
    it is data only, as an object of paths and arrays of paths is; and
    without one the configuration has the empty object for [entry]. *)
Theorem entry_passed_through (env : Env) (dir real : string) (O : props) (cfg : val) :
  realpathSync env dir = inr real ->
  unique_keys O = true ->
  createWebpack env dir (Some O) = Ok cfg ->
  (forall entry, lookup_prop "entry" O = Some (VObj entry) -> unique_keys entry = true ->
                 get cfg "entry" = clone (VObj entry)
                 /\ (plain (VObj entry) = true -> get cfg "entry" = VObj entry))
  /\ (lookup_prop "entry" O = None -> get cfg "entry" = VObj []).
Proof.
  intros Hreal U H.
  destruct (createWebpack_inv env dir real (Some O) cfg Hreal H)
    as (F & pl & ru & ips & _ & _ & _ & _ & _ & _ & _ & _ & Hen & _).
  change (default [] (Some O)) with O in Hen. rewrite Hen. split.
  - intros entry He Ue. unfold merged, defaults. rewrite get_deepmerge, He by exact U.
    unfold merge_value.
    cbn [get lookup_prop String.eqb Ascii.eqb Bool.eqb from_option id
           isMergeableObject truthy negb orb].
    pose proof (clone_deepmerge (VObj entry) eq_refl Ue) as C.
    cbn [emptyTarget] in C. rewrite C. split; [reflexivity|]. apply clone_plain.
  - intros He. rewrite (merged_absent env dir real O "entry" He). reflexivity.
Qed.

Lemma entry_passed_through_witness :
  exists cfg,
    createWebpack sample_env "/proj"
      (Some [("entry", VObj [("main", VArr [VStr "./index.js"; VStr "./index.scss"])])])
    = Ok cfg
    /\ get cfg "entry" = VObj [("main", VArr [VStr "./index.js"; VStr "./index.scss"])].
Proof.
  eexists. split; [reflexivity|].
  refine (proj2 (proj1 (entry_passed_through sample_env "/proj" "/real/proj"
                   [("entry", VObj [("main", VArr [VStr "./index.js"; VStr "./index.scss"])])]
                   _ eq_refl eq_refl eq_refl) _ eq_refl eq_refl) eq_refl).
Defined.

(** A run of the heap-level function on the sample heap, against the
    function on trees. *)
Lemma createWebpack_refines_witness :
  fst (Store.createWebpack sample_env "/proj" (Some 2) sample_heap)
  = createWebpack sample_env "/proj"
      (Some [("plugins", VArr [VInst "DefinePlugin" [("definitions", VUndef)]]);
             ("html", VObj [("template", VStr "t.html")])]).
Proof.
  apply (Refinement.createWebpack_refines sample_env "/proj" (Some 2) sample_heap
           (Some [("plugins", VArr [VInst "DefinePlugin" [("definitions", VUndef)]]);
                  ("html", VObj [("template", VStr "t.html")])])).
  reflexivity.
Defined.
(** *** [filterInput] *)

Lemma chars_of_chars (l : list ascii) : chars (of_chars l) = l.
Proof. apply list_ascii_of_string_of_list_ascii. Qed.

Lemma of_chars_chars (s : string) : of_chars (chars s) = s.
Proof. apply string_of_list_ascii_of_string. Qed.

Lemma length_chars (s : string) : length (chars s) = String.length s.
Proof. induction s as [|c s IH]; simpl; congruence. Qed.

Lemma filter_kept_id (l : list ascii) :
  Forall (fun c => kept c = true) l -> List.filter kept l = l.
Proof.
  intros H. induction H as [|c l Hc _ IH]; simpl; [reflexivity|]. rewrite Hc, IH. reflexivity.
Qed.

Lemma filter_kept_all (l : list ascii) : Forall (fun c => kept c = true) (List.filter kept l).
Proof. apply List.Forall_forall. intros c Hc. apply List.filter_In in Hc. tauto. Qed.

Lemma kept_codes (c : ascii) :
  kept c = true <->
  (48 <= nat_of_ascii c <= 57) \/ (65 <= nat_of_ascii c <= 122).
Proof.
  assert (E : kept c = (Nat.leb 65 (nat_of_ascii c) && Nat.leb (nat_of_ascii c) 122)
                       || ((Nat.leb 48 (nat_of_ascii c) && Nat.leb (nat_of_ascii c) 57)
                           || (Nat.leb 95 (nat_of_ascii c) && Nat.leb (nat_of_ascii c) 95))).
  { unfold kept, RegExp.in_class, RegExp.in_range. cbn [existsb fst snd].
    rewrite orb_false_r.
    destruct (_ || _); reflexivity. }
  rewrite E, !orb_true_iff, !andb_true_iff, !Nat.leb_le. lia.
Qed.

Lemma filterInput_codes (input : string) :
  Forall (fun c => (48 <= nat_of_ascii c <= 57) \/ (65 <= nat_of_ascii c <= 122))
         (chars (filterInput input)).
Proof.
  rewrite filterInput_filter, chars_of_chars.
  eapply Forall_impl; [apply filter_kept_all|]. intros c. apply kept_codes.
Qed.

(** X11: what [filterInput] returns has only characters of the class that
    the expression spares, codes 48 to 57 and 65 to 122; filtering once more
    changes nothing; and the result is never longer than the input. *)
Theorem filterInput_result (input : string) :
  Forall (fun c => (48 <= nat_of_ascii c <= 57) \/ (65 <= nat_of_ascii c <= 122))
         (chars (filterInput input))
  /\ filterInput (filterInput input) = filterInput input
  /\ String.length (filterInput input) <= String.length input.
Proof.
  split; [apply filterInput_codes|]. rewrite !filterInput_filter, chars_of_chars. split.
  - rewrite (filter_kept_id _ (filter_kept_all _)). reflexivity.
  - rewrite <- !length_chars, chars_of_chars. apply List.filter_length_le.
Qed.

(** X12: the strings that [filterInput] returns unchanged are those whose
    characters all have codes 48 to 57 or 65 to 122; so a name of ASCII
    letters, digits and underscores is kept as it is. *)
Theorem filterInput_fixed_points (input : string) :
  filterInput input = input <->
  Forall (fun c => (48 <= nat_of_ascii c <= 57) \/ (65 <= nat_of_ascii c <= 122))
         (chars input).
Proof.
  split.
  - intros H. rewrite <- H. apply filterInput_codes.
  - intros H. rewrite filterInput_filter, filter_kept_id; [apply of_chars_chars|].
    eapply Forall_impl; [exact H|]. intros c. apply kept_codes.
Qed.

(** *** Resolved paths, [dirname] and [basename] *)

Lemma chars_append (a b : string) : chars (a +:+ b) = chars a ++ chars b.
Proof. induction a as [|c a IH]; sapp; simpl; [reflexivity|]. f_equal. exact IH. Qed.

Lemma of_chars_app (l1 l2 : list ascii) : of_chars (l1 ++ l2) = of_chars l1 +:+ of_chars l2.
Proof. induction l1 as [|c l IH]; simpl; sapp; [reflexivity|]. f_equal. exact IH. Qed.

Lemma no_slash_cons (c : ascii) (s : string) :
  no_slash (String c s) = negb (Posix.is_slash c) && no_slash s.
Proof. reflexivity. Qed.

Lemma segments_cons (s : string) : exists seg rest, Path.segments s = seg :: rest.
Proof.
  destruct s as [|c s]; simpl; [eauto|].
  destruct (Ascii.eqb c Path.slash); [eauto|].
  destruct (Path.segments s); eauto.
Qed.

Lemma segments_no_slash (s : string) :
  Forall (fun seg => no_slash seg = true) (Path.segments s).
Proof.
  induction s as [|c s IH]; simpl.
  - repeat constructor.
  - destruct (Ascii.eqb c Path.slash) eqn:E.
    + constructor; [reflexivity | exact IH].
    + destruct (Path.segments s) as [|seg rest].
      * repeat constructor. rewrite no_slash_cons. unfold Posix.is_slash. rewrite E. reflexivity.
      * inversion IH as [|? ? H1 H2]; subst. constructor; [|exact H2].
        rewrite no_slash_cons. unfold Posix.is_slash. rewrite E. exact H1.
Qed.

Lemma normalize_good (segs stack : list string) :
  Forall (fun seg => no_slash seg = true) segs ->
  Forall (fun seg => good_segment seg = true) stack ->
  Forall (fun seg => good_segment seg = true) (Path.normalize false stack segs).
Proof.
  revert stack. induction segs as [|seg rest IH]; intros stack Hs Hst; simpl.
  - apply List.Forall_rev. exact Hst.
  - inversion Hs as [|? ? H1 H2]; subst.
    destruct (String.eqb seg "") eqn:E1; simpl; [auto|].
    destruct (String.eqb seg ".") eqn:E2; simpl; [auto|].
    destruct (String.eqb seg "..") eqn:E3.
    + destruct stack as [|top stack']; [auto|].
      inversion Hst as [|? ? G1 G2]; subst.
      destruct (String.eqb top "..") eqn:E4.
      * unfold good_segment in G1. rewrite E4 in G1.
        rewrite andb_false_r in G1. discriminate.
      * auto.
    + apply IH; [exact H2|]. constructor; [|exact Hst].
      unfold good_segment. rewrite E1, E2, E3, H1. reflexivity.
Qed.

Lemma prepend_absolute (l : list string) (cwd acc : string) :
  Path.is_absolute cwd = true -> snd (Path.prepend l cwd acc) = true.
Proof.
  intros H. revert acc. induction l as [|p l IH]; intros acc; simpl.
  - destruct (String.eqb cwd "") eqn:E.
    + apply String.eqb_eq in E. subst cwd. discriminate.
    + exact H.
  - destruct (String.eqb p ""); [apply IH|].
    destruct (Path.is_absolute p); [reflexivity | apply IH].
Qed.

(** With an absolute working directory, [path.resolve] gives a slash
    followed by segments that are joined by slashes. *)
Lemma resolve_normal (cwd : string) (args : list string) :
  Path.is_absolute cwd = true ->
  exists segs, Forall (fun seg => good_segment seg = true) segs /\
               Path.resolve cwd args = "/" +:+ Path.join segs.
Proof.
  intros H. unfold Path.resolve.
  pose proof (prepend_absolute (rev args) cwd "" H) as A.
  destruct (Path.prepend (rev args) cwd "") as [p absolute]. simpl in A. subst absolute.
  simpl negb. eexists. split; [|reflexivity].
  apply normalize_good; [apply segments_no_slash | constructor].
Qed.

Lemma join_snoc (init : list string) (b : string) :
  init <> [] -> Path.join (init ++ [b]) = Path.join init +:+ "/" +:+ b.
Proof.
  unfold Path.join. induction init as [|a init IH]; [congruence|]. intros _.
  destruct init as [|a' init].
  - reflexivity.
  - change (String.concat "/" ((a :: a' :: init) ++ [b]))
      with (a +:+ "/" +:+ String.concat "/" ((a' :: init) ++ [b])).
    rewrite IH by discriminate.
    change (String.concat "/" (a :: a' :: init))
      with (a +:+ "/" +:+ String.concat "/" (a' :: init)).
    rewrite !append_assoc. reflexivity.
Qed.

Lemma dirname_end_no_slash (r : list ascii) (m : bool) :
  forallb (fun c => negb (Posix.is_slash c)) r = true -> Posix.dirname_end r m = None.
Proof.
  revert m. induction r as [|c r IH]; intros m; simpl; [reflexivity|].
  intros H. apply andb_true_iff in H as [H1 H2].
  destruct (Posix.is_slash c); [discriminate|]. auto.
Qed.

Lemma dirname_end_slash (r1 r2 : list ascii) (m : bool) :
  forallb (fun c => negb (Posix.is_slash c)) r1 = true ->
  (r1 = [] -> m = false) ->
  Posix.dirname_end (r1 ++ Path.slash :: r2) m = Some (S (length r2)).
Proof.
  revert m. induction r1 as [|c r1 IH]; intros m H Hm; simpl.
  - rewrite (Hm eq_refl). reflexivity.
  - simpl in H. apply andb_true_iff in H as [H1 H2].
    destruct (Posix.is_slash c); [discriminate|]. apply IH; auto.
Qed.

Lemma basename_scan_slash (r1 r2 : list ascii) (e : nat) :
  forallb (fun c => negb (Posix.is_slash c)) r1 = true ->
  Posix.basename_scan (r1 ++ Path.slash :: r2) false (Some e) = (S (length r2), Some e).
Proof.
  induction r1 as [|c r1 IH]; intros H; simpl.
  - reflexivity.
  - simpl in H. apply andb_true_iff in H as [H1 H2].
    destruct (Posix.is_slash c); [discriminate|]. auto.
Qed.

Lemma forallb_rev {A} (f : A -> bool) (l : list A) : forallb f (rev l) = forallb f l.
Proof.
  induction l as [|a l IH]; simpl; [reflexivity|].
  rewrite forallb_app, IH. simpl. rewrite andb_true_r. apply andb_comm.
Qed.

(** [dirname] and [basename] of a directory and a name put together. *)
Lemma dirname_basename_join (d b : string) :
  b <> "" -> no_slash b = true -> is_suffix "/" d = false ->
  Posix.dirname (d +:+ "/" +:+ b) = (if String.eqb d "" then "/" else d) /\
  Posix.basename (d +:+ "/" +:+ b) = b.
Proof.
  intros Hb Hn Hd.
  assert (Hr : forallb (fun c => negb (Posix.is_slash c)) (rev (chars b)) = true)
    by (rewrite forallb_rev; exact Hn).
  assert (Hne : rev (chars b) <> []).
  { destruct b as [|c b]; [congruence|]. simpl. intros E.
    apply (f_equal (@length _)) in E. rewrite length_app in E. simpl in E. lia. }
  split.
  - unfold Posix.dirname. rewrite chars_append. change (chars ("/" +:+ b)) with (Path.slash :: chars b).
    destruct d as [|c0 d]; simpl chars.
    + simpl. rewrite dirname_end_no_slash by exact Hr. reflexivity.
    + cbn [app]. rewrite rev_app_distr. cbn [rev]. rewrite <- app_assoc. cbn [app].
      rewrite dirname_end_slash; [|exact Hr|intros E; contradiction].
      rewrite length_rev.
      assert (E1 : Posix.is_slash c0 && Nat.eqb (S (length (chars d))) 1 = false).
      { destruct (Posix.is_slash c0) eqn:S0; [|reflexivity]. simpl.
        destruct d as [|c1 d]; [|reflexivity].
        unfold Posix.is_slash in S0. apply Ascii.eqb_eq in S0. subst c0. discriminate. }
      rewrite E1. cbn [firstn].
      rewrite firstn_app, firstn_all, Nat.sub_diag. cbn [firstn]. rewrite app_nil_r.
      change (String c0 (of_chars (chars d)) = String c0 d). rewrite of_chars_chars. reflexivity.
  - unfold Posix.basename. rewrite chars_append. change (chars ("/" +:+ b)) with (Path.slash :: chars b).
    rewrite rev_app_distr. cbn [rev]. rewrite <- app_assoc. cbn [app].
    destruct (rev (chars b)) as [|c r1] eqn:E; [congruence|].
    cbn [app Posix.basename_scan].
    cbn [forallb] in Hr. apply andb_true_iff in Hr as [H1 H2].
    destruct (Posix.is_slash c); [discriminate|].
    rewrite basename_scan_slash by exact H2.
    assert (L : length r1 = length (chars b) - 1).
    { apply (f_equal (@length _)) in E. rewrite length_rev in E. simpl in E. lia. }
    assert (L2 : length (chars b) <> 0).
    { apply (f_equal (@length _)) in E. rewrite length_rev in E. simpl in E. lia. }
    replace (S (length (r1 ++ Path.slash :: rev (chars d))))
      with (length (chars d ++ Path.slash :: chars b))
      by (rewrite !length_app; cbn [length]; rewrite length_rev; lia).
    rewrite firstn_all.
    replace (S (length (rev (chars d)))) with (length (chars d ++ [Path.slash]))
      by (rewrite length_app, length_rev; simpl; lia).
    change (chars d ++ Path.slash :: chars b) with (chars d ++ [Path.slash] ++ chars b).
    rewrite (app_assoc (chars d) [Path.slash] (chars b)), drop_app_length.
    apply of_chars_chars.
Qed.

Lemma no_slash_append (a b : string) : no_slash (a +:+ b) = no_slash a && no_slash b.
Proof. unfold no_slash. rewrite chars_append. apply forallb_app. Qed.

Lemma no_slash_suffix (pre b : string) :
  b <> "" -> no_slash b = true -> is_suffix "/" (pre +:+ b) = false.
Proof.
  intros Hb Hn. destruct (is_suffix "/" (pre +:+ b)) eqn:E; [|reflexivity].
  apply is_suffix_spec in E as [pre' E].
  apply (f_equal chars) in E. rewrite !chars_append in E.
  apply (f_equal (@rev _)) in E. rewrite !rev_app_distr in E. simpl in E.
  destruct b as [|c b]; [congruence|].
  assert (R : forallb (fun c => negb (Posix.is_slash c)) (rev (chars (String c b))) = true)
    by (rewrite forallb_rev; exact Hn).
  destruct (rev (chars (String c b))) as [|x r] eqn:Er.
  - apply (f_equal (@length _)) in Er. rewrite length_rev in Er. discriminate.
  - simpl in E. injection E as -> _. discriminate.
Qed.

Lemma no_slash_infix (b : string) : no_slash b = true -> is_infix "/" b = false.
Proof.
  intros H. destruct (is_infix "/" b) eqn:E; [|reflexivity].
  apply is_infix_spec in E as [x [y ->]].
  rewrite !no_slash_append in H. simpl in H. rewrite andb_false_r in H. discriminate.
Qed.

Lemma good_segment_inv (seg : string) :
  good_segment seg = true -> seg <> "" /\ no_slash seg = true.
Proof.
  unfold good_segment. rewrite !andb_true_iff, negb_true_iff. intros [[[H _] _] H2].
  split; [|exact H2]. intros ->. discriminate.
Qed.

Lemma snoc_cases {A} (l : list A) : l = [] \/ exists init b, l = init ++ [b].
Proof.
  induction l as [|a l IH] using rev_ind; [left; reflexivity|]. right. eauto.
Qed.

Lemma resolved_split (cwd : string) (args : list string) :
  Path.is_absolute cwd = true ->
  Path.resolve cwd args = "/" \/
  exists d b, Path.resolve cwd args = d +:+ "/" +:+ b /\
              b <> "" /\ no_slash b = true /\ is_suffix "/" d = false.
Proof.
  intros H. destruct (resolve_normal cwd args H) as [segs [G E]]. rewrite E.
  destruct (snoc_cases segs) as [-> | [init [b ->]]]; [left; reflexivity|]. right.
  apply Forall_app in G as [Gi Gb]. inversion Gb as [|? ? Hb _]; subst.
  apply good_segment_inv in Hb as [Hb1 Hb2].
  destruct (snoc_cases init) as [-> | [init' [x ->]]].
  - exists "", b. repeat split; auto.
  - exists ("/" +:+ Path.join (init' ++ [x])), b.
    rewrite join_snoc by (destruct init'; discriminate).
    rewrite !append_assoc. repeat split; auto.
    apply Forall_app in Gi as [_ Gx]. inversion Gx as [|? ? Hx _]; subst.
    apply good_segment_inv in Hx as [Hx1 Hx2].
    destruct (snoc_cases init') as [-> | [i [y ->]]].
    + apply (no_slash_suffix "/" x); assumption.
    + rewrite join_snoc by (destruct i; discriminate).
      rewrite <- !append_assoc. apply no_slash_suffix; assumption.
Qed.

(** X13. With an absolute working directory, a resolved path other than
    the root is its [dirname], a slash and its [basename]; the [basename]
    is not empty and holds no slash.  So the directory that [scaffoldBasic]
    ensures is the one that holds the file it writes, and the name it
    logs is the last segment of the destination. *)
Theorem resolved_dirname_basename (cwd : string) (args : list string) :
  Path.is_absolute cwd = true ->
  Path.resolve cwd args <> "/" ->
  (if String.eqb (Posix.dirname (Path.resolve cwd args)) "/" then "/"
   else Posix.dirname (Path.resolve cwd args) +:+ "/")
  +:+ Posix.basename (Path.resolve cwd args) = Path.resolve cwd args /\
  Posix.basename (Path.resolve cwd args) <> "" /\
  is_infix "/" (Posix.basename (Path.resolve cwd args)) = false.
Proof.
  intros H N. destruct (resolved_split cwd args H) as [E | [d [b [E [Hb [Hn Hd]]]]]];
    [contradiction|].
  rewrite E. destruct (dirname_basename_join d b Hb Hn Hd) as [D B]. rewrite D, B.
  split; [|split; [exact Hb | apply no_slash_infix; exact Hn]].
  destruct (String.eqb d "") eqn:E0.
  - apply String.eqb_eq in E0. subst d. reflexivity.
  - destruct (String.eqb d "/") eqn:E1.
    + apply String.eqb_eq in E1. subst d. discriminate.
    + rewrite append_assoc. reflexivity.
Qed.

Lemma resolved_dirname_basename_witness :
  Posix.dirname (Path.resolve "/home/u" ["/proj"; "src/client/auth/my-auth.js"])
    = "/proj/src/client/auth" /\
  ("/proj/src/client/auth" +:+ "/")
  +:+ Posix.basename (Path.resolve "/home/u" ["/proj"; "src/client/auth/my-auth.js"])
  = Path.resolve "/home/u" ["/proj"; "src/client/auth/my-auth.js"].
Proof.
  split; [reflexivity|].
  exact (proj1 (resolved_dirname_basename "/home/u" ["/proj"; "src/client/auth/my-auth.js"]
                  eq_refl ltac:(vm_compute; discriminate))).
Defined.

Lemma segments_append_slash (a b : string) :
  Path.segments (a +:+ "/" +:+ b) = Path.segments a ++ Path.segments b.
Proof.
  induction a as [|c a IH]; sapp; [reflexivity|].
  cbn [Path.segments]. destruct (Ascii.eqb c Path.slash).
  - rewrite IH. reflexivity.
  - rewrite IH. destruct (segments_cons a) as [seg [rest ->]]. reflexivity.
Qed.

Lemma segments_append_slash' (a b : string) :
  Path.segments (a +:+ String "/" b) = Path.segments a ++ Path.segments b.
Proof. apply segments_append_slash. Qed.

Lemma segments_one (s : string) : no_slash s = true -> Path.segments s = [s].
Proof.
  induction s as [|c s IH]; [reflexivity|]. rewrite no_slash_cons.
  intros H. apply andb_true_iff in H as [H1 H2]. cbn [Path.segments].
  unfold Posix.is_slash in H1. apply negb_true_iff in H1. rewrite H1, IH by exact H2.
  reflexivity.
Qed.

Lemma segments_join (segs : list string) :
  Forall (fun seg => no_slash seg = true) segs -> segs <> [] ->
  Path.segments (Path.join segs) = segs.
Proof.
  induction 1 as [|x l Hx Hl IH]; [congruence|]. intros _.
  destruct l as [|y l].
  - apply segments_one. exact Hx.
  - change (Path.join (x :: y :: l)) with (x +:+ "/" +:+ Path.join (y :: l)).
    rewrite segments_append_slash, segments_one, IH by (auto; discriminate). reflexivity.
Qed.

Lemma normalize_kept (segs stack : list string) :
  Forall (fun seg => seg = "" \/ good_segment seg = true) segs ->
  Path.normalize false stack segs
  = rev stack ++ List.filter (fun seg => negb (String.eqb seg "")) segs.
Proof.
  intros H. revert stack. induction H as [|seg rest Hs _ IH]; intros stack; cbn [Path.normalize List.filter].
  - rewrite app_nil_r. reflexivity.
  - destruct Hs as [-> | G].
    + simpl. apply IH.
    + unfold good_segment in G. rewrite !andb_true_iff, !negb_true_iff in G.
      destruct G as [[[G1 G2] G3] _]. rewrite G1, G2, G3. cbn [orb negb].
      rewrite IH. cbn [rev]. rewrite <- app_assoc. reflexivity.
Qed.

Lemma filter_good (segs : list string) :
  Forall (fun seg => good_segment seg = true) segs ->
  List.filter (fun seg => negb (String.eqb seg "")) segs = segs.
Proof.
  induction 1 as [|x l Hx _ IH]; [reflexivity|]. cbn [List.filter].
  unfold good_segment in Hx. rewrite !andb_true_iff in Hx.
  destruct Hx as [[[-> _] _] _]. rewrite IH. reflexivity.
Qed.

Lemma good_not_absolute (f : string) : good_segment f = true -> Path.is_absolute f = false.
Proof.
  intros G. apply good_segment_inv in G as [_ G]. destruct f as [|c f]; [reflexivity|].
  rewrite no_slash_cons in G. apply andb_true_iff in G as [G _].
  apply negb_true_iff in G. exact G.
Qed.

Lemma join_nonempty (segs : list string) :
  Forall (fun seg => good_segment seg = true) segs -> segs <> [] -> Path.join segs <> "".
Proof.
  intros H N. destruct H as [|x l Hx _]; [congruence|].
  apply good_segment_inv in Hx as [Hx _].
  destruct x as [|c x]; [congruence|]. destruct l; discriminate.
Qed.

Lemma resolve_child (cwd : string) (segs : list string) (f : string) :
  Forall (fun seg => good_segment seg = true) segs -> good_segment f = true ->
  Path.resolve cwd ["/" +:+ Path.join segs; f] = "/" +:+ Path.join (segs ++ [f]).
Proof.
  intros G Gf. unfold Path.resolve. cbn [rev app Path.prepend].
  destruct (good_segment_inv f Gf) as [Hf Hn].
  assert (E1 : String.eqb f "" = false) by (apply String.eqb_neq; exact Hf).
  rewrite E1, (good_not_absolute f Gf). sapp. cbn [String.eqb Path.is_absolute].
  change (Ascii.eqb "/" Path.slash) with true. cbn iota. cbn [negb].
  assert (Gn : Forall (fun seg => no_slash seg = true) segs).
  { eapply Forall_impl; [exact G|]. intros s Hs. apply (good_segment_inv s Hs). }
  match goal with
  | |- context [Path.segments ?p] =>
      assert (S : Path.segments p = "" :: Path.segments (Path.join segs) ++ [f; ""])
  end.
  { cbn [Path.segments]. change (Ascii.eqb "/" Path.slash) with true. cbn iota.
    rewrite segments_append_slash', segments_append_slash', (segments_one f Hn). reflexivity. }
  rewrite S. f_equal. f_equal.
  assert (J : Path.segments (Path.join segs) = segs \/
              (segs = [] /\ Path.segments (Path.join segs) = [""])).
  { destruct segs as [|x l]; [right; split; reflexivity|].
    left. apply segments_join; [exact Gn | discriminate]. }
  rewrite normalize_kept.
  - cbn [rev app List.filter String.eqb negb]. rewrite List.filter_app.
    cbn [List.filter String.eqb negb]. rewrite E1. cbn [negb].
    destruct J as [-> | [-> ->]]; [|reflexivity].
    rewrite filter_good by exact G. reflexivity.
  - constructor; [left; reflexivity|]. apply Forall_app. split.
    + destruct J as [-> | [-> ->]].
      * eapply Forall_impl; [exact G|]. intros s Hs. right. exact Hs.
      * constructor; [left; reflexivity | constructor].
    + constructor; [right; exact Gf|]. constructor; [left; reflexivity | constructor].
Qed.

(** X14. With an absolute working directory, resolving a file name (a
    segment without slash, other than [.] and [..]) against a resolved
    directory puts the name right under that directory: so the files of
    [scaffoldPackage] lie directly in the destination that was ensured. *)
Theorem resolved_child (cwd : string) (args : list string) (f : string) :
  Path.is_absolute cwd = true -> good_segment f = true ->
  Path.resolve cwd [Path.resolve cwd args; f]
  = (if String.eqb (Path.resolve cwd args) "/" then "" else Path.resolve cwd args)
    +:+ "/" +:+ f /\
  Posix.dirname (Path.resolve cwd [Path.resolve cwd args; f]) = Path.resolve cwd args /\
  Posix.basename (Path.resolve cwd [Path.resolve cwd args; f]) = f.
Proof.
  intros H Gf. destruct (resolve_normal cwd args H) as [segs [G E]]. rewrite E.
  rewrite (resolve_child cwd segs f G Gf).
  destruct (good_segment_inv f Gf) as [Hf Hn].
  destruct segs as [|x l].
  - cbn [app Path.join String.concat]. change ("/" +:+ "") with "/". cbn [String.eqb Ascii.eqb].
    change (Ascii.eqb "/" "/") with true. cbn iota.
    destruct (dirname_basename_join "" f Hf Hn eq_refl) as [D B]. auto.
  - rewrite join_snoc by discriminate.
    assert (N : String.eqb ("/" +:+ Path.join (x :: l)) "/" = false).
    { apply String.eqb_neq. intros E0. sapp. injection E0 as E0.
      apply (join_nonempty (x :: l) G); [discriminate | exact E0]. }
    rewrite N, <- !append_assoc.
    assert (Sx : is_suffix "/" ("/" +:+ Path.join (x :: l)) = false).
    { destruct (snoc_cases (x :: l)) as [E0 | [init [b E0]]]; [discriminate|].
      rewrite E0 in *. apply Forall_app in G as [_ Gb]. inversion Gb as [|? ? Hb _]; subst.
      apply good_segment_inv in Hb as [Hb1 Hb2].
      destruct (snoc_cases init) as [-> | [i [y ->]]].
      - apply (no_slash_suffix "/" b); assumption.
      - rewrite join_snoc by (destruct i; discriminate).
        rewrite <- !append_assoc. apply no_slash_suffix; assumption. }
    destruct (dirname_basename_join ("/" +:+ Path.join (x :: l)) f Hf Hn Sx) as [D B].
    rewrite <- !append_assoc in D, B. rewrite D, B.
    split; [reflexivity|]. split; [|reflexivity].
    destruct (String.eqb ("/" +:+ Path.join (x :: l)) "") eqn:E0; [|reflexivity].
    apply String.eqb_eq in E0. discriminate.
Qed.

Lemma resolved_child_witness :
  Path.resolve "/home/u" [Path.resolve "/home/u" ["/proj"; "src/packages/MyApp"]; "index.js"]
  = "/proj/src/packages/MyApp/index.js" /\
  Forall (fun f => good_segment f = true) Scaffold.files.
Proof.
  split.
  - exact (proj1 (resolved_child "/home/u" ["/proj"; "src/packages/MyApp"] "index.js"
                    eq_refl eq_refl)).
  - repeat constructor.
Defined.

(** *** Replacing a literal *)

Lemma expand_plain (repl : list ascii) (matched before after : string) :
  forallb (fun c => negb (Ascii.eqb c "$")) repl = true ->
  expand repl matched before after = of_chars repl.
Proof.
  induction repl as [|c r IH]; [reflexivity|]. intros H.
  cbn [forallb] in H. apply andb_true_iff in H as [H1 H2].
  apply negb_true_iff in H1.
  assert (E : expand (c :: r) matched before after = String c (expand r matched before after)).
  { cbn [expand]. destruct c as [[] [] [] [] [] [] [] []]; try reflexivity.
    discriminate H1. }
  rewrite E, IH by exact H2. reflexivity.
Qed.

Lemma replace_from_before (pat : string) (repl : list ascii) (s : string) (skip : nat)
    (b1 b2 : list ascii) :
  forallb (fun c => negb (Ascii.eqb c "$")) repl = true ->
  replace_from pat repl s skip b1 = replace_from pat repl s skip b2.
Proof.
  intros H. revert skip b1 b2. induction s as [|c s IH]; intros skip b1 b2; [reflexivity|].
  cbn [replace_from]. destruct skip as [|n]; [|apply IH].
  destruct (strip_prefix pat (String c s)).
  - rewrite !expand_plain by exact H. f_equal. apply IH.
  - f_equal. apply IH.
Qed.

Lemma replace_from_skip (pat : string) (repl : list ascii) (w s : string) (before : list ascii) :
  replace_from pat repl (w +:+ s) (String.length w) before
  = replace_from pat repl s 0 (rev (chars w) ++ before).
Proof.
  revert before. induction w as [|c w IH]; intros before; sapp; [reflexivity|].
  cbn [replace_from String.length]. rewrite IH. simpl. rewrite <- app_assoc. reflexivity.
Qed.

Lemma replace_from_absent (pat : string) (repl : list ascii) (s : string) (before : list ascii) :
  is_infix pat s = false -> replace_from pat repl s 0 before = s.
Proof.
  revert before. induction s as [|c s IH]; intros before H; [reflexivity|].
  cbn [is_infix] in H. apply orb_false_iff in H as [H1 H2].
  cbn [replace_from]. unfold is_prefix in H1.
  destruct (strip_prefix pat (String c s)); [discriminate|].
  f_equal. apply IH. exact H2.
Qed.

Lemma replace_all_absent (pat repl s : string) :
  is_infix pat s = false -> replace_all pat repl s = s.
Proof. apply replace_from_absent. Qed.

Lemma replace_all_match (pat repl rest : string) :
  pat <> "" -> plain_text repl = true ->
  replace_all pat repl (pat +:+ rest) = repl +:+ replace_all pat repl rest.
Proof.
  intros Hp H. unfold replace_all. destruct pat as [|c pat]; [congruence|]. sapp.
  cbn [replace_from].
  change (String c (pat +:+ rest)) with (String c pat +:+ rest).
  rewrite strip_prefix_app, expand_plain, of_chars_chars by exact H.
  f_equal. replace (String.length (String c pat) - 1) with (String.length pat)
    by (cbn [String.length]; lia).
  rewrite replace_from_skip.
  apply replace_from_before. exact H.
Qed.

Lemma replace_all_other (pat repl : string) (c : ascii) (rest : string) :
  plain_text repl = true -> is_prefix pat (String c rest) = false ->
  replace_all pat repl (String c rest) = String c (replace_all pat repl rest).
Proof.
  intros H N. unfold replace_all. cbn [replace_from].
  unfold is_prefix in N. destruct (strip_prefix pat (String c rest)); [discriminate|].
  f_equal. apply replace_from_before. exact H.
Qed.

Lemma kept_not_dollar (c : ascii) : kept c = true -> Ascii.eqb c "$" = false.
Proof.
  intros H. destruct (Ascii.eqb c "$") eqn:E; [|reflexivity].
  apply Ascii.eqb_eq in E. subst c. discriminate.
Qed.

(** *** The name of a package *)

Lemma filter_nil_iff {A} (f : A -> bool) (l : list A) :
  List.filter f l = [] <-> Forall (fun x => f x = false) l.
Proof.
  induction l as [|x l IH]; cbn [List.filter].
  - split; [constructor | reflexivity].
  - destruct (f x) eqn:E.
    + split; [discriminate|]. intros H. inversion H; congruence.
    + rewrite IH. split; [intros H; constructor; assumption|].
      intros H. inversion H; assumption.
Qed.

Lemma of_chars_nil_iff (l : list ascii) : of_chars l = "" <-> l = [].
Proof. destruct l; split; intros H; try reflexivity; discriminate. Qed.

Lemma filterInput_plain_text (input : string) : plain_text (filterInput input) = true.
Proof.
  unfold plain_text. rewrite filterInput_filter, chars_of_chars.
  apply forallb_forall. intros c Hc. apply List.filter_In in Hc as [_ Hc].
  rewrite (kept_not_dollar c Hc). reflexivity.
Qed.

(** X15. The question for the name of a package, where the answer is
    filtered and then validated: an input is turned down as invalid exactly
    when the filter keeps none of its characters; and a name that is
    accepted is not empty, differs from the names of the packages found,
    and holds no dollar sign. *)
Theorem name_question (packages : list Scaffold.package) (input : string) :
  (Scaffold.validate packages (filterInput input) = inl "Invalid package name" <->
   Forall (fun c => kept c = false) (chars input)) /\
  (Scaffold.validate packages (filterInput input) = inr tt ->
   filterInput input <> "" /\
   Forall (fun p => Scaffold.meta_name p <> filterInput input) packages /\
   plain_text (filterInput input) = true).
Proof.
  unfold Scaffold.validate.
  assert (L : Nat.ltb (String.length (filterInput input)) 1 = true <->
              Forall (fun c => kept c = false) (chars input)).
  { rewrite Nat.ltb_lt, <- filter_nil_iff, <- of_chars_nil_iff, <- filterInput_filter.
    destruct (filterInput input); simpl; split; intros H; try reflexivity;
      try discriminate; lia. }
  split.
  - destruct (Nat.ltb (String.length (filterInput input)) 1) eqn:E.
    + split; [intros _; apply L; reflexivity | reflexivity].
    + split.
      * destruct (find _ packages); discriminate.
      * intros H. apply L in H. discriminate.
  - destruct (Nat.ltb (String.length (filterInput input)) 1) eqn:E; [discriminate|].
    destruct (find _ packages) eqn:F; [discriminate|]. intros _.
    split; [|split; [|apply filterInput_plain_text]].
    + intros E0. rewrite E0 in E. discriminate.
    + apply List.Forall_forall. intros p Hp E0.
      apply (find_none _ _ F) in Hp. rewrite E0, String.eqb_refl in Hp. discriminate.
Qed.

Lemma name_question_witness :
  Scaffold.validate [ {| Scaffold.meta_name := "Calculator" |} ] (filterInput "My App!") = inr tt /\
  filterInput "My App!" <> "".
Proof.
  split; [reflexivity|].
  exact (proj1 (proj2 (name_question [ {| Scaffold.meta_name := "Calculator" |} ] "My App!")
                  eq_refl)).
Defined.

(** X16. Replacing [___NAME___] by a name that holds no dollar sign, as
    every filtered name: a text without the marker is unchanged; a marker
    at the front gives the name itself, and the rest of the text is
    treated in turn; a character that does not start a marker is copied. *)
Theorem substitution_literal (name : string) :
  plain_text name = true ->
  (forall raw, is_infix "___NAME___" raw = false ->
     replace_all "___NAME___" name raw = raw) /\
  (forall rest,
     replace_all "___NAME___" name ("___NAME___" +:+ rest)
     = name +:+ replace_all "___NAME___" name rest) /\
  (forall c rest, is_prefix "___NAME___" (String c rest) = false ->
     replace_all "___NAME___" name (String c rest)
     = String c (replace_all "___NAME___" name rest)).
Proof.
  intros H. split; [|split].
  - intros raw. apply replace_all_absent.
  - intros rest. apply replace_all_match; [discriminate | exact H].
  - intros c rest. apply replace_all_other. exact H.
Qed.

Lemma substitution_literal_witness :
  plain_text (filterInput "My App!") = true /\
  replace_all "___NAME___" (filterInput "My App!") ("___NAME___" +:+ ".js")
  = filterInput "My App!" +:+ ".js".
Proof.
  split; [reflexivity|].
  exact (proj1 (proj2 (substitution_literal (filterInput "My App!") eq_refl)) ".js").
Defined.

(** *** The tasks of [scaffold.js] *)

Module TaskFacts.
Import Scaffold.

(** One event of a run: the handler fails or answers. *)
Ltac step H :=
  match type of H with
  | context [?h ?X ?ev ?w] =>
      match type of h with
      | handler _ =>
          destruct (h X ev w) as [[?|?] ?]; cbn in H;
          repeat match goal with u : unit |- _ => destruct u end
      end
  end.

Ltac finish H := injection H as <- <- <-.

Ltac branch H :=
  match type of H with
  | context [if negb ?b then _ else _] => destruct b eqn:?; cbn in H
  | context [if ?b then _ else _] => destruct b eqn:?; cbn in H
  end.

Ltac run_all H := first [finish H | step H; run_all H | branch H; run_all H | idtac].

Ltac found := simpl; eauto 12.

(** The members of a trace that is known. *)
Ltac members Hin tac :=
  cbn [In] in Hin; repeat (destruct Hin as [<- | Hin]; [tac|]); try contradiction.

(** The positions of a trace that is known. *)
Ltac positions E tac :=
  lazymatch type of E with
  | [] = ?pre ++ _ :: _ => destruct pre; discriminate E
  | _ :: _ = ?pre ++ _ :: _ =>
      let x := fresh "x" in
      destruct pre as [|x pre]; cbn [app] in E;
      [ injection E as <- <-; tac
      | injection E as <- E; positions E tac ]
  end.

Section Tasks.

Variable cwd : string.
Variable __dirname : string.

Abbreviation destination root a := (Path.resolve cwd [root; target a]).
Abbreviation source s a :=
  (Path.resolve cwd [templates cwd __dirname; dirname s; type a +:+ ".js"]).

(** X17. [scaffoldBasic] calls no function of [fs-extra] before the user
    has confirmed, and changes nothing in the file system before it has
    seen that the destination does not exist. *)
Theorem scaffoldBasic_guarded {W} (h : handler W) (w w' : W) (type_ root : string)
    (s : scaffold) (o : failure + unit) (tr : list entry) :
  lookup_scaffold scaffolds type_ = Some s ->
  run h (scaffoldBasic cwd __dirname type_ root) w = (o, w', tr) ->
  forall pre e post, tr = pre ++ e :: post ->
    (fs_access e = true ->
     exists a, In (Did (PromptBasic (questions type_ s)) (inr a)) pre /\ confirm a = true) /\
    (mutates e = true ->
     exists a, In (Did (PromptBasic (questions type_ s)) (inr a)) pre /\
               In (Did (Exists (destination root a)) (inr false)) pre).
Proof.
  intros Hs H. unfold scaffoldBasic in H. rewrite Hs in H. cbn in H.
  run_all H; intros pre e post E;
    positions E ltac:(split; intros A; try discriminate A; eexists; split; found).
Qed.

(** X18. What [scaffoldBasic] writes: one file at most, at the destination
    resolved from the root and the answer, holding the [info] of the
    scaffold as a comment followed by the template it has read; the
    directory of the destination was ensured before. *)
Theorem scaffoldBasic_writes {W} (h : handler W) (w w' : W) (type_ root : string)
    (s : scaffold) (o : failure + unit) (tr : list entry) :
  lookup_scaffold scaffolds type_ = Some s ->
  run h (scaffoldBasic cwd __dirname type_ root) w = (o, w', tr) ->
  forall pre e post path contents,
    tr = pre ++ e :: post -> write_of e = Some (path, contents) ->
    exists a raw,
      In (Did (PromptBasic (questions type_ s)) (inr a)) pre /\
      path = destination root a /\
      contents = "/*" +:+ info s +:+ "*/" +:+ raw /\
      In (Did (ReadFile (source s a) "utf8") (inr raw)) pre /\
      In (Did (EnsureDir (Posix.dirname (destination root a))) (inr tt)) pre /\
      Forall (fun e' => write_of e' = None) (pre ++ post).
Proof.
  intros Hs H. unfold scaffoldBasic in H. rewrite Hs in H. cbn in H.
  run_all H; intros pre e post path contents E;
    positions E ltac:(intros A; try discriminate A; injection A as <- <-;
                      do 2 eexists; repeat split;
                      first [solve [found] | solve [repeat constructor]]).
Qed.

(** X19. How [scaffoldBasic] ends.  When the destination exists it fails
    with [Destination already exists!] and has changed nothing; when the
    user declines it has called no function of [fs-extra]; when it returns
    normally the user has declined or the file is written and reported;
    and a failure is that of an event, unless it is the error above. *)
Theorem scaffoldBasic_outcome {W} (h : handler W) (w w' : W) (type_ root : string)
    (s : scaffold) (o : failure + unit) (tr : list entry) :
  lookup_scaffold scaffolds type_ = Some s ->
  run h (scaffoldBasic cwd __dirname type_ root) w = (o, w', tr) ->
  (forall e path, In e tr -> found_of e = Some path ->
     o = inl (Error "Destination already exists!") /\
     Forall (fun e' => mutates e' = false) tr) /\
  (forall e a, In e tr -> answers_of e = Some a -> confirm a = false ->
     Forall (fun e' => fs_access e' = false) tr) /\
  (o = inr tt ->
     (exists a, In (Did (PromptBasic (questions type_ s)) (inr a)) tr /\ confirm a = false) \/
     (exists a raw,
        In (Did (WriteFile (destination root a) ("/*" +:+ info s +:+ "*/" +:+ raw)) (inr tt)) tr /\
        In (Did (LoggerSuccess ["Wrote"; Posix.basename (destination root a)]) (inr tt)) tr)) /\
  (forall f, o = inl f ->
     In (Some f) (map failure_of tr) \/
     (f = Error "Destination already exists!" /\ exists path, In (Some path) (map found_of tr))).
Proof.
  intros Hs H. unfold scaffoldBasic in H. rewrite Hs in H. cbn in H.
  run_all H; (split; [|split; [|split]]).
  all: try solve [intros ? ? Hin F; (members Hin ltac:(try discriminate F));
                  (split; [reflexivity | repeat constructor])].
  all: try solve [intros ? ? Hin F C;
                  (members Hin ltac:(try discriminate F; try (injection F as ->; congruence)));
                  repeat constructor].
  all: try solve [intros O; try discriminate O; first [left; eexists; split; [found | assumption]
                                              | right; do 2 eexists; split; found]].
  all: try solve [intros ? O; try discriminate O; injection O as <-;
       first [left; solve [found] | right; split; [reflexivity | eexists; found]]].
Qed.

Abbreviation package_destination root a := (Path.resolve cwd [root; package_target a]).

(** X20. [scaffoldPackage] changes the file system in one way only: it
    ensures the destination, after the user has confirmed and the
    destination was seen not to exist; it writes no file itself.  The
    prompt validates against the packages found under [node_modules] of
    the root. *)
Theorem scaffoldPackage_guarded {W} (h : handler W) (w w' : W) (type_ root : string)
    (o : failure + option (list (prog unit))) (tr : list entry) :
  run h (scaffoldPackage cwd __dirname type_ root) w = (o, w', tr) ->
  forall pre e post, tr = pre ++ e :: post -> fs_access e = true ->
    exists packages a,
      In (Did (NpmPackages (Path.resolve cwd [root; "node_modules"])) (inr packages)) pre /\
      In (Did (PromptPackage (package_questions packages)) (inr a)) pre /\
      package_confirm a = true /\
      write_of e = None /\
      (mutates e = true ->
       (exists r, e = Did (EnsureDir (package_destination root a)) r) /\
       In (Did (Exists (package_destination root a)) (inr false)) pre).
Proof.
  intros H. unfold scaffoldPackage in H. cbn in H.
  run_all H; intros pre e post E;
    positions E ltac:(intros A; try discriminate A;
                      (do 2 eexists;
                       (split; [found|]); (split; [found|]); (split; [assumption|]);
                       (split; [reflexivity|]); intros B; try discriminate B;
                       (split; [eexists; reflexivity | found]))).
Qed.

(** X21. How [scaffoldPackage] ends.  It hands over the promises of the six
    files only when the user has confirmed, the destination did not exist
    and was ensured; when the user declines it returns nothing and has
    called no function of [fs-extra]; and a failure is that of an event,
    unless it is [Destination already exists!], which is raised when the
    destination exists. *)
Theorem scaffoldPackage_outcome {W} (h : handler W) (w w' : W) (type_ root : string)
    (o : failure + option (list (prog unit))) (tr : list entry) :
  run h (scaffoldPackage cwd __dirname type_ root) w = (o, w', tr) ->
  (forall pool, o = inr (Some pool) ->
     exists a,
       pool = promises cwd __dirname (name a) (package_destination root a) /\
       In (Some a) (map package_answers_of tr) /\ package_confirm a = true /\
       In (Did (Exists (package_destination root a)) (inr false)) tr /\
       In (Did (EnsureDir (package_destination root a)) (inr tt)) tr) /\
  (o = inr None ->
     (exists a, In (Some a) (map package_answers_of tr) /\ package_confirm a = false) /\
     Forall (fun e => fs_access e = false) tr) /\
  (forall e path, In e tr -> found_of e = Some path ->
     o = inl (Error "Destination already exists!") /\
     Forall (fun e' => mutates e' = false) tr) /\
  (forall f, o = inl f ->
     In (Some f) (map failure_of tr) \/
     (f = Error "Destination already exists!" /\ exists path, In (Some path) (map found_of tr))).
Proof.
  intros H. unfold scaffoldPackage in H. cbn in H.
  run_all H; (split; [|split; [|split]]).
  all: try solve [intros ? O; try discriminate O; injection O as <-;
                  eexists; (split; [reflexivity|]); (split; [found|]);
                  (split; [assumption|]); split; found].
  all: try solve [intros O; try discriminate O;
                  (split; [eexists; split; [found | assumption] | repeat constructor])].
  all: try solve [intros ? ? Hin F; (members Hin ltac:(try discriminate F));
                  (split; [reflexivity | repeat constructor])].
  all: try solve [intros ? O; try discriminate O; injection O as <-;
       first [left; solve [found] | right; split; [reflexivity | eexists; found]]].
Qed.

(** **** The promises of [scaffoldPackage] *)

Lemma write_of_inv (e : entry) (path contents : string) :
  write_of e = Some (path, contents) -> exists r, e = Did (WriteFile path contents) r.
Proof.
  destruct e as [X ev r]. destruct ev; simpl; intros [=]. subst. eauto.
Qed.

Lemma known_more (name_ dirname_ f : string) (seen more : list entry) (st : stage) :
  known cwd __dirname name_ dirname_ f seen st ->
  known cwd __dirname name_ dirname_ f (seen ++ more) st.
Proof.
  destruct st as [|raw| |[e|u]]; cbn; try tauto.
  - intros H. apply in_or_app. tauto.
  - intros [raw [H1 H2]]. exists raw. rewrite !in_app_iff. tauto.
  - intros [raw [H1 [H2 H3]]]. exists raw. rewrite !in_app_iff. tauto.
Qed.

Lemma pending_insert (sts : list stage) (i : nat) (st st' : stage) :
  sts !! i = Some st ->
  sum_list (pending <$> <[i := st']> sts) + pending st
  = sum_list (pending <$> sts) + pending st'.
Proof.
  revert i. induction sts as [|x sts IH]; intros [|i]; csimpl; try discriminate.
  - intros [= ->]. lia.
  - intros H. specialize (IH i H). lia.
Qed.

Section Pool.

Context {W : Type} (h : handler W) (name_ dirname_ : string).

Abbreviation template f := (Path.resolve cwd [templates cwd __dirname; "application"; f]).
Abbreviation file f := (Path.resolve cwd [dirname_; f]).
Abbreviation subst raw := (replace_all "___NAME___" name_ raw).

(** One event of one promise. *)
Lemma advance_at_stage (f : string) (st : stage) (seen : list entry) (w w1 : W)
    (p' : prog unit) (tr1 : list entry) :
  known cwd __dirname name_ dirname_ f seen st ->
  advance h (at_stage cwd __dirname name_ dirname_ f st) w = (p', w1, tr1) ->
  exists st',
    p' = at_stage cwd __dirname name_ dirname_ f st' /\
    known cwd __dirname name_ dirname_ f (seen ++ tr1) st' /\
    length (omap write_of tr1) + pending st' <= pending st /\
    (forall e, In e tr1 -> mutates e = true -> write_of e <> None) /\
    (forall e path contents, In e tr1 -> write_of e = Some (path, contents) ->
       exists raw, path = file f /\ contents = subst raw /\
                   In (Did (ReadFile (template f) "utf8") (inr raw)) seen).
Proof.
  intros K H. destruct st as [|raw| |[e|u]]; cbn in H.
  - destruct (h _ _ w) as [[e|raw] w0]; injection H as <- <- <-.
    + exists (Settled (inl e)). repeat split; cbn; auto; try lia.
      * intros e0 [<-|[]]. discriminate.
      * intros e0 p c [<-|[]]. discriminate.
    + exists (Read raw). repeat split; cbn; auto; try lia.
      * apply in_or_app. right. left. reflexivity.
      * intros e0 [<-|[]]. discriminate.
      * intros e0 p c [<-|[]]. discriminate.
  - destruct (h _ _ w) as [[e|[]] w0]; injection H as <- <- <-.
    + exists (Settled (inl e)). repeat split; cbn; auto; try lia.
      * intros e0 [<-|[]] _. discriminate.
      * intros e0 p c [<-|[]] [= <- <-]. eauto.
    + exists Written. repeat split; cbn; auto; try lia.
      * exists raw. rewrite !in_app_iff. cbn. auto.
      * intros e0 [<-|[]] _. discriminate.
      * intros e0 p c [<-|[]] [= <- <-]. eauto.
  - destruct (h _ _ w) as [[e|[]] w0]; injection H as <- <- <-.
    + exists (Settled (inl e)). repeat split; cbn; auto; try lia.
      * intros e0 [<-|[]]. discriminate.
      * intros e0 p c [<-|[]]. discriminate.
    + exists (Settled (inr tt)). repeat split; cbn; auto; try lia.
      * destruct K as [raw [K1 K2]]. exists raw. rewrite !in_app_iff. cbn. auto.
      * intros e0 [<-|[]]. discriminate.
      * intros e0 p c [<-|[]]. discriminate.
  - injection H as <- <- <-. exists (Settled (inl e)). rewrite app_nil_r.
    repeat split; cbn; auto; try tauto.
  - injection H as <- <- <-. exists (Settled (inr u)). rewrite app_nil_r.
    repeat split; cbn; auto; try tauto.
Qed.

Lemma run_pool_stages (schedule : list nat) :
  forall (fs : list string) (sts : list stage) (w : W) (seen : list entry)
         (pool' : list (prog unit)) (w' : W) (tr : list entry),
    length fs = length sts ->
    (forall i f st, fs !! i = Some f -> sts !! i = Some st ->
                    known cwd __dirname name_ dirname_ f seen st) ->
    run_pool h schedule (zip_with (at_stage cwd __dirname name_ dirname_) fs sts) w
      = (pool', w', tr) ->
    exists sts',
      length fs = length sts' /\
      pool' = zip_with (at_stage cwd __dirname name_ dirname_) fs sts' /\
      (forall i f st, fs !! i = Some f -> sts' !! i = Some st ->
                      known cwd __dirname name_ dirname_ f (seen ++ tr) st) /\
      length (omap write_of tr) + sum_list (pending <$> sts') <= sum_list (pending <$> sts) /\
      (forall e, In e tr -> mutates e = true -> write_of e <> None) /\
      (forall pre e post path contents,
         tr = pre ++ e :: post -> write_of e = Some (path, contents) ->
         exists f raw, In f fs /\ path = file f /\ contents = subst raw /\
                       In (Did (ReadFile (template f) "utf8") (inr raw)) (seen ++ pre)).
Proof.
  induction schedule as [|i rest IH]; intros fs sts w seen pool' w' tr L K H; cbn in H.
  - injection H as <- <- <-. exists sts. rewrite app_nil_r.
    split; [exact L|]. split; [reflexivity|]. split; [exact K|].
    split; [csimpl; lia|]. split.
    + intros e [].
    + intros pre e post path contents E. destruct pre; discriminate.
  - rewrite lookup_zip_with in H.
    destruct (fs !! i) as [f|] eqn:Ef; cbn in H; [|eapply IH; eauto].
    destruct (sts !! i) as [st|] eqn:Es; cbn in H; [|eapply IH; eauto].
    destruct (advance h (at_stage cwd __dirname name_ dirname_ f st) w) as [[p1 w1] tr1] eqn:A.
    destruct (advance_at_stage f st seen w w1 p1 tr1 (K i f st Ef Es) A)
      as [st1 [-> [K1 [P1 [M1 G1]]]]].
    assert (Z : <[i := at_stage cwd __dirname name_ dirname_ f st1]>
                  (zip_with (at_stage cwd __dirname name_ dirname_) fs sts)
                = zip_with (at_stage cwd __dirname name_ dirname_) fs (<[i := st1]> sts)).
    { rewrite <- (list_insert_id fs i f Ef) at 2. apply insert_zip_with. }
    rewrite Z in H. clear Z.
    destruct (run_pool h rest _ w1) as [[pool2 w2] tr2] eqn:R.
    injection H as <- <- <-.
    destruct (IH fs (<[i := st1]> sts) w1 (seen ++ tr1) pool2 w2 tr2) as
      [sts' [L' [-> [K' [P' [M' G']]]]]].
    + rewrite length_insert. exact L.
    + intros j g st' Hg Hst. destruct (decide (i = j)) as [<-|N].
      * rewrite list_lookup_insert_eq in Hst by (apply lookup_lt_Some in Es; exact Es).
        injection Hst as <-. rewrite Ef in Hg. injection Hg as <-. exact K1.
      * rewrite list_lookup_insert_ne in Hst by exact N.
        apply known_more. eauto.
    + exact R.
    + exists sts'. split; [exact L'|]. split; [reflexivity|].
      split; [|split; [|split]].
      * intros j g st' Hg Hst. rewrite app_assoc. eauto.
      * pose proof (pending_insert sts i st st1 Es) as PI.
        rewrite omap_app, length_app. lia.
      * intros e Hin. apply in_app_or in Hin as [Hin|Hin]; eauto.
      * intros pre e post path contents E Hw.
        assert (C : tr1 = [] \/ exists e1, tr1 = [e1]).
        { unfold advance in A. destruct (at_stage _ _ _ _ _ _);
            [injection A as _ _ <-; auto .. |].
          destruct (h _ ev w) as [r0 w0]. injection A as _ _ <-. eauto. }
        destruct C as [-> | [e1 ->]].
        -- cbn [app] in E. destruct (G' pre e post path contents E Hw) as [g [raw G2]].
           rewrite app_nil_r in G2. eauto.
        -- destruct pre as [|x pre]; cbn [app] in E; injection E as -> ->.
           ++ destruct (G1 e path contents (or_introl eq_refl) Hw) as [raw [-> [-> G2]]].
              exists f, raw. rewrite app_nil_r. repeat split; auto.
              apply list_elem_of_In. eapply list_elem_of_lookup_2. exact Ef.
           ++ destruct (G' pre e post path contents eq_refl Hw) as [g [raw G2]].
              rewrite <- app_assoc in G2. eauto.
Qed.

End Pool.

Abbreviation template f := (Path.resolve cwd [templates cwd __dirname; "application"; f]).

Lemma promises_stages (name_ dirname_ : string) :
  promises cwd __dirname name_ dirname_
  = zip_with (at_stage cwd __dirname name_ dirname_) files (replicate 6 Started).
Proof. reflexivity. Qed.

(** X22. The promises of [scaffoldPackage], however their events
    interleave: a file is written only at the destination of one of the
    six names, with the template read before for that name, where every
    [___NAME___] is replaced; nothing else is changed in the file system;
    and [writeFile] is called six times at most. *)
Theorem promises_write {W} (h : handler W) (schedule : list nat) (name_ dirname_ : string)
    (w w' : W) (pool' : list (prog unit)) (tr : list entry) :
  run_pool h schedule (promises cwd __dirname name_ dirname_) w = (pool', w', tr) ->
  (forall pre e post path contents,
     tr = pre ++ e :: post -> write_of e = Some (path, contents) ->
     exists f raw,
       In f files /\ path = Path.resolve cwd [dirname_; f] /\
       contents = replace_all "___NAME___" name_ raw /\
       In (Did (ReadFile (template f) "utf8") (inr raw)) pre) /\
  (forall e, In e tr -> mutates e = true -> write_of e <> None) /\
  length (omap write_of tr) <= 6.
Proof.
  intros H. rewrite promises_stages in H.
  destruct (run_pool_stages h name_ dirname_ schedule files (replicate 6 Started) w []
              pool' w' tr eq_refl) as [sts' [L [E [K [P [M G]]]]]]; [|exact H|].
  - intros i f st _ Hst. apply lookup_replicate in Hst as [-> _]. exact I.
  - split; [exact G|]. split; [exact M|]. cbn in P. lia.
Qed.

(** X23. A promise of [scaffoldPackage] that is fulfilled has read its
    template, written its file and reported it. *)
Theorem promises_fulfilled {W} (h : handler W) (schedule : list nat)
    (name_ dirname_ : string) (w w' : W) (pool' : list (prog unit)) (tr : list entry) :
  run_pool h schedule (promises cwd __dirname name_ dirname_) w = (pool', w', tr) ->
  forall i f, files !! i = Some f -> pool' !! i = Some (Ret tt) ->
    exists raw,
      In (Did (ReadFile (template f) "utf8") (inr raw)) tr /\
      In (Did (WriteFile (Path.resolve cwd [dirname_; f])
                         (replace_all "___NAME___" name_ raw)) (inr tt)) tr /\
      In (Did (LoggerSuccess ["Wrote"; f]) (inr tt)) tr.
Proof.
  intros H i f Hf Hp. rewrite promises_stages in H.
  destruct (run_pool_stages h name_ dirname_ schedule files (replicate 6 Started) w []
              pool' w' tr eq_refl) as [sts' [L [E [K [P [M G]]]]]]; [|exact H|].
  - intros j g st _ Hst. apply lookup_replicate in Hst as [-> _]. exact I.
  - subst pool'. rewrite lookup_zip_with, Hf in Hp. cbn in Hp.
    destruct (sts' !! i) as [st|] eqn:Es; [|discriminate]. cbn in Hp.
    specialize (K i f st Hf Es). cbn [app] in K.
    destruct st as [|raw| |[e|u]]; try discriminate Hp. exact K.
Qed.

(** X24. [make:application] from the prompt to the last promise, however
    the promises interleave: the file system is changed only after the
    user has confirmed and the destination was seen not to exist; the
    changes are the creation of the destination and then, inside it, the
    files of the six names with the name of the package in place of
    [___NAME___]. *)
Theorem make_application_guarded {W} (h : handler W) (schedule : list nat) (root : string)
    (w w' : W) (o : failure + option (list (prog unit))) (tr : list entry) :
  make_application h cwd __dirname schedule root w = (o, w', tr) ->
  forall pre e post, tr = pre ++ e :: post -> mutates e = true ->
    exists a,
      In (Some a) (map package_answers_of pre) /\ package_confirm a = true /\
      In (Did (Exists (package_destination root a)) (inr false)) pre /\
      ((exists r, e = Did (EnsureDir (package_destination root a)) r) \/
       (In (Did (EnsureDir (package_destination root a)) (inr tt)) pre /\
        exists f raw r,
          In f files /\
          e = Did (WriteFile (Path.resolve cwd [package_destination root a; f])
                             (replace_all "___NAME___" (name a) raw)) r /\
          In (Did (ReadFile (template f) "utf8") (inr raw)) pre)).
Proof.
  intros H. unfold make_application, scaffoldPackage in H. cbn in H.
  run_all H.
  all: try solve [intros pre e post E;
                  positions E ltac:(intros A; try discriminate A;
                                    (eexists; (split; [found|]); (split; [assumption|]);
                                     (split; [found|]); left; eexists; reflexivity))].
  (* the promises were started *)
  match goal with a : package_answers |- _ => rename a into ans end.
  match type of H with
  | context [run_pool h schedule ?pool ?w1] =>
      change pool with (zip_with (at_stage cwd __dirname (name ans)
                                    (package_destination root ans))
                          files (replicate 6 Started)) in H;
      destruct (run_pool h schedule
                  (zip_with (at_stage cwd __dirname (name ans)
                               (package_destination root ans))
                     files (replicate 6 Started)) w1) as [[pool' wq] tr2] eqn:R
  end.
  injection H as <- <- <-.
  assert (K0 : forall i f st,
            files !! i = Some f -> replicate 6 Started !! i = Some st ->
            known cwd __dirname (name ans) (package_destination root ans) f [] st).
  { intros i f st _ Hst. apply lookup_replicate in Hst as [-> _]. exact I. }
  destruct (run_pool_stages h _ _ schedule files (replicate 6 Started) _ [] pool' wq tr2
              eq_refl K0 R) as [sts' [L [E' [K [P [M G]]]]]].
  intros pre e post E Hm.
  match type of E with
  | ?a :: ?b :: ?c :: ?d :: tr2 = _ =>
      change ([a; b; c; d] ++ tr2 = pre ++ e :: post) in E
  end.
  assert (POOL : forall mid, tr2 = mid ++ e :: post ->
            exists f raw r,
              In f files /\
              e = Did (WriteFile (Path.resolve cwd [package_destination root ans; f])
                                 (replace_all "___NAME___" (name ans) raw)) r /\
              In (Did (ReadFile (template f) "utf8") (inr raw)) mid).
  { intros mid E2.
    destruct (write_of e) as [[path contents]|] eqn:Hw;
      [|exfalso; apply (M e); [rewrite E2; apply in_or_app; right; left; reflexivity
                             | exact Hm | exact Hw]].
    destruct (G mid e post path contents E2 Hw) as [f [raw [G1 [-> [-> G2]]]]].
    destruct (write_of_inv e _ _ Hw) as [r ->]. exists f, raw, r. auto. }
  destruct (app_eq_app _ _ _ _ E) as [mid [[E1 E2] | [E1 E2]]].
  - destruct mid as [|x mid].
    + (* the first event of the promises *)
      rewrite app_nil_r in E1. cbn [app] in E2. symmetry in E2.
      destruct (POOL [] E2) as [f [raw [r [G1 [-> []]]]]].
    + (* an event of [scaffoldPackage] *)
      cbn [app] in E2. injection E2 as <- E2.
      positions E1 ltac:(try discriminate Hm;
                         (eexists; (split; [found|]); (split; [eassumption|]);
                          (split; [found|]); left; eexists; reflexivity)).
  - (* an event of the promises *)
    destruct (POOL mid E2) as [f [raw [r [G1 [-> G2]]]]]. subst pre.
    exists ans. split; [found|]. split; [assumption|]. split; [found|].
    right. split; [found|]. exists f, raw, r. split; [exact G1|]. split; [reflexivity|].
    apply in_or_app. right. exact G2.
Qed.

End Tasks.

Lemma scaffoldBasic_guarded_witness :
  exists s a,
    lookup_scaffold scaffolds "auth" = Some s /\
    mutates (nth 3 (snd sample_basic_run) (Did (Exists "") (inr true))) = true /\
    In (Did (PromptBasic (questions "auth" s)) (inr a)) (firstn 3 (snd sample_basic_run)) /\
    In (Did (Exists (Path.resolve "/home/u" ["/proj"; target a])) (inr false))
       (firstn 3 (snd sample_basic_run)).
Proof.
  destruct (proj2 (scaffoldBasic_guarded "/home/u" "/cli/src/tasks" sample_handler
                     sample_world (snd (fst sample_basic_run)) "auth" "/proj" _
                     (fst (fst sample_basic_run)) (snd sample_basic_run) eq_refl eq_refl
                     (firstn 3 (snd sample_basic_run))
                     (nth 3 (snd sample_basic_run) (Did (Exists "") (inr true)))
                     (skipn 4 (snd sample_basic_run)) eq_refl) eq_refl) as [a [H1 H2]].
  eexists _, a. split; [reflexivity|]. split; [reflexivity|]. split; assumption.
Defined.

Lemma scaffoldBasic_writes_witness :
  exists s a raw,
    lookup_scaffold scaffolds "auth" = Some s /\
    write_of (nth 5 (snd sample_basic_run) (Did (Exists "") (inr true)))
    = Some (Path.resolve "/home/u" ["/proj"; target a], "/*" +:+ info s +:+ "*/" +:+ raw) /\
    In (Did (EnsureDir (Posix.dirname (Path.resolve "/home/u" ["/proj"; target a]))) (inr tt))
       (firstn 5 (snd sample_basic_run)).
Proof.
  destruct (scaffoldBasic_writes "/home/u" "/cli/src/tasks" sample_handler
              sample_world (snd (fst sample_basic_run)) "auth" "/proj" _
              (fst (fst sample_basic_run)) (snd sample_basic_run) eq_refl eq_refl
              (firstn 5 (snd sample_basic_run))
              (nth 5 (snd sample_basic_run) (Did (Exists "") (inr true)))
              (skipn 6 (snd sample_basic_run)) _ _ eq_refl eq_refl)
    as [a [raw [H1 [H2 [H3 [H4 [H5 H6]]]]]]].
  eexists _, a, raw. split; [reflexivity|]. split; [|exact H5].
  rewrite <- H2, <- H3. reflexivity.
Defined.

Lemma scaffoldBasic_outcome_witness :
  exists s,
    lookup_scaffold scaffolds "auth" = Some s /\
    fst (fst sample_basic_run) = inr tt /\
    ((exists a, In (Did (PromptBasic (questions "auth" s)) (inr a)) (snd sample_basic_run) /\
                confirm a = false) \/
     (exists a raw,
        In (Did (WriteFile (Path.resolve "/home/u" ["/proj"; target a])
                           ("/*" +:+ info s +:+ "*/" +:+ raw)) (inr tt))
           (snd sample_basic_run) /\
        In (Did (LoggerSuccess
                   ["Wrote"; Posix.basename (Path.resolve "/home/u" ["/proj"; target a])])
                (inr tt))
           (snd sample_basic_run))).
Proof.
  eexists. split; [reflexivity|]. split; [reflexivity|].
  exact (proj1 (proj2 (proj2
           (scaffoldBasic_outcome "/home/u" "/cli/src/tasks" sample_handler
              sample_world (snd (fst sample_basic_run)) "auth" "/proj" _
              (fst (fst sample_basic_run)) (snd sample_basic_run) eq_refl eq_refl)))
           eq_refl).
Defined.

Lemma scaffoldPackage_guarded_witness :
  exists a,
    mutates (nth 3 (snd sample_scaffold_run) (Did (Exists "") (inr true))) = true /\
    package_confirm a = true /\
    In (Did (Exists (Path.resolve "/home/u" ["/proj"; package_target a])) (inr false))
       (firstn 3 (snd sample_scaffold_run)).
Proof.
  destruct (scaffoldPackage_guarded "/home/u" "/cli/src/tasks" sample_handler
              sample_world (snd (fst sample_scaffold_run)) "application" "/proj"
              (fst (fst sample_scaffold_run)) (snd sample_scaffold_run) eq_refl
              (firstn 3 (snd sample_scaffold_run))
              (nth 3 (snd sample_scaffold_run) (Did (Exists "") (inr true)))
              (skipn 4 (snd sample_scaffold_run)) eq_refl eq_refl)
    as [packages [a [H1 [H2 [H3 [H4 H5]]]]]].
  exists a. split; [reflexivity|]. split; [exact H3|]. exact (proj2 (H5 eq_refl)).
Defined.

Lemma scaffoldPackage_outcome_witness :
  exists pool a,
    fst (fst sample_scaffold_run) = inr (Some pool) /\
    pool = promises "/home/u" "/cli/src/tasks" (name a)
             (Path.resolve "/home/u" ["/proj"; package_target a]) /\
    In (Did (EnsureDir (Path.resolve "/home/u" ["/proj"; package_target a])) (inr tt))
       (snd sample_scaffold_run).
Proof.
  destruct (proj1 (scaffoldPackage_outcome "/home/u" "/cli/src/tasks" sample_handler
                     sample_world (snd (fst sample_scaffold_run)) "application" "/proj"
                     (fst (fst sample_scaffold_run)) (snd sample_scaffold_run) eq_refl)
              _ eq_refl) as [a [H1 [H2 [H3 [H4 H5]]]]].
  eexists _, a. split; [reflexivity|]. split; [exact H1 | exact H5].
Defined.

Lemma promises_write_witness :
  exists f raw,
    In f files /\
    write_of (nth 2 (snd sample_promises_run) (Did (Exists "") (inr true)))
    = Some (Path.resolve "/home/u" ["/proj/src/packages/MyApp"; f],
            replace_all "___NAME___" "MyApp" raw) /\
    length (omap write_of (snd sample_promises_run)) <= 6.
Proof.
  pose proof (promises_write "/home/u" "/cli/src/tasks" sample_handler [0; 4; 0; 1; 4; 0; 4]
                "MyApp" "/proj/src/packages/MyApp" sample_world
                (snd (fst sample_promises_run)) (fst (fst sample_promises_run))
                (snd sample_promises_run) eq_refl) as [H1 [H2 H3]].
  destruct (H1 (firstn 2 (snd sample_promises_run))
               (nth 2 (snd sample_promises_run) (Did (Exists "") (inr true)))
               (skipn 3 (snd sample_promises_run)) _ _ eq_refl eq_refl)
    as [f [raw [G1 [G2 [G3 G4]]]]].
  exists f, raw. split; [exact G1|]. split; [|exact H3].
  rewrite <- G2, <- G3. reflexivity.
Defined.

Lemma promises_fulfilled_witness :
  fst (fst sample_promises_run) !! 0 = Some (Ret tt) /\
  exists raw,
    In (Did (WriteFile (Path.resolve "/home/u" ["/proj/src/packages/MyApp"; "index.js"])
                       (replace_all "___NAME___" "MyApp" raw)) (inr tt))
       (snd sample_promises_run).
Proof.
  split; [reflexivity|].
  destruct (promises_fulfilled "/home/u" "/cli/src/tasks" sample_handler
              [0; 4; 0; 1; 4; 0; 4] "MyApp" "/proj/src/packages/MyApp" sample_world
              (snd (fst sample_promises_run)) (fst (fst sample_promises_run))
              (snd sample_promises_run) eq_refl 0 "index.js" eq_refl eq_refl)
    as [raw [H1 [H2 H3]]].
  exists raw. exact H2.
Defined.

Lemma make_application_guarded_witness :
  exists a,
    mutates (nth 6 (snd sample_package_run) (Did (Exists "") (inr true))) = true /\
    package_confirm a = true /\
    In (Did (Exists (Path.resolve "/home/u" ["/proj"; package_target a])) (inr false))
       (firstn 6 (snd sample_package_run)).
Proof.
  destruct (make_application_guarded "/home/u" "/cli/src/tasks" sample_handler
              [0; 4; 0; 1; 4; 0; 4] "/proj" sample_world (snd (fst sample_package_run))
              (fst (fst sample_package_run)) (snd sample_package_run) eq_refl
              (firstn 6 (snd sample_package_run))
              (nth 6 (snd sample_package_run) (Did (Exists "") (inr true)))
              (skipn 7 (snd sample_package_run)) eq_refl eq_refl)
    as [a [H1 [H2 [H3 H4]]]].
  exists a. split; [reflexivity|]. split; [exact H2 | exact H3].
Defined.

End TaskFacts.
